(** * The retrieval-augmented-generation core of gen-ai-rag-project

    A shallow embedding of [src/lib/vector-store.ts] and
    [src/lib/rag-pipeline.ts], and the properties of the vector store, the
    context builder, the query processor and the pipeline orchestrator;
    with them the text extraction of [src/app/api/scrape/route.ts] and the
    helpers of the document list.

    Conventions of the embedding.
    - A JavaScript number is an IEEE 754 binary64 value: Rocq's primitive
      [float], whose operations are the ones the engine performs.
    - A JavaScript string is a sequence of code units; the development covers
      the code units below 256, one [ascii] each, so a string is a [string].
    - An array is a [list]; an object used as a dictionary is a [gmap] together
      with what it inherits from [Object.prototype]; a [Set] is a [gset].
    - Integers that only count things (lengths, token counters, the
      millisecond clock) are [Z].
    - Effects (the singleton store, the two remote endpoints, the clock, the
      console, exceptions) are threaded through a state-and-exception monad. *)

From Stdlib Require Import ZArith Lia List Bool Ascii String Sorted.
From Stdlib Require Import Permutation.
From Stdlib Require Import Floats Uint63.
From stdpp Require Import gmap strings list.
Import ListNotations.

Local Open Scope string_scope.
Local Open Scope list_scope.
Local Open Scope Z_scope.

(** ** The part of the JavaScript runtime the sources rely on *)

Module JS.

(** *** Characters and regular-expression classes *)

Definition charCode (c : ascii) : Z := Z.of_N (N_of_ascii c).

Definition fromCharCode (n : Z) : ascii := ascii_of_N (Z.to_N n).

(** [\s], which is also what [trim] strips: TAB, LF, VT, FF, CR, SPACE and
    NO-BREAK SPACE are the white space and line terminators below 256. *)
Definition isWhiteSpace (c : ascii) : bool :=
  let n := charCode c in
  ((9 <=? n) && (n <=? 13)) || (n =? 32) || (n =? 160).

(** [\w] without the [u] or [i] flag: [A-Za-z0-9_]. *)
Definition isWordChar (c : ascii) : bool :=
  let n := charCode c in
  ((48 <=? n) && (n <=? 57)) || ((65 <=? n) && (n <=? 90))
  || ((97 <=? n) && (n <=? 122)) || (n =? 95).

(** The class [[.!?]] of the sentence splitter. *)
Definition isSentenceEnd (c : ascii) : bool :=
  let n := charCode c in (n =? 46) || (n =? 33) || (n =? 63).

(** *** Strings *)

(** [toLowerCase] on one code unit: the ASCII capitals and the Latin-1
    capitals U+00C0..U+00DE (U+00D7, the multiplication sign, is not one). *)
Definition lowerChar (c : ascii) : ascii :=
  let n := charCode c in
  if ((65 <=? n) && (n <=? 90))
     || ((192 <=? n) && (n <=? 222) && negb (n =? 215))
  then fromCharCode (n + 32) else c.

Fixpoint mapChars (f : ascii -> ascii) (s : string) : string :=
  match s with
  | EmptyString => EmptyString
  | String c s' => String (f c) (mapChars f s')
  end.

Definition toLowerCase (s : string) : string := mapChars lowerChar s.

Definition startsWithClass (cls : ascii -> bool) (s : string) : bool :=
  match s with
  | EmptyString => false
  | String c _ => cls c
  end.

(** [s.split(/[cls]+/)]: the pieces between the maximal runs of separator
    characters.  A separator run at the start (or at the end) leaves an empty
    first (or last) piece, and the empty string splits into [[""]]. *)
Fixpoint splitRuns (cls : ascii -> bool) (s : string) : list string :=
  match s with
  | EmptyString => [EmptyString]
  | String c s' =>
      let pieces := splitRuns cls s' in
      if cls c then
        if startsWithClass cls s' then pieces else EmptyString :: pieces
      else
        match pieces with
        | piece :: others => String c piece :: others
        | [] => [String c EmptyString]
        end
  end.

(** [s.split(/\s+/)] *)
Definition splitWhiteSpace (s : string) : list string :=
  splitRuns isWhiteSpace s.

(** [s.match(/\b\w+\b/g) || []]: the maximal runs of word characters, left to
    right.  [cur] is the run being read. *)
Fixpoint matchWordsFrom (cur : string) (s : string) : list string :=
  match s with
  | EmptyString => if String.eqb cur "" then [] else [cur]
  | String c s' =>
      if isWordChar c then matchWordsFrom (cur +:+ String c "") s'
      else if String.eqb cur "" then matchWordsFrom "" s'
      else cur :: matchWordsFrom "" s'
  end.

Definition matchWords (s : string) : list string := matchWordsFrom "" s.

Fixpoint trimStart (s : string) : string :=
  match s with
  | EmptyString => EmptyString
  | String c s' => if isWhiteSpace c then trimStart s' else s
  end.

Fixpoint trimEnd (s : string) : string :=
  match s with
  | EmptyString => EmptyString
  | String c s' =>
      let t := trimEnd s' in
      if isWhiteSpace c && String.eqb t "" then EmptyString else String c t
  end.

Definition trim (s : string) : string := trimEnd (trimStart s).

(** [parts.join(sep)] *)
Definition join (sep : string) (parts : list string) : string :=
  String.concat sep parts.

Fixpoint dropChars (n : nat) (s : string) : string :=
  match n, s with
  | O, _ => s
  | S n', String _ s' => dropChars n' s'
  | S _, EmptyString => EmptyString
  end.

(** [s.replace(pattern, replacement)] with a string pattern: the first
    occurrence of [pattern] as a substring of [s] is replaced, nothing else.
    (The [$] patterns of the replacement are not modelled; no replacement in
    the sources contains a [$].) *)
Fixpoint replaceFirst (s pattern replacement : string) : string :=
  if String.prefix pattern s
  then replacement +:+ dropChars (String.length pattern) s
  else match s with
       | EmptyString => EmptyString
       | String c s' => String c (replaceFirst s' pattern replacement)
       end.

(** [s.includes(t)] *)
Fixpoint includes (s t : string) : bool :=
  String.prefix t s ||
  match s with
  | EmptyString => false
  | String _ s' => includes s' t
  end.

(** *** Arrays *)

(** [arr.slice(0, end)] for an integral [end]: a negative [end] counts from
    the end of the array. *)
Definition slice0 {A} (arr : list A) (end_ : Z) : list A :=
  if end_ <? 0
  then firstn (Z.to_nat (Z.max (Z.of_nat (length arr) + end_) 0)) arr
  else firstn (Z.to_nat end_) arr.

(** [arr.includes(x)] on an array of strings. *)
Definition arrayIncludes (arr : list string) (x : string) : bool :=
  existsb (String.eqb x) arr.

(** *** Numbers *)

(** The number that an integer count denotes; exact below 2^53, and every
    length of a string or an array is below 2^53. *)
Definition ofZ (z : Z) : float :=
  if z <? 0 then PrimFloat.opp (PrimFloat.of_uint63 (Uint63.of_Z (- z)))
  else PrimFloat.of_uint63 (Uint63.of_Z z).

(** The sign test [Array.prototype.sort] applies to what the comparator
    returned: a [NaN] counts as [+0]. *)
Inductive Order := Before | Same | After.

Definition sortOrder (v : float) : Order :=
  if PrimFloat.ltb v 0 then Before
  else if PrimFloat.ltb 0 v then After
  else Same.

Section Sort.
Context {A : Type} (compareFn : A -> A -> float).

(** [x] moves behind [y] only when the comparator says so: elements that
    compare as equal keep their order. *)
Fixpoint insertSorted (x : A) (sorted : list A) : list A :=
  match sorted with
  | [] => [x]
  | y :: rest =>
      match sortOrder (compareFn x y) with
      | After => y :: insertSorted x rest
      | _ => x :: sorted
      end
  end.

(** [arr.sort(compareFn)].  The language requires a stable sort, and for a
    consistent comparator every stable sort returns this list.  When the
    comparator is inconsistent (it returns [NaN] for some pairs only) the
    language leaves the order to the engine.  Modelled is a stable insertion
    sort that reads a [NaN] as "equal", as the language has the comparison
    do; where nothing is out of order for such a comparison, as in the
    examples further down, this is also what the sort by runs of V8 (Node.js,
    Chrome) returns: the array as it was.  On other arrays with such a
    comparator an engine may return another order than this one; what is
    proved below about an order either has no [NaN] among the scores or
    holds for every rearrangement of the array. *)
Definition sort (arr : list A) : list A := fold_right insertSorted [] arr.

End Sort.

(** [Math.round]: the nearest integer, a tie going towards plus infinity.
    A finite number with a non-negative exponent is an integer already. *)
Definition Math_round (x : float) : float :=
  match Prim2SF x with
  | S754_finite s m e =>
      if 0 <=? e then x
      else
        let scale := 2 ^ (- e) in
        let signed := if s then Z.neg m else Z.pos m in
        let n := (2 * signed + scale) / (2 * scale) in
        if n =? 0 then (if s then PrimFloat.neg_zero else PrimFloat.zero)
        else ofZ n
  | _ => x
  end.

Definition digitChar (d : Z) : ascii := fromCharCode (48 + d).

(** The decimal digits of a non-negative integer, most significant first;
    [fuel] bounds the number of digits. *)
Fixpoint digitsOf (fuel : nat) (n : Z) (acc : string) : string :=
  match fuel with
  | O => acc
  | S fuel' =>
      let acc' := String (digitChar (n mod 10)) acc in
      if n <? 10 then acc' else digitsOf fuel' (n / 10) acc'
  end.

Definition decimal (n : Z) : string :=
  if n <? 0 then "-" +:+ digitsOf (S (Z.to_nat (Z.log2 (- n)))) (- n) ""
  else digitsOf (S (Z.to_nat (Z.log2 n))) n "".

(** The integer a finite number with a non-negative exponent, or a zero,
    denotes. *)
Definition integerValue (x : float) : option Z :=
  match Prim2SF x with
  | S754_zero _ => Some 0
  | S754_finite s m e =>
      if 0 <=? e then Some ((if s then Z.neg m else Z.pos m) * 2 ^ e)
      else if Z.pos m mod 2 ^ (- e) =? 0
           then Some ((if s then Z.neg m else Z.pos m) / 2 ^ (- e))
           else None
  | _ => None
  end.

(** [Number.prototype.toString] where it is a matter of writing digits down:
    [NaN], the infinities, and the integers up to 2^53 in absolute value,
    which print as their decimal expansion.  [None] elsewhere (fractions,
    and the larger integers, for which the language asks for the shortest
    digits that read back as the same number). *)
Definition toStringSafe (x : float) : option string :=
  match Prim2SF x with
  | S754_nan => Some "NaN"
  | S754_infinity s => Some (if s then "-Infinity" else "Infinity")
  | _ =>
      match integerValue x with
      | Some n => if Z.abs n <=? 2 ^ 53 then Some (decimal n) else None
      | None => None
      end
  end.

(** [String(x)], as a template literal applies it.  [shortestDigits] is the
    engine's choice of digits outside the range of [toStringSafe]. *)
Definition toString (shortestDigits : float -> string) (x : float) : string :=
  match toStringSafe x with
  | Some s => s
  | None => shortestDigits x
  end.

(** The line feed and the double quote, by their codes. *)
Definition lineFeed : string := String (fromCharCode 10) "".
Definition doubleQuote : string := String (fromCharCode 34) "".

End JS.

(** ** Effects: the world the two modules run in *)

Module Effects.

Inductive JSError :=
  | TypeError (message : string)
  | Error (message : string).

Inductive Completion (A : Type) :=
  | Normal (value : A)
  | Throw (error : JSError).
Arguments Normal {A} value.
Arguments Throw {A} error.

(** What [data.embedding] may turn out to be once the reply is parsed: the
    declared [number[]], or [undefined] when the field is missing. *)
Inductive Embedding :=
  | EmbeddingArray (v : list float)
  | EmbeddingUndefined.

Record Metadata := {
  name : string;
  type : string;            (* 'text' | 'file' | 'website' *)
  size : option Z;
  timestamp : Z;
}.

Record VectorDocument := {
  id : string;
  content : string;
  embedding : Embedding;
  metadata : Metadata;
}.

Inductive Request :=
  | PostEmbeddings (text : string)
  | PostChat (query context : string).

(** The state the code can observe or change: the documents of the global
    [vectorStore], the clock behind [Date.now()], the requests sent so far and
    the lines written to the console. *)
Record World := {
  documents : list VectorDocument;
  clock : Z;
  sent : list Request;
  console : list string;
}.

(** How a request to [/api/embeddings] ends: anything that makes the [try]
    block throw (a rejected [fetch], a status that is not ok, a body that is
    not JSON), or a parsed body. *)
Inductive EmbeddingsReply :=
  | EmbeddingsFailed
  | EmbeddingsData (embedding : Embedding).

(** The same for [/api/chat]; [None] is a body without a usable [answer]. *)
Inductive ChatReply :=
  | ChatFailed
  | ChatData (answer : option string).

(** The outside: what each endpoint answers, given everything that happened
    so far, and how long the round trip takes. *)
Record Network := {
  embeddingsApi : World -> string -> EmbeddingsReply;
  chatApi : World -> string -> string -> ChatReply;
  roundTrip : World -> Request -> Z;
}.

Definition M (A : Type) : Type := World -> Completion A * World.

Definition ret {A} (a : A) : M A := fun w => (Normal a, w).

Definition bind {A B} (m : M A) (k : A -> M B) : M B :=
  fun w =>
    match m w with
    | (Normal a, w') => k a w'
    | (Throw e, w') => (Throw e, w')
    end.

Definition throw {A} (e : JSError) : M A := fun w => (Throw e, w).

(** [try { body } catch (error) { handler }] *)
Definition tryCatch {A} (body : M A) (handler : JSError -> M A) : M A :=
  fun w =>
    match body w with
    | (Normal a, w') => (Normal a, w')
    | (Throw e, w') => handler e w'
    end.

Definition liftCompletion {A} (c : Completion A) : M A := fun w => (c, w).

Definition getDocuments : M (list VectorDocument) :=
  fun w => (Normal (documents w), w).

Definition setDocuments (docs : list VectorDocument) : M unit :=
  fun w => (Normal tt,
            {| documents := docs; clock := clock w;
               sent := sent w; console := console w |}).

(** [Date.now()] *)
Definition Date_now : M Z := fun w => (Normal (clock w), w).

(** [console.warn] and [console.error] *)
Definition consoleLog (line : string) : M unit :=
  fun w => (Normal tt,
            {| documents := documents w; clock := clock w;
               sent := sent w; console := console w ++ [line] |}).

Definition afterRequest (net : Network) (r : Request) (w : World) : World :=
  {| documents := documents w; clock := clock w + roundTrip net w r;
     sent := sent w ++ [r]; console := console w |}.

Definition postEmbeddings (net : Network) (text : string) : M EmbeddingsReply :=
  fun w => (Normal (embeddingsApi net w text),
            afterRequest net (PostEmbeddings text) w).

Definition postChat (net : Network) (query context : string) : M ChatReply :=
  fun w => (Normal (chatApi net w query context),
            afterRequest net (PostChat query context) w).

(** [arr.map(f)] for a callback that may throw: the first exception ends the
    traversal. *)
Fixpoint mapCompletion {A B} (f : A -> Completion B) (arr : list A)
  : Completion (list B) :=
  match arr with
  | [] => Normal []
  | x :: rest =>
      match f x with
      | Throw e => Throw e
      | Normal y =>
          match mapCompletion f rest with
          | Throw e => Throw e
          | Normal ys => Normal (y :: ys)
          end
      end
  end.

End Effects.

Notation "'let!' x ':=' m 'in' k" := (Effects.bind m (fun x => k))
  (at level 10, x pattern, m at level 100, k at level 200,
   format "'[v' 'let!'  x  ':='  m  'in' '/' k ']'").

(** ** [src/lib/vector-store.ts] *)

Module VectorStore.
Import Effects.

Record SearchResult := {
  document : VectorDocument;
  similarity : float;
}.

(** [a.reduce((sum, val, i) => sum + val * b[i], 0)], [i] counting from
    [start]; an index past the end of [b] reads [undefined], and a product
    with [undefined] is [NaN]. *)
Fixpoint dotFrom (start : nat) (a b : list float) (sum : float) : float :=
  match a with
  | [] => sum
  | val :: rest =>
      let bi := match nth_error b start with
                | Some x => x
                | None => PrimFloat.nan
                end in
      dotFrom (S start) rest b (sum + val * bi)%float
  end.

(** [v.reduce((sum, val) => sum + val * val, 0)] *)
Definition sumOfSquares (v : list float) : float :=
  fold_left (fun sum val => (sum + val * val)%float) v PrimFloat.zero.

(** [cosineSimilarity] on two arrays. *)
Definition cosine (a b : list float) : float :=
  let dotProduct := dotFrom 0 a b PrimFloat.zero in
  let magnitudeA := PrimFloat.sqrt (sumOfSquares a) in
  let magnitudeB := PrimFloat.sqrt (sumOfSquares b) in
  (dotProduct / (magnitudeA * magnitudeB))%float.

(** [cosineSimilarity]: calling [reduce] on [undefined], or indexing it, is a
    [TypeError]. *)
Definition cosineSimilarity (a b : Embedding) : Completion float :=
  match a, b with
  | EmbeddingArray va, EmbeddingArray vb => Normal (cosine va vb)
  | _, _ => Throw (TypeError "Cannot read properties of undefined")
  end.

Definition commonWords : list string :=
  [
    "the"; "and"; "or"; "but"; "in"; "on"; "at"; "to"; "for"; "of"; "with";
    "by"; "from"; "up"; "about"; "into"; "through"; "during"; "before";
    "after"; "above"; "below"; "between"; "among"; "within"; "without";
    "under"; "over"; "across"; "behind"; "beyond"; "beside"; "data";
    "information"; "system"; "process"; "method"; "result"; "analysis";
    "research"; "study"; "report"; "document"; "content"; "text"; "file";
    "website"; "application"; "software"; "technology"; "computer";
    "digital"; "online"; "internet"; "web"; "database"; "algorithm";
    "model"; "machine"; "learning"; "artificial"; "intelligence"; "neural";
    "network"; "deep"; "training"; "prediction"; "classification";
    "feature"; "pattern"; "recognition"; "natural"; "language";
    "processing"; "semantic"; "similarity"; "vector"; "embedding";
    "retrieval"; "generation"; "query"; "search"; "index"; "knowledge";
    "base"; "repository"; "storage"; "memory"; "cache"; "optimization";
    "performance"; "efficiency"; "accuracy"; "precision"; "recall";
    "evaluation"; "metric"; "score"; "threshold"; "parameter";
    "configuration"; "setting"; "option"; "choice"
  ].

(** The [forEach] that counts the words.  Each key of [wordFreq] holds the
    number of times the word was seen.  (The object also inherits from
    [Object.prototype], which shows under the keys [constructor] and
    [__proto__] only; neither is one of [commonWords], the only keys that
    are read back.) *)
Definition countWord (wordFreq : gmap string Z) (word : string)
  : gmap string Z :=
  <[word := default 0 (wordFreq !! word) + 1]> wordFreq.

Definition countWords (words : list string) : gmap string Z :=
  fold_left countWord words ∅.

(** [while (vector.length < 100) vector.push(0)] *)
Definition padTo100 (vector : list float) : list float :=
  vector ++ repeat PrimFloat.zero (100 - length vector)%nat.

Definition textToVector (text : string) : list float :=
  let words := JS.matchWords (JS.toLowerCase text) in
  let wordFreq := countWords words in
  let vector :=
    map (fun word =>
           let freq := default 0 (wordFreq !! word) in
           (JS.ofZ freq / JS.ofZ (Z.of_nat (length words)))%float)
        commonWords in
  JS.slice0 (padTo100 vector) 100.

Section WithNetwork.
Context (net : Network).

Definition generateEmbedding (text : string) : M Embedding :=
  let! reply := postEmbeddings net text in
  match reply with
  | EmbeddingsData e => ret e
  | EmbeddingsFailed =>
      let! _ := consoleLog "[RAG] OpenAI embedding failed, using TF-IDF fallback:" in
      ret (EmbeddingArray (textToVector text))
  end.

Definition withoutId (id_ : string) (docs : list VectorDocument)
  : list VectorDocument :=
  List.filter (fun doc => negb (String.eqb (id doc) id_)) docs.

Definition addDocument (id_ content_ : string) (metadata_ : Metadata)
  : M VectorDocument :=
  let! embedding_ := generateEmbedding content_ in
  let vectorDoc := {| id := id_; content := content_;
                      embedding := embedding_; metadata := metadata_ |} in
  let! docs := getDocuments in
  let! _ := setDocuments (withoutId id_ docs) in
  let! docs' := getDocuments in
  let! _ := setDocuments (docs' ++ [vectorDoc]) in
  ret vectorDoc.

Definition removeDocument (id_ : string) : M bool :=
  let! docs := getDocuments in
  let initialLength := length docs in
  let! _ := setDocuments (withoutId id_ docs) in
  let! docs' := getDocuments in
  ret (length docs' <? initialLength)%nat.

(** [this.documents.map(doc => ({document: doc, similarity: ...}))]: the
    similarity of every document to the query vector, in store order; the
    first embedding that is not an array ends it with an exception. *)
Definition scoreAll (queryVector : Embedding) (docs : list VectorDocument)
  : Completion (list SearchResult) :=
  mapCompletion
    (fun doc =>
       match cosineSimilarity queryVector (embedding doc) with
       | Normal sim => Normal {| document := doc; similarity := sim |}
       | Throw e => Throw e
       end)
    docs.

(** The comparator of both sorts: [(a, b) => b.similarity - a.similarity]. *)
Definition bySimilarity (a b : SearchResult) : float :=
  (similarity b - similarity a)%float.

(** The literal [0.1]. *)
Definition lowSimilarity : float := 0x1.999999999999ap-4%float.

Definition search (query : string) (topK : Z) : M (list SearchResult) :=
  let! docs := getDocuments in
  if (length docs =? 0)%nat then ret []
  else
    let! queryVector := generateEmbedding query in
    let! results := liftCompletion (scoreAll queryVector docs) in
    ret (List.filter
           (fun result => PrimFloat.ltb lowSimilarity (similarity result))
           (JS.slice0 (JS.sort bySimilarity results) topK)).

Definition getAllDocuments : M (list VectorDocument) := getDocuments.

Definition getDocumentCount : M nat :=
  let! docs := getDocuments in ret (length docs).

Record Stats := {
  documentCount : Z;
  totalTokens : Z;
  averageTokensPerDoc : float;
  vectorDimensions : Z;
}.

(** [getStats].  Both quotients of the module that divide by a count of
    documents are guarded: with no document the average is 0.  Reading the
    [length] of an embedding that is [undefined] is a [TypeError]. *)
Definition getStats : M Stats :=
  let! docs := getDocuments in
  let total :=
    fold_left (fun sum doc =>
                 sum + Z.of_nat (length (JS.matchWords (content doc))))
              docs 0 in
  let count := Z.of_nat (length docs) in
  let average :=
    if 0 <? count then JS.Math_round (JS.ofZ total / JS.ofZ count)%float
    else PrimFloat.zero in
  match docs with
  | [] => ret {| documentCount := count; totalTokens := total;
                 averageTokensPerDoc := average; vectorDimensions := 1536 |}
  | first :: _ =>
      match embedding first with
      | EmbeddingArray v =>
          ret {| documentCount := count; totalTokens := total;
                 averageTokensPerDoc := average;
                 vectorDimensions := Z.of_nat (length v) |}
      | EmbeddingUndefined =>
          throw (TypeError "Cannot read properties of undefined")
      end
  end.

End WithNetwork.

End VectorStore.

(** ** [src/lib/rag-pipeline.ts] *)

Module RagPipeline.
Import Effects VectorStore.

Record RAGContext := {
  query : string;
  retrievedDocuments : list SearchResult;
  contextWindow : string;
  confidence : float;
}.

Record RAGResponse := {
  answer : string;
  context : RAGContext;
  sources : list SearchResult;
  processingTime : Z;
}.

Section WithRuntime.
Context (net : Network) (shortestDigits : float -> string).

(** [`${Math.round(similarity * 100)}`] *)
Definition percent (x : float) : string :=
  JS.toString shortestDigits (JS.Math_round (x * 100)%float).

(** The provenance line that precedes a document in the context. *)
Definition header (result : SearchResult) : string :=
  JS.lineFeed +:+ "--- From " +:+ JS.doubleQuote
  +:+ name (metadata (document result)) +:+ JS.doubleQuote
  +:+ " (" +:+ percent (similarity result) +:+ "% relevant) ---"
  +:+ JS.lineFeed.

(** [docContent.split(/\s+/).length] *)
Definition docTokens (docContent : string) : Z :=
  Z.of_nat (length (JS.splitWhiteSpace docContent)).

(** The [for] loop of [buildContext]: [context] and [tokenCount] are its two
    variables, and the recursion stops where the loop [break]s. *)
Fixpoint buildContextLoop (sortedResults : list SearchResult) (maxTokens : Z)
    (context : string) (tokenCount : Z) : string :=
  match sortedResults with
  | [] => context
  | result :: rest =>
      let docContent := content (document result) in
      if tokenCount + docTokens docContent <=? maxTokens then
        buildContextLoop rest maxTokens
          (context +:+ header result +:+ docContent +:+ JS.lineFeed)
          (tokenCount + docTokens docContent)
      else
        let remainingTokens := maxTokens - tokenCount in
        if 50 <? remainingTokens then
          let partialContent :=
            JS.join " " (JS.slice0 (JS.splitWhiteSpace docContent)
                                   remainingTokens) in
          context +:+ header result +:+ (partialContent +:+ "...")
          +:+ JS.lineFeed
        else context
  end.

(** [buildContext].  [searchResults.sort] sorts the caller's array in place,
    so the array as the call leaves it is returned next to the text. *)
Definition buildContext (searchResults : list SearchResult) (query_ : string)
    (maxTokens : Z) : string * list SearchResult :=
  if (length searchResults =? 0)%nat then ("", searchResults)
  else
    let sortedResults := JS.sort bySimilarity searchResults in
    (JS.trim (buildContextLoop sortedResults maxTokens "" 0), sortedResults).

(** [sources.reduce((sum, s) => sum + s.similarity, 0) / sources.length] *)
Definition averageSimilarity (results : list SearchResult) : float :=
  (fold_left (fun sum r => sum + similarity r) results PrimFloat.zero
   / JS.ofZ (Z.of_nat (length results)))%float.

Definition insufficientInformation (query_ : string) : string :=
  "I don't have enough information in the current document collection to answer "
  +:+ JS.doubleQuote +:+ query_ +:+ JS.doubleQuote
  +:+ ". Please add more relevant documents or try rephrasing your question.".

(** [sw.includes(word) || word.includes(sw)] for some word of the query and
    some word of the sentence. *)
Definition sharesWord (query_ sentence : string) : bool :=
  let queryWords := JS.splitWhiteSpace (JS.toLowerCase query_) in
  let sentenceWords := JS.splitWhiteSpace (JS.toLowerCase sentence) in
  existsb (fun word =>
             existsb (fun sw => JS.includes sw word || JS.includes word sw)
                     sentenceWords)
          queryWords.

(** The [catch] branch of [generateAnswer]: an answer put together from the
    sentences of the context. *)
Definition extractiveAnswer (query_ context_ : string)
    (sources_ : list SearchResult) : string :=
  let avgSimilarity := averageSimilarity sources_ in
  let confidence_ := JS.Math_round (avgSimilarity * 100)%float in
  let sourceNames :=
    JS.join ", " (map (fun s => name (metadata (document s))) sources_) in
  let count := JS.decimal (Z.of_nat (length sources_)) in
  let answer0 :=
    "Based on the information from " +:+ count +:+ " document(s) ("
    +:+ sourceNames +:+ "), here's what I found regarding "
    +:+ JS.doubleQuote +:+ query_ +:+ JS.doubleQuote +:+ ":"
    +:+ JS.lineFeed +:+ JS.lineFeed in
  let sentences :=
    List.filter (fun s => (20 <? String.length (JS.trim s))%nat)
                (JS.splitRuns JS.isSentenceEnd context_) in
  let relevantSentences :=
    JS.slice0 (List.filter (sharesWord query_) sentences) 5 in
  let answer1 :=
    if (0 <? length relevantSentences)%nat
    then answer0 +:+ (JS.join ". " relevantSentences +:+ ".")
    else answer0 +:+ (JS.join ". " (JS.slice0 sentences 3) +:+ ".") in
  answer1 +:+ JS.lineFeed +:+ JS.lineFeed
  +:+ "This response is based on " +:+ count
  +:+ " source document(s) with an average relevance score of "
  +:+ JS.toString shortestDigits confidence_ +:+ "%.".

Definition generateAnswer (query_ context_ : string)
    (sources_ : list SearchResult) : M string :=
  if String.eqb context_ "" || (length sources_ =? 0)%nat
  then ret (insufficientInformation query_)
  else
    let! reply := postChat net query_ context_ in
    match reply with
    | ChatData (Some text) =>
        if String.eqb text ""
        then ret "I was unable to generate a response. Please try again."
        else ret text
    | ChatData None =>
        ret "I was unable to generate a response. Please try again."
    | ChatFailed =>
        let! _ := consoleLog "[RAG] OpenAI chat failed:" in
        ret (extractiveAnswer query_ context_ sources_)
    end.

(** Step 3 of [processRAGQuery]. *)
Definition confidenceOf (searchResults : list SearchResult) : float :=
  if (0 <? length searchResults)%nat
  then JS.Math_round (averageSimilarity searchResults * 100)%float
  else PrimFloat.zero.

Definition errorAnswer : string :=
  "I encountered an error while processing your query. Please try again or rephrase your question.".

(** What the [catch] block of [processRAGQuery] returns. *)
Definition errorResponse (query_ : string) (elapsed : Z) : RAGResponse :=
  {| answer := errorAnswer;
     context := {| query := query_; retrievedDocuments := [];
                   contextWindow := ""; confidence := PrimFloat.zero |};
     sources := [];
     processingTime := elapsed |}.

End WithRuntime.

(** The orchestrator, with its four stages as parameters: the control flow
    of [processRAGQuery] ([Date.now()], the [try] block in its order, the
    [catch] block) around whatever the stages do. *)
Section Orchestrator.
Context (searchStage : string -> Z -> M (list SearchResult))
        (buildContextStage :
           list SearchResult -> string -> M (string * list SearchResult))
        (confidenceStage : list SearchResult -> M float)
        (generateAnswerStage :
           string -> string -> list SearchResult -> M string).

(** The [try] block. *)
Definition pipelineBody (query_ : string) (topK startTime : Z)
  : M RAGResponse :=
  let! searchResults := searchStage query_ topK in
  let! built := buildContextStage searchResults query_ in
  let contextWindow_ := fst built in
  let searchResults' := snd built in
  let! confidence_ := confidenceStage searchResults' in
  let! answer_ := generateAnswerStage query_ contextWindow_ searchResults' in
  let context_ := {| query := query_; retrievedDocuments := searchResults';
                     contextWindow := contextWindow_;
                     confidence := confidence_ |} in
  let! endTime := Date_now in
  ret {| answer := answer_; context := context_;
         sources := searchResults';
         processingTime := endTime - startTime |}.

(** The [catch] block. *)
Definition pipelineHandler (query_ : string) (startTime : Z) (error : JSError)
  : M RAGResponse :=
  let! _ := consoleLog "RAG Pipeline Error:" in
  let! endTime := Date_now in
  ret (errorResponse query_ (endTime - startTime)).

Definition processRAGQueryWith (query_ : string) (topK : Z) : M RAGResponse :=
  let! startTime := Date_now in
  tryCatch (pipelineBody query_ topK startTime)
           (pipelineHandler query_ startTime).

End Orchestrator.

(** [processRAGQuery]: the orchestrator around the stages of the two
    modules.  [buildContext] is called with its default budget of 2000. *)
Definition processRAGQuery (net : Network) (shortestDigits : float -> string)
    (query_ : string) (topK : Z) : M RAGResponse :=
  processRAGQueryWith
    (search net)
    (fun searchResults q =>
       ret (buildContext shortestDigits searchResults q 2000))
    (fun searchResults => ret (confidenceOf searchResults))
    (generateAnswer net shortestDigits)
    query_ topK.

Definition stopWords : gset string :=
  list_to_set
    ["the"; "a"; "an"; "and"; "or"; "but"; "in"; "on"; "at"; "to"; "for";
     "of"; "with"; "by"; "from"; "up"; "about"; "into"; "through"; "during";
     "before"; "after"; "above"; "below"; "between"; "among"; "within";
     "without"; "under"; "over"; "across"; "behind"; "beyond"; "beside"].

(** [.replace(/[^\w\s]/g, ' ')] *)
Definition stripPunctuation (s : string) : string :=
  JS.mapChars
    (fun c => if JS.isWordChar c || JS.isWhiteSpace c then c else " "%char) s.

Definition preprocessQuery (query_ : string) : string :=
  JS.trim
    (JS.join " "
       (List.filter
          (fun word => (2 <? String.length word)%nat
                       && negb (bool_decide (word ∈ stopWords)))
          (JS.splitWhiteSpace (stripPunctuation (JS.toLowerCase query_))))).

(** The own properties of the object literal [synonymMap]. *)
Definition synonymMap : gmap string (list string) :=
  list_to_map
    [("data", ["information"; "content"; "facts"]);
     ("analysis", ["examination"; "study"; "research"]);
     ("system", ["platform"; "application"; "software"]);
     ("process", ["method"; "procedure"; "workflow"]);
     ("result", ["outcome"; "finding"; "conclusion"]);
     ("document", ["file"; "text"; "content"]);
     ("search", ["find"; "locate"; "retrieve"]);
     ("information", ["data"; "content"; "details"])].

(** What an object literal inherits from [Object.prototype]. *)
Definition objectPrototypeKeys : list string :=
  ["constructor"; "__proto__"; "hasOwnProperty"; "isPrototypeOf";
   "propertyIsEnumerable"; "toLocaleString"; "toString"; "valueOf";
   "__defineGetter__"; "__defineSetter__"; "__lookupGetter__";
   "__lookupSetter__"].

(** What [synonymMap[word]] evaluates to: an own array of synonyms, a member
    of [Object.prototype] (a function or an object: truthy, and without a
    [forEach]), or [undefined]. *)
Inductive Property :=
  | Own (synonyms : list string)
  | Inherited
  | Undefined.

Definition getSynonyms (word : string) : Property :=
  match synonymMap !! word with
  | Some synonyms => Own synonyms
  | None => if JS.arrayIncludes objectPrototypeKeys word
            then Inherited else Undefined
  end.

(** The inner [forEach]: one variant per synonym, pushed unless present. *)
Definition pushVariant (baseQuery word : string) (expansions : list string)
    (synonym : string) : list string :=
  let expandedQuery := JS.replaceFirst baseQuery word synonym in
  if JS.arrayIncludes expansions expandedQuery then expansions
  else expansions ++ [expandedQuery].

(** The outer [forEach], over the words of the base query. *)
Fixpoint expandWords (baseQuery : string) (words : list string)
    (expansions : list string) : Completion (list string) :=
  match words with
  | [] => Normal expansions
  | word :: rest =>
      match getSynonyms word with
      | Undefined => expandWords baseQuery rest expansions
      | Inherited => Throw (TypeError "synonymMap[word].forEach is not a function")
      | Own synonyms =>
          expandWords baseQuery rest
            (fold_left (pushVariant baseQuery word) synonyms expansions)
      end
  end.

Definition expandQuery (query_ : string) : Completion (list string) :=
  let baseQuery := preprocessQuery query_ in
  expandWords baseQuery (JS.splitWhiteSpace baseQuery) [baseQuery].

(** [getRAGStats]: the statistics of the store (the spread of [vectorStats]),
    with the version and the features of the pipeline. *)
Record RAGStats := {
  vectorStats : Stats;
  pipelineVersion : string;
  features : list string;
}.

Definition getRAGStats : M RAGStats :=
  let! stats := getStats in
  ret {| vectorStats := stats;
         pipelineVersion := "1.0.0";
         features :=
           ["TF-IDF Vectorization"; "Cosine Similarity Search";
            "Context Window Building"; "Confidence Scoring";
            "Query Preprocessing"; "Source Attribution"] |}.

End RagPipeline.

(** ** Vocabulary of the properties *)

Module Props.
Import Effects VectorStore RagPipeline.

(** A call on the store, as the page issues them. *)
Inductive StoreOp :=
  | OpAdd (id_ content_ : string) (metadata_ : Metadata)
  | OpRemove (id_ : string).

Definition runOp (net : Network) (op : StoreOp) : M unit :=
  match op with
  | OpAdd i c m => let! _ := addDocument net i c m in ret tt
  | OpRemove i => let! _ := removeDocument i in ret tt
  end.

Fixpoint runOps (net : Network) (ops : list StoreOp) : M unit :=
  match ops with
  | [] => ret tt
  | op :: rest => let! _ := runOp net op in runOps net rest
  end.

(** The documents of a store that carry a given id. *)
Definition withId (id_ : string) (docs : list VectorDocument)
  : list VectorDocument :=
  List.filter (fun doc => String.eqb (id doc) id_) docs.

(** A vector all of whose entries are zeros (of either sign). *)
Definition allZero (v : list float) : Prop :=
  Forall (fun x => PrimFloat.eqb x PrimFloat.zero = true) v.

(** A network on which every request fails, so that every embedding is the
    lexical fallback; a round trip takes 7 ms. *)
Definition offline : Network :=
  {| embeddingsApi := fun _ _ => EmbeddingsFailed;
     chatApi := fun _ _ _ => ChatFailed;
     roundTrip := fun _ _ => 7 |}.

(** A network whose embeddings endpoint answers with a body that has no
    [embedding] field. *)
Definition fieldless : Network :=
  {| embeddingsApi := fun _ _ => EmbeddingsData EmbeddingUndefined;
     chatApi := fun _ _ _ => ChatFailed;
     roundTrip := fun _ _ => 7 |}.

(** The world of a page that was just loaded, at time 1000. *)
Definition freshWorld : World :=
  {| documents := []; clock := 1000; sent := []; console := [] |}.

Definition textNamed (name_ : string) : Metadata :=
  {| name := name_; type := "text"; size := None; timestamp := 0 |}.

(** No engine digits are needed where the numbers printed are small
    integers. *)
Definition noDigits (x : float) : string := "".

(** Three notes are added while the provider is down, then the store is
    searched for "data". *)
Definition threeNotes : list StoreOp :=
  [OpAdd "1" "the data" (textNamed "first");
   OpAdd "2" "cats" (textNamed "second");
   OpAdd "3" "data" (textNamed "third")].

Definition searchThreeNotes : M (list SearchResult) :=
  let! _ := runOps offline threeNotes in
  search offline "data" 5.

(** The world once the three notes are in the store. *)
Definition threeNotesWorld : World :=
  snd (runOps offline threeNotes freshWorld).

(** The whitespace-delimited tokens of a text: what is left between its runs
    of white space. *)
Definition whitespaceTokens (s : string) : list string :=
  List.filter (fun t => negb (String.eqb t "")) (JS.splitWhiteSpace s).

Definition whitespaceTokenCount (s : string) : Z :=
  Z.of_nat (length (whitespaceTokens s)).

(** What [buildContext] appends for one result: the whole document, or the
    first [n] pieces of its content. *)
Inductive Block :=
  | Whole (result : SearchResult)
  | Partial (result : SearchResult) (n : Z).

(** The pieces of content a block takes from its document. *)
Definition placedPieces (b : Block) : list string :=
  match b with
  | Whole r => JS.splitWhiteSpace (content (document r))
  | Partial r n => JS.slice0 (JS.splitWhiteSpace (content (document r))) n
  end.

Definition placedTokens (blocks : list Block) : Z :=
  fold_right (fun b total => Z.of_nat (length (placedPieces b)) + total)
             0 blocks.

Definition renderBlock (digits : float -> string) (b : Block) : string :=
  match b with
  | Whole r => header digits r +:+ content (document r) +:+ JS.lineFeed
  | Partial r n =>
      header digits r +:+ (JS.join " " (placedPieces b) +:+ "...")
      +:+ JS.lineFeed
  end.

Definition renderBlocks (digits : float -> string) (blocks : list Block)
  : string :=
  fold_right (fun b rest => renderBlock digits b +:+ rest) "" blocks.

(** The blocks the loop of [buildContext] appends, from a counter value on. *)
Fixpoint planContext (sortedResults : list SearchResult)
    (maxTokens tokenCount : Z) : list Block :=
  match sortedResults with
  | [] => []
  | result :: rest =>
      let tokens := docTokens (content (document result)) in
      if tokenCount + tokens <=? maxTokens
      then Whole result :: planContext rest maxTokens (tokenCount + tokens)
      else if 50 <? maxTokens - tokenCount
           then [Partial result (maxTokens - tokenCount)]
           else []
  end.

(** The budget a list of documents uses up when each is taken whole. *)
Definition tokensOf (results : list SearchResult) : Z :=
  fold_right (fun r total => docTokens (content (document r)) + total)
             0 results.

Definition resultOf (name_ content_ : string) (similarity_ : float)
  : SearchResult :=
  {| document := {| id := name_; content := content_;
                    embedding := EmbeddingUndefined;
                    metadata := textNamed name_ |};
     similarity := similarity_ |}.

(** A document of 51 one-letter words. *)
Definition fiftyOneWords : SearchResult :=
  resultOf "long" (JS.join " " (repeat "w" 51)) 0.5.

(** A note of three words that matches well, and a document of 60 words
    that matches less. *)
Definition shortNote : SearchResult := resultOf "note" "a b c" 0.75.
Definition sixtyWords : SearchResult :=
  resultOf "essay" (JS.join " " (repeat "w" 60)) 0.5.

(** One document of one word. *)
Definition oneWord : SearchResult := resultOf "doc" "hello" 0.5.

(** The variant of a query for one of its tokens, as the specification words
    it: the token at position [i], and only that one, gives way to the
    synonym. *)
Definition substituteToken (tokens : list string) (i : nat)
    (synonym : string) : string :=
  JS.join " " (<[i := synonym]> tokens).

(** No word of the preprocessed query names a member of [Object.prototype]. *)
Definition plainWords (query_ : string) : Prop :=
  Forall (fun word => getSynonyms word <> Inherited)
         (JS.splitWhiteSpace (preprocessQuery query_)).

(** The words of a text, as [textToVector] reads them. *)
Definition wordsOf (text : string) : list string :=
  JS.matchWords (JS.toLowerCase text).

(** How often a word occurs in a list of words. *)
Definition occurrences (word : string) (words : list string) : Z :=
  Z.of_nat (length (List.filter (String.eqb word) words)).


(** A number is a zero, or [NaN], when its specification says so. *)
Definition isZeroSF (x : float) : Prop := exists s, Prim2SF x = S754_zero s.
Definition isPlusZeroOrNaN (x : float) : Prop :=
  Prim2SF x = S754_zero false \/ Prim2SF x = S754_nan.
Definition isZeroOrNaN (x : float) : Prop :=
  isZeroSF x \/ Prim2SF x = S754_nan.

(** Rounding, as [SpecFloat] specifies it, works on a mantissa and two bits
    that remember what was shifted out.  [sticky] is 1 when something was;
    [under bound] says that the mantissa, rounded up in that case, does not
    exceed [bound]; [inexact] is the same reading of a location. *)
Definition sticky (mrs : shr_record) : Z :=
  if shr_r mrs || shr_s mrs then 1 else 0.


Definition inexact (l : location) : Z :=
  match l with
  | loc_Exact => 0
  | loc_Inexact _ => 1
  end.

(** The value of a number on an integer scale: 2^1074 times the value for a
    finite number (no finite number has a bit below 2^-1074), and for the
    infinities an integer beyond every finite one.  [NaN] has no value; it is
    given 0 here and kept out of what is compared. *)
Definition scaled (x : spec_float) : Z :=
  match x with
  | S754_zero _ => 0
  | S754_nan => 0
  | S754_infinity s => if s then - 2 ^ 2100 else 2 ^ 2100
  | S754_finite s m e => (if s then Z.neg m else Z.pos m) * 2 ^ (e + 1074)
  end.

Definition signOf (x : spec_float) : comparison :=
  match x with
  | S754_zero _ => Eq
  | S754_nan => Eq
  | S754_infinity s => if s then Lt else Gt
  | S754_finite s _ _ => if s then Lt else Gt
  end.

(** The rank of a result: its similarity on the integer scale. *)
Definition rankOf (r : SearchResult) : Z := scaled (Prim2SF (similarity r)).

Definition isNumber (r : SearchResult) : Prop :=
  PrimFloat.is_nan (similarity r) = false.

(** Highest first: no result is followed by one of higher similarity. *)
Definition highestFirst (results : list SearchResult) : Prop :=
  StronglySorted
    (fun a b => PrimFloat.leb (similarity b) (similarity a) = true) results.

(** The results whose similarity equals [v]. *)
Definition tiedAt (v : float) (results : list SearchResult)
  : list SearchResult :=
  List.filter (fun r => PrimFloat.eqb (similarity r) v) results.

(** Descending by an integer key. *)
Definition byKey {A} (key : A -> Z) (a b : A) : Prop := key b <= key a.



(** [needle] occurs in [haystack]. *)
Definition occursIn (needle haystack : string) : Prop :=
  exists before after, haystack = before +:+ needle +:+ after.

End Props.

(** ** [src/app/api/scrape/route.ts]: the text and the title of a page *)

Module ScrapeRoute.

(** A capital of the ASCII alphabet as its small letter.  Under the [i]
    flag (without [u]) a letter of a pattern matches its two ASCII cases
    and nothing else. *)
Definition foldCase (c : ascii) : ascii :=
  let n := JS.charCode c in
  if (65 <=? n) && (n <=? 90) then JS.fromCharCode (n + 32) else c.

(** [pattern], written in small letters, matches at the start of [s]. *)
Fixpoint prefixNoCase (pattern s : string) : bool :=
  match pattern, s with
  | EmptyString, _ => true
  | String p pattern', String c s' =>
      Ascii.eqb p (foldCase c) && prefixNoCase pattern' s'
  | String _ _, EmptyString => false
  end.

(** Where [c] comes first in [s]. *)
Fixpoint indexOfChar (c : ascii) (s : string) : option nat :=
  match s with
  | EmptyString => None
  | String d s' =>
      if Ascii.eqb d c then Some O
      else match indexOfChar c s' with
           | Some i => Some (S i)
           | None => None
           end
  end.

(** Where [pattern] first matches in [s], whatever the case. *)
Fixpoint indexOfNoCase (pattern s : string) : option nat :=
  if prefixNoCase pattern s then Some O
  else match s with
       | EmptyString => None
       | String _ s' =>
           match indexOfNoCase pattern s' with
           | Some i => Some (S i)
           | None => None
           end
       end.

(** [/<name[^>]*>[\s\S]*?<\/name>/i] at the start of [s]: the length of
    the match.  After [<name], the class [[^>]*] runs up to the first [>];
    the lazy [[\s\S]*?] then stops at the first closing tag. *)
Definition elementAt (name s : string) : option nat :=
  let opening := "<" +:+ name in
  let closing := "</" +:+ name +:+ ">" in
  if prefixNoCase opening s then
    let afterName := JS.dropChars (String.length opening) s in
    match indexOfChar ">" afterName with
    | Some j =>
        match indexOfNoCase closing (JS.dropChars (S j) afterName) with
        | Some k =>
            Some (String.length opening + S j + k + String.length closing)%nat
        | None => None
        end
    | None => None
    end
  else None.

(** [/<[^>]*>/] at the start of [s]. *)
Definition tagAt (s : string) : option nat :=
  match s with
  | String c s' =>
      if Ascii.eqb c "<" then
        match indexOfChar ">" s' with
        | Some j => Some (S (S j))
        | None => None
        end
      else None
  | EmptyString => None
  end.

(** [/\s+/] at the start of [s]: the length of the run of white space. *)
Fixpoint whiteSpaceRun (s : string) : nat :=
  match s with
  | String c s' => if JS.isWhiteSpace c then S (whiteSpaceRun s') else O
  | EmptyString => O
  end.

Definition whiteSpaceAt (s : string) : option nat :=
  match whiteSpaceRun s with
  | O => None
  | n => Some n
  end.

(** [s.replace(/pattern/g, replacement)] for a pattern that never matches
    the empty string: [matchAt] gives the length of the match at the start
    of a text, if the pattern matches there.  The text is read from left to
    right; a match gives way to the replacement and reading goes on behind
    it, any other character is kept.  [fuel] bounds the characters read. *)
Fixpoint replaceFrom (fuel : nat) (matchAt : string -> option nat)
    (replacement s : string) : string :=
  match fuel, s with
  | S fuel', String c s' =>
      match matchAt s with
      | Some (S n) =>
          replacement +:+ replaceFrom fuel' matchAt replacement
                                      (JS.dropChars n s')
      | _ => String c (replaceFrom fuel' matchAt replacement s')
      end
  | _, _ => EmptyString
  end.

Definition replaceAll (matchAt : string -> option nat)
    (replacement s : string) : string :=
  replaceFrom (String.length s) matchAt replacement s.

(** The page without its scripts, its style sheets and its tags. *)
Definition withoutMarkup (html : string) : string :=
  replaceAll tagAt " "
    (replaceAll (elementAt "style") ""
       (replaceAll (elementAt "script") "" html)).

(** [textContent] *)
Definition textContent (html : string) : string :=
  JS.trim (replaceAll whiteSpaceAt " " (withoutMarkup html)).

(** The characters of [s] before the first [c]. *)
Fixpoint upTo (c : ascii) (s : string) : string :=
  match s with
  | EmptyString => EmptyString
  | String d s' => if Ascii.eqb d c then EmptyString else String d (upTo c s')
  end.

(** [/<title[^>]*>([^<]+)<\/title>/i] at the start of [s]: the group. *)
Definition titleAt (s : string) : option string :=
  if prefixNoCase "<title" s then
    let afterName := JS.dropChars 6 s in
    match indexOfChar ">" afterName with
    | Some j =>
        let body := JS.dropChars (S j) afterName in
        let group := upTo "<" body in
        if negb (String.eqb group "")
           && prefixNoCase "</title>"
                (JS.dropChars (String.length group) body)
        then Some group else None
    | None => None
    end
  else None.

(** [html.match(/<title[^>]*>([^<]+)<\/title>/i)?.[1]]: the group of the
    first match. *)
Fixpoint matchTitle (html : string) : option string :=
  match titleAt html with
  | Some group => Some group
  | None =>
      match html with
      | EmptyString => None
      | String _ html' => matchTitle html'
      end
  end.

(** [title]: the group is never empty, so [||] takes the [url] exactly when
    nothing matched. *)
Definition title (html url : string) : string :=
  match matchTitle html with
  | Some group => group
  | None => url
  end.

End ScrapeRoute.

(** ** [src/unnamed/part_001]: the helpers of the [DocumentManager] *)

Module Components.

Record Document := {
  id : string;
  name : string;
  type : string;            (* "text" | "file" | "website" *)
  content : string;
  size : option Z;
  indexed : bool;
}.

(** [filteredDocuments]: the documents whose name or content contains the
    text of the search box, whatever the case. *)
Definition filteredDocuments (documents : list Document)
    (searchQuery : string) : list Document :=
  List.filter
    (fun doc =>
       JS.includes (JS.toLowerCase (name doc)) (JS.toLowerCase searchQuery)
       || JS.includes (JS.toLowerCase (content doc))
                      (JS.toLowerCase searchQuery))
    documents.

(** [content.trim().split(/\s+/).length] *)
Definition getWordCount (content_ : string) : Z :=
  Z.of_nat (length (JS.splitWhiteSpace (JS.trim content_))).

End Components.

(** ** Vocabulary of the further properties *)

Module Vocabulary.
Import Effects VectorStore RagPipeline ScrapeRoute Props.

(** The words [textToVector] has a dimension for: what [slice(0, 100)]
    leaves of [commonWords]. *)
Definition vocabulary : list string := JS.slice0 commonWords 100.

(** No word of the text is in the vocabulary. *)
Definition outsideVocabulary (text : string) : Prop :=
  forallb (fun word => negb (JS.arrayIncludes vocabulary word))
          (wordsOf text) = true.

(** Every character of [s] is in the class. *)
Fixpoint allChars (cls : ascii -> bool) (s : string) : bool :=
  match s with
  | EmptyString => true
  | String c s' => cls c && allChars cls s'
  end.

(** [[a-z0-9_]]: the word characters that are not capitals. *)
Definition isLowerWordChar (c : ascii) : bool :=
  let n := JS.charCode c in
  ((48 <=? n) && (n <=? 57)) || ((97 <=? n) && (n <=? 122)) || (n =? 95).

(** The test of the [filter] in [preprocessQuery]. *)
Definition isKept (word : string) : bool :=
  (2 <? String.length word)%nat && negb (bool_decide (word ∈ stopWords)).

(** The words [preprocessQuery] joins: the pieces of the query, in lower case
    and without punctuation, that pass the filter. *)
Definition keptWords (q : string) : list string :=
  List.filter isKept
    (JS.splitWhiteSpace (stripPunctuation (JS.toLowerCase q))).

(** Every run of white space as one space. *)
Fixpoint collapse (s : string) : string :=
  match s with
  | EmptyString => EmptyString
  | String c s' =>
      if JS.isWhiteSpace c then
        if JS.startsWithClass JS.isWhiteSpace s' then collapse s'
        else String " " (collapse s')
      else String c (collapse s')
  end.

Definition containsChar (c : ascii) (s : string) : bool :=
  match indexOfChar c s with
  | Some _ => true
  | None => false
  end.

(** Some [<] of the text has a [>] somewhere behind it: what
    [/<[^>]*>/] matches. *)
Fixpoint hasTag (s : string) : bool :=
  match s with
  | EmptyString => false
  | String c s' => (Ascii.eqb c "<" && containsChar ">" s') || hasTag s'
  end.

(** The space that is left in front of the words once the runs of white
    space are collapsed: one, when the text starts with white space and has
    a word. *)
Definition leadingSpace (s : string) : string :=
  if JS.startsWithClass JS.isWhiteSpace s
     && negb (length (whitespaceTokens s) =? 0)%nat
  then " " else "".

(** The text ends with white space. *)
Definition endsWithWhiteSpace (s : string) : bool :=
  negb (String.eqb (JS.trimEnd s) s).

(** A number that is not negative, as its specification says so: a zero, a
    positive number or plus infinity. *)
Definition nonNegSF (x : spec_float) : Prop :=
  match x with
  | S754_zero _ => True
  | S754_finite s _ _ => s = false
  | S754_infinity s => s = false
  | S754_nan => False
  end.

(** A store whose only document was added while the embeddings endpoint
    answered with a body that has no [embedding] field. *)
Definition fieldlessWorld : World :=
  snd (runOps fieldless [OpAdd "1" "the data" (textNamed "first")]
              freshWorld).

(** What [getStats] reports once the three notes are in the store. *)
Definition threeNotesStats : Stats :=
  {| documentCount := 3; totalTokens := 4; averageTokensPerDoc := 1;
     vectorDimensions := 100 |}.

(** A small page. *)
Definition page : string :=
  "<html><head><TITLE>Notes</TITLE><script>var a = '<b>';</script>"
  +:+ "<style>p { color: red }</style></head><body><p>Hello,"
  +:+ JS.lineFeed +:+ "   <b>world</b> &amp; all </p></body></html>".

(** Two entries of the document list. *)
Definition twoEntries : list Components.Document :=
  [{| Components.id := "1"; Components.name := "Notes";
      Components.type := "text"; Components.content := "the DATA";
      Components.size := None; Components.indexed := true |};
   {| Components.id := "2"; Components.name := "Cats";
      Components.type := "text"; Components.content := "purring";
      Components.size := None; Components.indexed := true |}].

End Vocabulary.

(** ** Strings *)

Module StringFacts.

Lemma append_nil (t : string) : "" +:+ t = t.
Proof. reflexivity. Qed.

Lemma append_cons (c : ascii) (s t : string) :
  String c s +:+ t = String c (s +:+ t).
Proof. reflexivity. Qed.

Lemma append_assoc (s t u : string) : (s +:+ t) +:+ u = s +:+ (t +:+ u).
Proof.
  induction s as [|c s IH]; [reflexivity|].
  rewrite !append_cons. now rewrite IH.
Qed.

Lemma append_empty_r (s : string) : s +:+ "" = s.
Proof.
  induction s as [|c s IH]; [reflexivity|].
  rewrite append_cons. now rewrite IH.
Qed.

End StringFacts.

(** ** Numbers: what the IEEE operations do with zeros and [NaN] *)

Module NumberFacts.
Import Props.

Lemma eqb_zero_isZero (x : float) :
  PrimFloat.eqb x PrimFloat.zero = true -> isZeroSF x.
Proof.
  rewrite FloatAxioms.eqb_spec.
  change (Prim2SF PrimFloat.zero) with (S754_zero false).
  unfold isZeroSF, SFeqb. destruct (Prim2SF x) as [s|s| |s m e]; simpl.
  - eauto.
  - destruct s; discriminate.
  - discriminate.
  - destruct s; discriminate.
Qed.

Lemma SF_nan_is_nan (x : float) : Prim2SF x = S754_nan -> x = PrimFloat.nan.
Proof.
  intros H. apply Prim2SF_inj. rewrite H. reflexivity.
Qed.

Lemma mul_zero_l (x y : float) : isZeroSF x -> isZeroOrNaN (x * y)%float.
Proof.
  intros [s Hx]. unfold isZeroOrNaN, isZeroSF. rewrite FloatAxioms.mul_spec, Hx.
  unfold SF64mul, SFmul. destruct (Prim2SF y); eauto.
Qed.

Lemma mul_zero_r (x y : float) : isZeroSF y -> isZeroOrNaN (x * y)%float.
Proof.
  intros [s Hy]. unfold isZeroOrNaN, isZeroSF. rewrite FloatAxioms.mul_spec, Hy.
  unfold SF64mul, SFmul. destruct (Prim2SF x); eauto.
Qed.

Lemma mul_nan_r (x : float) : isZeroOrNaN (x * PrimFloat.nan)%float.
Proof.
  right. rewrite FloatAxioms.mul_spec.
  change (Prim2SF PrimFloat.nan) with S754_nan.
  unfold SF64mul, SFmul. destruct (Prim2SF x); reflexivity.
Qed.

Lemma mul_zeroOrNaN_l (x y : float) :
  isZeroOrNaN x -> isZeroOrNaN (x * y)%float.
Proof.
  intros [Hx|Hx]; [now apply mul_zero_l|].
  right. rewrite FloatAxioms.mul_spec, Hx. reflexivity.
Qed.

Lemma mul_zeroOrNaN_r (x y : float) :
  isZeroOrNaN y -> isZeroOrNaN (x * y)%float.
Proof.
  intros [Hy|Hy]; [now apply mul_zero_r|].
  right. rewrite FloatAxioms.mul_spec, Hy. unfold SF64mul, SFmul.
  destruct (Prim2SF x); reflexivity.
Qed.

Lemma add_plusZeroOrNaN (x y : float) :
  isPlusZeroOrNaN x -> isZeroOrNaN y -> isPlusZeroOrNaN (x + y)%float.
Proof.
  unfold isPlusZeroOrNaN, isZeroOrNaN, isZeroSF.
  intros [Hx|Hx] [[s Hy]|Hy]; rewrite FloatAxioms.add_spec, Hx, Hy;
    unfold SF64add, SFadd; try destruct s; auto.
Qed.

Lemma add_plusZero (x y : float) :
  Prim2SF x = S754_zero false -> isZeroSF y ->
  Prim2SF (x + y)%float = S754_zero false.
Proof.
  intros Hx [s Hy]. rewrite FloatAxioms.add_spec, Hx, Hy.
  destruct s; reflexivity.
Qed.

Lemma mul_zero_zero (x y : float) :
  isZeroSF x -> isZeroSF y -> isZeroSF (x * y)%float.
Proof.
  intros [s Hx] [t Hy]. unfold isZeroSF. rewrite FloatAxioms.mul_spec, Hx, Hy.
  simpl. eauto.
Qed.

Lemma sqrt_plusZero (x : float) :
  Prim2SF x = S754_zero false -> Prim2SF (PrimFloat.sqrt x) = S754_zero false.
Proof.
  intros Hx. rewrite FloatAxioms.sqrt_spec, Hx. reflexivity.
Qed.

Lemma div_by_zeroOrNaN (x y : float) :
  isPlusZeroOrNaN x -> isZeroOrNaN y -> (x / y)%float = PrimFloat.nan.
Proof.
  unfold isPlusZeroOrNaN, isZeroOrNaN, isZeroSF.
  intros Hx Hy. apply SF_nan_is_nan. rewrite FloatAxioms.div_spec.
  destruct Hx as [Hx|Hx], Hy as [[s Hy]|Hy]; rewrite Hx, Hy; reflexivity.
Qed.

End NumberFacts.

(** ** Numbers: rounding, and the quotient of two counts

    The primitive operations are specified by the functions of [SpecFloat];
    what follows reads the bound [0 <= f / n <= 1] off the specification of
    the division, for integers [0 <= f <= n < 2^53]. *)

Module RoundingFacts.
Import Props.

Lemma digits2_pos_bounds (p : positive) :
  2 ^ (Z.pos (digits2_pos p) - 1) <= Z.pos p < 2 ^ Z.pos (digits2_pos p).
Proof.
  induction p as [p IH|p IH|]; cbn [digits2_pos].
  - rewrite Pos2Z.inj_succ.
    replace (Z.succ (Z.pos (digits2_pos p)) - 1)
      with (Z.succ (Z.pos (digits2_pos p) - 1)) by lia.
    rewrite !Z.pow_succ_r by lia. lia.
  - rewrite Pos2Z.inj_succ.
    replace (Z.succ (Z.pos (digits2_pos p)) - 1)
      with (Z.succ (Z.pos (digits2_pos p) - 1)) by lia.
    rewrite !Z.pow_succ_r by lia. lia.
  - simpl. lia.
Qed.

(** The number of binary digits is determined by the power of two below and
    the one above. *)
Lemma digits2_pos_unique (p : positive) (k : Z) :
  2 ^ (k - 1) <= Z.pos p < 2 ^ k -> Z.pos (digits2_pos p) = k.
Proof.
  intros [Hlo Hhi]. pose proof (digits2_pos_bounds p) as [Dlo Dhi].
  set (d := Z.pos (digits2_pos p)) in *.
  assert (0 < d) by (subst d; lia).
  destruct (Z.lt_trichotomy d k) as [Hlt|[Heq|Hgt]]; [|exact Heq|].
  - assert (2 ^ d <= 2 ^ (k - 1)) by (apply Z.pow_le_mono_r; lia). lia.
  - assert (k < 0 \/ 0 <= k) as [Hk|Hk] by lia.
    + rewrite (Z.pow_neg_r 2 k) in Hhi by lia. lia.
    + assert (2 ^ k <= 2 ^ (d - 1)) by (apply Z.pow_le_mono_r; lia). lia.
Qed.


(** *** Shifting a mantissa to the right keeps it under a power of two *)


Lemma pow2_xO (p : positive) : 2 ^ Z.pos p~0 = 2 ^ Z.pos p * 2 ^ Z.pos p.
Proof.
  replace (Z.pos p~0) with (Z.pos p + Z.pos p) by lia.
  now rewrite Z.pow_add_r by lia.
Qed.

Lemma pow2_xI (p : positive) :
  2 ^ Z.pos p~1 = 2 * (2 ^ Z.pos p * 2 ^ Z.pos p).
Proof.
  replace (Z.pos p~1) with (1 + (Z.pos p + Z.pos p)) by lia.
  now rewrite !Z.pow_add_r by lia.
Qed.

Lemma pow2_ge_1 (k : Z) : 0 <= k -> 1 <= 2 ^ k.
Proof. intros Hk. apply (Z.pow_le_mono_r 2 0 k); lia. Qed.


Lemma sticky_of_loc (m : Z) (l : location) :
  sticky (shr_record_of_loc m l) = inexact l
  /\ shr_m (shr_record_of_loc m l) = m.
Proof. destruct l as [|[]]; split; reflexivity. Qed.





(** *** The number an integer below 2^53 denotes *)

Lemma iter_xO (p k : positive) :
  Z.pos (Pos.iter xO p k) = Z.pos p * 2 ^ Z.pos k.
Proof.
  induction k as [|k IH] using Pos.peano_ind.
  - simpl. lia.
  - rewrite Pos.iter_succ, Pos2Z.inj_succ, Z.pow_succ_r by lia.
    rewrite Pos2Z.inj_xO, IH. ring.
Qed.

(** A mantissa of 53 bits with an exponent in range is kept as it is. *)
Lemma binary_round_aux_exact (m : positive) (e : Z) :
  2 ^ 52 <= Z.pos m < 2 ^ 53 -> -52 <= e <= 0 ->
  binary_round_aux prec emax false (Z.pos m) e loc_Exact
  = S754_finite false m e.
Proof.
  intros Hm He.
  assert (Hd : Z.pos (digits2_pos m) = 53) by now apply digits2_pos_unique.
  assert (Hshift : fexp prec emax (Zdigits2 (Z.pos m) + e) - e = 0).
  { simpl Zdigits2. rewrite Hd. unfold fexp, SpecFloat.emin, prec, emax. lia. }
  unfold binary_round_aux, shr_fexp. rewrite Hshift. cbn [shr].
  cbn [shr_record_of_loc loc_of_shr_record shr_m round_nearest_even].
  rewrite Hshift. cbn [shr shr_m].
  destruct (Z.leb_spec e (emax - prec)) as [_|Hbig]; [reflexivity|].
  unfold emax, prec in Hbig. lia.
Qed.

Lemma binary_normalize_integer (z : Z) :
  1 <= z < 2 ^ 53 ->
  exists m e,
    binary_normalize prec emax z 0 false = S754_finite false m e
    /\ -52 <= e <= 0
    /\ Z.pos m = z * 2 ^ (- e)
    /\ 2 ^ 52 <= Z.pos m < 2 ^ 53.
Proof.
  intros Hz. destruct z as [|p|p]; try lia.
  pose proof (digits2_pos_bounds p) as [Dlo Dhi].
  set (d := Z.pos (digits2_pos p)) in *.
  assert (Hd : 1 <= d <= 53).
  { split; [subst d; lia|].
    destruct (Z.le_gt_cases d 53) as [H|H]; [exact H|].
    assert (2 ^ 53 <= 2 ^ (d - 1)) by (apply Z.pow_le_mono_r; lia). lia. }
  unfold binary_normalize, binary_round.
  assert (Hfexp : fexp prec emax (Z.pos (digits2_pos p) + 0) = d - 53).
  { fold d. unfold fexp, SpecFloat.emin, prec, emax. lia. }
  rewrite Hfexp. unfold shl_align.
  destruct (d - 53 - 0) as [|k|k] eqn:Hk; try lia.
  - (* 53 digits already *)
    assert (d = 53) by lia.
    exists p, 0. split.
    + apply binary_round_aux_exact; [|lia].
      split; [replace 52 with (d - 1) by lia|]; lia.
    + assert (Hp52 : 2 ^ 52 <= Z.pos p)
        by (replace 52 with (d - 1) by lia; lia).
      assert (Hp53 : Z.pos p < 2 ^ 53) by lia.
      repeat split; try lia.
  - (* fewer: the mantissa is shifted to the left *)
    assert (Hmant : Z.pos (Pos.iter xO p k) = Z.pos p * 2 ^ (53 - d)).
    { rewrite iter_xO. replace (Z.pos k) with (53 - d) by lia. reflexivity. }
    assert (Hrange : 2 ^ 52 <= Z.pos (Pos.iter xO p k) < 2 ^ 53).
    { rewrite Hmant.
      assert (H52 : 2 ^ 52 = 2 ^ (d - 1) * 2 ^ (53 - d)).
      { rewrite <- Z.pow_add_r by lia. f_equal. lia. }
      assert (H53 : 2 ^ 53 = 2 ^ d * 2 ^ (53 - d)).
      { rewrite <- Z.pow_add_r by lia. f_equal. lia. }
      rewrite H52, H53.
      assert (1 <= 2 ^ (53 - d)) by (apply pow2_ge_1; lia). nia. }
    exists (Pos.iter xO p k), (d - 53). split.
    + apply binary_round_aux_exact; [exact Hrange | lia].
    + repeat split; try lia.
      rewrite Hmant. do 2 f_equal. lia.
Qed.

Lemma ofZ_positive (z : Z) :
  1 <= z < 2 ^ 53 ->
  exists m e,
    Prim2SF (JS.ofZ z) = S754_finite false m e
    /\ -52 <= e <= 0
    /\ Z.pos m = z * 2 ^ (- e)
    /\ 2 ^ 52 <= Z.pos m < 2 ^ 53.
Proof.
  intros Hz. unfold JS.ofZ.
  destruct (Z.ltb_spec z 0) as [Hneg|_]; [lia|].
  rewrite of_uint63_spec, Uint63.of_Z_spec, Z.mod_small.
  - now apply binary_normalize_integer.
  - split; [lia|]. apply Z.lt_trans with (2 ^ 53); [lia | reflexivity].
Qed.

Lemma ofZ_zero : Prim2SF (JS.ofZ 0) = S754_zero false.
Proof. reflexivity. Qed.

(** *** The quotient of two counts *)







End RoundingFacts.

(** ** Numbers: comparison, and the sign of a difference

    On numbers that are not [NaN], comparing is comparing the values, and the
    sign of [y - x] is the sign of the difference of the values: the rounding
    of the subtraction never reaches zero from a non-zero difference. *)

Module OrderFacts.
Import Effects VectorStore Props RoundingFacts.

Lemma valid_finite (s : bool) (m : positive) (e : Z) :
  valid_binary (S754_finite s m e) = true ->
  -1074 <= e <= 971
  /\ Z.pos (digits2_pos m) <= 53
  /\ (-1074 < e -> Z.pos (digits2_pos m) = 53).
Proof.
  unfold SpecFloat.valid_binary, bounded, canonical_mantissa.
  intros H. apply andb_prop in H. destruct H as [Hc He].
  apply Z.eqb_eq in Hc. apply Z.leb_le in He.
  unfold fexp, SpecFloat.emin, prec, emax in *. lia.
Qed.

Lemma pow2_pos (k : Z) : 0 <= k -> 0 < 2 ^ k.
Proof. intros. apply Z.pow_pos_nonneg; lia. Qed.

(** The magnitude of a finite number, on the scale of [scaled]. *)
Lemma finite_magnitude (s : bool) (m : positive) (e : Z) :
  valid_binary (S754_finite s m e) = true ->
  0 < Z.pos m * 2 ^ (e + 1074) < 2 ^ 2100.
Proof.
  intros Hv. destruct (valid_finite s m e Hv) as (He & Hd & _).
  pose proof (digits2_pos_bounds m) as [_ Hhi].
  assert (Hm : Z.pos m < 2 ^ 53).
  { eapply Z.lt_le_trans; [exact Hhi|]. apply Z.pow_le_mono_r; lia. }
  pose proof (pow2_pos (e + 1074) ltac:(lia)) as Hp.
  split; [nia|].
  assert (2 ^ (e + 1074) <= 2 ^ 2045) by (apply Z.pow_le_mono_r; lia).
  replace (2 ^ 2100) with (2 ^ 53 * 2 ^ 2045 * 2 ^ 2)
    by (rewrite <- !Z.pow_add_r by lia; reflexivity).
  pose proof (pow2_pos 53 ltac:(lia)). pose proof (pow2_pos 2045 ltac:(lia)).
  change (2 ^ 2) with 4. nia.
Qed.

(** Two positive finite numbers compare as their magnitudes do. *)
Lemma compare_magnitudes (m1 m2 : positive) (e1 e2 : Z) :
  valid_binary (S754_finite false m1 e1) = true ->
  valid_binary (S754_finite false m2 e2) = true ->
  match Z.compare e1 e2 with
  | Lt => Lt
  | Gt => Gt
  | Eq => Pos.compare_cont Eq m1 m2
  end
  = (Z.pos m1 * 2 ^ (e1 + 1074) ?= Z.pos m2 * 2 ^ (e2 + 1074)).
Proof.
  intros H1 H2.
  destruct (valid_finite _ _ _ H1) as (He1 & Hd1 & Hn1).
  destruct (valid_finite _ _ _ H2) as (He2 & Hd2 & Hn2).
  pose proof (digits2_pos_bounds m1) as [Lo1 Hi1].
  pose proof (digits2_pos_bounds m2) as [Lo2 Hi2].
  assert (Hlt : forall ma mb ea eb,
            -1074 <= ea -> ea < eb ->
            Z.pos ma < 2 ^ 53 -> 2 ^ 52 <= Z.pos mb ->
            Z.pos ma * 2 ^ (ea + 1074) < Z.pos mb * 2 ^ (eb + 1074)).
  { intros ma mb ea eb Ha Hab Hma Hmb.
    assert (2 ^ (ea + 1074 + 1) <= 2 ^ (eb + 1074))
      by (apply Z.pow_le_mono_r; lia).
    rewrite Z.pow_add_r in * by lia. change (2 ^ 1) with 2 in *.
    pose proof (pow2_pos (ea + 1074) ltac:(lia)).
    change (2 ^ 53) with (2 * 2 ^ 52) in Hma.
    pose proof (pow2_pos 52 ltac:(lia)). nia. }
  assert (Hm1 : Z.pos m1 < 2 ^ 53).
  { eapply Z.lt_le_trans; [exact Hi1|]. apply Z.pow_le_mono_r; lia. }
  assert (Hm2 : Z.pos m2 < 2 ^ 53).
  { eapply Z.lt_le_trans; [exact Hi2|]. apply Z.pow_le_mono_r; lia. }
  destruct (Z.compare_spec e1 e2) as [->|Hl|Hg].
  - rewrite Pos.compare_cont_spec.
    rewrite <- Zmult_compare_compat_r
      by (apply Z.lt_gt, pow2_pos; lia).
    rewrite Pos2Z.inj_compare. now destruct (Z.pos m1 ?= Z.pos m2).
  - symmetry. apply Z.compare_lt_iff. apply Hlt; try lia.
    rewrite Hn2 in Lo2 by lia. exact Lo2.
  - symmetry. apply Z.compare_gt_iff. apply Hlt; try lia.
    rewrite Hn1 in Lo1 by lia. exact Lo1.
Qed.

Ltac decide_compare :=
  match goal with
  | |- (_ ?= _) = Lt => apply Z.compare_lt_iff; lia
  | |- (_ ?= _) = Gt => apply Z.compare_gt_iff; lia
  | |- (_ ?= _) = Eq => apply Z.compare_eq_iff; lia
  end.

Lemma compare_scaled (x y : spec_float) :
  valid_binary x = true -> valid_binary y = true ->
  x <> S754_nan -> y <> S754_nan ->
  SFcompare x y = Some (scaled x ?= scaled y).
Proof.
  intros Hx Hy Nx Ny.
  assert (HB : 0 < 2 ^ 2100) by (apply pow2_pos; lia).
  destruct x as [sx|sx| |sx mx ex]; [| |contradiction|];
    destruct y as [sy|sy| |sy my ey]; try contradiction;
    try pose proof (finite_magnitude _ _ _ Hx) as Mx;
    try pose proof (finite_magnitude _ _ _ Hy) as My;
    cbn [SFcompare scaled]; f_equal; symmetry;
    try (destruct sx); try (destruct sy);
    try decide_compare.
  - (* both negative *)
    pose proof (compare_magnitudes mx my ex ey Hx Hy) as Hc.
    change (Z.neg mx) with (- Z.pos mx). change (Z.neg my) with (- Z.pos my).
    rewrite !Z.mul_opp_l, Z.compare_opp, Z.compare_antisym, <- Hc.
    now destruct (ex ?= ey).
  - (* both positive *)
    symmetry. apply (compare_magnitudes mx my ex ey Hx Hy).
Qed.

(** *** The sign of a difference *)

Lemma shr_1_atLeast (bound : Z) (mrs : shr_record) :
  0 <= bound -> 2 * bound <= shr_m mrs -> bound <= shr_m (shr_1 mrs).
Proof.
  destruct mrs as [m r s]. destruct m as [|[p|p|]|[p|p|]]; simpl; lia.
Qed.

Lemma iter_shr_1_atLeast (p : positive) :
  forall bound mrs,
    0 <= bound -> 2 ^ Z.pos p * bound <= shr_m mrs ->
    bound <= shr_m (SpecFloat.iter_pos shr_1 p mrs).
Proof.
  induction p as [p IH|p IH|]; intros bound mrs Hb Hm;
    cbn [SpecFloat.iter_pos].
  - pose proof (pow2_ge_1 (Z.pos p) ltac:(lia)) as Hp.
    apply IH; [exact Hb|]. apply IH; [nia|]. apply shr_1_atLeast; [nia|].
    rewrite pow2_xI in Hm. nia.
  - pose proof (pow2_ge_1 (Z.pos p) ltac:(lia)) as Hp.
    apply IH; [exact Hb|]. apply IH; [nia|].
    rewrite pow2_xO in Hm. nia.
  - apply shr_1_atLeast; [exact Hb|]. exact Hm.
Qed.

(** No shift takes a positive mantissa to zero while the exponent is in
    range. *)
Lemma shr_fexp_positive (m e : Z) (l : location) :
  1 <= m -> -1074 <= e ->
  exists mrs' e',
    shr_fexp prec emax m e l = (mrs', e')
    /\ 1 <= shr_m mrs' /\ -1074 <= e'.
Proof.
  intros Hm He. unfold shr_fexp, shr.
  destruct (sticky_of_loc m l) as [_ Hmant].
  destruct (fexp prec emax (Zdigits2 m + e) - e) as [|n|n] eqn:Hn;
    try (do 2 eexists; split; [reflexivity|]; split; [lia | exact He]).
  destruct m as [|p|p]; try lia. cbn [Zdigits2] in Hn.
  pose proof (digits2_pos_bounds p) as [Lo _].
  assert (Hshift : Z.pos n = Z.pos (digits2_pos p) - 53).
  { unfold fexp, SpecFloat.emin, prec, emax in Hn. lia. }
  do 2 eexists. split; [reflexivity|]. split; [|lia].
  apply iter_shr_1_atLeast; [lia|]. rewrite Hmant, Z.mul_1_r.
  eapply Z.le_trans; [|exact Lo]. apply Z.pow_le_mono_r; lia.
Qed.

Lemma binary_round_aux_sign (s : bool) (m e : Z) (l : location) :
  1 <= m -> -1074 <= e ->
  signOf (binary_round_aux prec emax s m e l) = if s then Lt else Gt.
Proof.
  intros Hm He. unfold binary_round_aux.
  destruct (shr_fexp_positive m e l Hm He) as (mrs1 & e1 & -> & Hm1 & He1).
  assert (Hround : 1 <= round_nearest_even (shr_m mrs1)
                          (loc_of_shr_record mrs1)).
  { unfold round_nearest_even.
    destruct (loc_of_shr_record mrs1) as [|[]];
      try destruct (Z.even (shr_m mrs1)); lia. }
  destruct (shr_fexp_positive _ e1 loc_Exact Hround He1)
    as (mrs2 & e2 & -> & Hm2 & He2).
  destruct (shr_m mrs2) as [|p|p]; try lia.
  destruct (e2 <=? emax - prec); reflexivity.
Qed.

Lemma binary_round_sign (s : bool) (p : positive) (e : Z) :
  -1074 <= e ->
  signOf (binary_round prec emax s p e) = if s then Lt else Gt.
Proof.
  intros He. unfold binary_round, shl_align.
  assert (Hf : -1074 <= fexp prec emax (Z.pos (digits2_pos p) + e)).
  { unfold fexp, SpecFloat.emin, prec, emax. lia. }
  destruct (fexp prec emax (Z.pos (digits2_pos p) + e) - e);
    apply binary_round_aux_sign; lia.
Qed.

Lemma binary_normalize_sign (d e : Z) :
  -1074 <= e ->
  signOf (binary_normalize prec emax d e false) = (d ?= 0).
Proof.
  intros He. destruct d as [|p|p]; cbn [binary_normalize].
  - reflexivity.
  - now rewrite binary_round_sign.
  - now rewrite binary_round_sign.
Qed.

Lemma shl_align_fst (m : positive) (e e' : Z) :
  e' <= e -> Z.pos (fst (shl_align m e e')) = Z.pos m * 2 ^ (e - e').
Proof.
  intros He. unfold shl_align.
  destruct (e' - e) as [|d|d] eqn:Hd; cbn [fst]; try lia.
  - replace (e - e') with 0 by lia. lia.
  - rewrite iter_xO. f_equal. f_equal. lia.
Qed.

(** The difference of two numbers has the sign that comparing them gives. *)
Lemma SFsub_sign (x y : spec_float) :
  valid_binary x = true -> valid_binary y = true ->
  x <> S754_nan -> y <> S754_nan ->
  signOf (SF64sub x y) = (scaled x ?= scaled y).
Proof.
  intros Hx Hy Nx Ny.
  assert (HB : 0 < 2 ^ 2100) by (apply pow2_pos; lia).
  destruct x as [sx|sx| |sx mx ex]; [| |contradiction|];
    destruct y as [sy|sy| |sy my ey]; try contradiction;
    try pose proof (finite_magnitude _ _ _ Hx) as Mx;
    try pose proof (finite_magnitude _ _ _ Hy) as My;
    unfold SF64sub; cbn [SFsub scaled]; symmetry.
  1-8: try (destruct sx); try (destruct sy); cbn [signOf negb];
       decide_compare.
  (* two finite numbers *)
  destruct (valid_finite _ _ _ Hx) as (Hex & _).
  destruct (valid_finite _ _ _ Hy) as (Hey & _).
  rewrite binary_normalize_sign by lia.
  rewrite !shl_align_fst by lia.
  set (ez := Z.min ex ey).
  assert (Hez : -1074 <= ez <= ex /\ ez <= ey) by lia.
  assert (Hpx : 2 ^ (ex + 1074) = 2 ^ (ex - ez) * 2 ^ (ez + 1074)).
  { rewrite <- Z.pow_add_r by lia. f_equal. lia. }
  assert (Hpy : 2 ^ (ey + 1074) = 2 ^ (ey - ez) * 2 ^ (ez + 1074)).
  { rewrite <- Z.pow_add_r by lia. f_equal. lia. }
  rewrite Hpx, Hpy.
  pose proof (pow2_pos (ez + 1074) ltac:(lia)) as Hp.
  set (P := 2 ^ (ez + 1074)) in *.
  set (A := Z.pos mx * 2 ^ (ex - ez)). set (B := Z.pos my * 2 ^ (ey - ez)).
  assert (HA : (if sx then Z.neg mx else Z.pos mx) * (2 ^ (ex - ez) * P)
               = cond_Zopp sx A * P).
  { subst A. destruct sx; cbn [cond_Zopp];
      [change (Z.neg mx) with (- Z.pos mx)|]; ring. }
  assert (HBq : (if sy then Z.neg my else Z.pos my) * (2 ^ (ey - ez) * P)
               = cond_Zopp sy B * P).
  { subst B. destruct sy; cbn [cond_Zopp];
      [change (Z.neg my) with (- Z.pos my)|]; ring. }
  rewrite HA, HBq.
  destruct (Z.compare_spec (cond_Zopp sx A - cond_Zopp sy B) 0);
    [apply Z.compare_eq_iff | apply Z.compare_lt_iff
     | apply Z.compare_gt_iff]; nia.
Qed.

Lemma sortOrder_sign (v : float) :
  JS.sortOrder v
  = match signOf (Prim2SF v) with
    | Gt => JS.After
    | Lt => JS.Before
    | Eq => JS.Same
    end.
Proof.
  unfold JS.sortOrder. rewrite !FloatAxioms.ltb_spec.
  change (Prim2SF 0%float) with (S754_zero false).
  destruct (Prim2SF v) as [s|s| |s m e]; try destruct s; reflexivity.
Qed.

Lemma is_nan_SF (x : float) :
  PrimFloat.is_nan x = false -> Prim2SF x <> S754_nan.
Proof.
  intros H E. unfold PrimFloat.is_nan in H.
  rewrite FloatAxioms.eqb_spec, E in H. discriminate.
Qed.

(** What [sort] reads off the comparator, for two results whose similarity
    is a number. *)
Lemma bySimilarity_order (a b : SearchResult) :
  PrimFloat.is_nan (similarity a) = false ->
  PrimFloat.is_nan (similarity b) = false ->
  JS.sortOrder (bySimilarity a b)
  = match rankOf b ?= rankOf a with
    | Gt => JS.After
    | Lt => JS.Before
    | Eq => JS.Same
    end.
Proof.
  intros Ha Hb. rewrite sortOrder_sign. unfold bySimilarity.
  rewrite FloatAxioms.sub_spec, SFsub_sign;
    auto using Prim2SF_valid, is_nan_SF.
Qed.

End OrderFacts.

(** ** Properties of the vector store *)

Module VectorStoreFacts.
Import Effects VectorStore Props.

Lemma withoutId_not_in (i : string) (docs : list VectorDocument) :
  ~ In i (map id (withoutId i docs)).
Proof.
  unfold withoutId. induction docs as [|d docs IH]; simpl; [tauto|].
  destruct (String.eqb_spec (id d) i) as [E|NE]; simpl; [exact IH|].
  intros [H|H]; [congruence | exact (IH H)].
Qed.

Lemma withoutId_NoDup (i : string) (docs : list VectorDocument) :
  List.NoDup (map id docs) -> List.NoDup (map id (withoutId i docs)).
Proof.
  unfold withoutId. induction docs as [|d docs IH]; simpl; intros ND.
  - constructor.
  - inversion ND as [|? ? Hnotin ND']; subst.
    destruct (negb (String.eqb (id d) i)); simpl; [|auto].
    constructor; [|auto].
    intros Hin. apply Hnotin.
    apply in_map_iff in Hin. destruct Hin as [d' [Hid Hd']].
    apply filter_In in Hd'. apply in_map_iff. exists d'. tauto.
Qed.

Lemma NoDup_map_snoc (docs : list VectorDocument) (d : VectorDocument) :
  List.NoDup (map id docs) -> ~ In (id d) (map id docs) ->
  List.NoDup (map id (docs ++ [d])).
Proof.
  intros ND Hnotin. rewrite map_app. simpl.
  apply List.NoDup_app; [exact ND | repeat constructor; intros [] |].
  intros x Hx [<-|[]]. contradiction.
Qed.

(** [generateEmbedding] never throws and leaves the documents alone. *)
Lemma generateEmbedding_runs (net : Network) (text : string) (w : World) :
  exists e w', generateEmbedding net text w = (Normal e, w')
               /\ documents w' = documents w.
Proof.
  unfold generateEmbedding, bind, postEmbeddings. simpl.
  destruct (embeddingsApi net w text); simpl; eauto.
Qed.

(** What [addDocument] does to the store. *)
Lemma addDocument_runs (net : Network) (i c : string) (m : Metadata)
    (w : World) :
  exists e w',
    addDocument net i c m w
    = (Normal {| id := i; content := c; embedding := e; metadata := m |}, w')
    /\ documents w'
       = withoutId i (documents w)
         ++ [{| id := i; content := c; embedding := e; metadata := m |}].
Proof.
  destruct (generateEmbedding_runs net c w) as (e & w1 & Hgen & Hdocs).
  exists e. unfold addDocument, bind. rewrite Hgen. simpl.
  eexists. split; [reflexivity|]. simpl. now rewrite Hdocs.
Qed.

Lemma removeDocument_runs (i : string) (w : World) :
  exists b w',
    removeDocument i w = (Normal b, w')
    /\ documents w' = withoutId i (documents w).
Proof.
  unfold removeDocument, bind. simpl. eauto.
Qed.

Lemma runOp_keeps_ids_distinct (net : Network) (op : StoreOp) (w : World) :
  List.NoDup (map id (documents w)) ->
  exists w', runOp net op w = (Normal tt, w')
             /\ List.NoDup (map id (documents w')).
Proof.
  intros ND. destruct op as [i c m|i]; unfold runOp, bind.
  - destruct (addDocument_runs net i c m w) as (e & w' & Hadd & Hdocs).
    rewrite Hadd. exists w'. split; [reflexivity|]. rewrite Hdocs.
    apply NoDup_map_snoc.
    + now apply withoutId_NoDup.
    + apply withoutId_not_in.
  - destruct (removeDocument_runs i w) as (b & w' & Hrm & Hdocs).
    rewrite Hrm. exists w'. split; [reflexivity|]. rewrite Hdocs.
    now apply withoutId_NoDup.
Qed.

Lemma runOps_keeps_ids_distinct (net : Network) (ops : list StoreOp) :
  forall w, List.NoDup (map id (documents w)) ->
  exists w', runOps net ops w = (Normal tt, w')
             /\ List.NoDup (map id (documents w')).
Proof.
  induction ops as [|op ops IH]; intros w ND; simpl.
  - exists w. split; [reflexivity | exact ND].
  - destruct (runOp_keeps_ids_distinct net op w ND) as (w1 & Hop & ND1).
    unfold bind. rewrite Hop. apply IH. exact ND1.
Qed.

Lemma withId_withoutId (i : string) (docs : list VectorDocument) :
  withId i (withoutId i docs) = [].
Proof.
  unfold withId, withoutId.
  induction docs as [|d docs IH]; simpl; [reflexivity|].
  destruct (String.eqb (id d) i) eqn:E; simpl; [exact IH|].
  rewrite E. exact IH.
Qed.

Lemma withId_snoc_same (i : string) (docs : list VectorDocument)
    (d : VectorDocument) :
  id d = i -> withId i (withoutId i docs ++ [d]) = [d].
Proof.
  intros Hid. unfold withId. rewrite List.filter_app.
  fold (withId i (withoutId i docs)). rewrite withId_withoutId. simpl.
  rewrite Hid, String.eqb_refl. reflexivity.
Qed.

(** Adding twice under one id: one document with that id stays, the second. *)
Lemma addDocument_twice (net : Network) (i c1 c2 : string) (m1 m2 : Metadata)
    (w : World) :
  List.NoDup (map id (documents w)) ->
  exists d w',
    (let! _ := addDocument net i c1 m1 in addDocument net i c2 m2) w
    = (Normal d, w')
    /\ withId i (documents w') = [d] /\ content d = c2
    /\ List.NoDup (map id (documents w')).
Proof.
  intros ND.
  destruct (addDocument_runs net i c1 m1 w) as (e1 & w1 & Hadd1 & Hdocs1).
  destruct (addDocument_runs net i c2 m2 w1) as (e2 & w2 & Hadd2 & Hdocs2).
  unfold bind. rewrite Hadd1, Hadd2. eexists. exists w2.
  split; [reflexivity|]. rewrite Hdocs2.
  split; [now apply withId_snoc_same|]. split; [reflexivity|].
  apply NoDup_map_snoc; [|apply withoutId_not_in].
  apply withoutId_NoDup. rewrite Hdocs1.
  apply NoDup_map_snoc; [|apply withoutId_not_in].
  now apply withoutId_NoDup.
Qed.

(** C3.  Whatever the embedding provider answers, every sequence of
    [addDocument] and [removeDocument] calls that starts from the empty store
    runs to its end without an exception and leaves a store in which no two
    documents share an id; and from there (as from any store) two
    [addDocument] calls under one id leave exactly one document with that id,
    whose content is the second call's. *)
Theorem store_holds_one_document_per_id (net : Network) (ops : list StoreOp)
    (w0 : World) :
  documents w0 = [] ->
  exists w,
    runOps net ops w0 = (Normal tt, w)
    /\ List.NoDup (map id (documents w))
    /\ forall (i c1 c2 : string) (m1 m2 : Metadata),
         exists d w',
           (let! _ := addDocument net i c1 m1 in addDocument net i c2 m2) w
           = (Normal d, w')
           /\ withId i (documents w') = [d]
           /\ content d = c2
           /\ List.NoDup (map id (documents w')).
Proof.
  intros Hempty.
  destruct (runOps_keeps_ids_distinct net ops w0) as (w & Hrun & ND).
  { rewrite Hempty. constructor. }
  exists w. split; [exact Hrun|]. split; [exact ND|].
  intros i c1 c2 m1 m2. now apply addDocument_twice.
Qed.

Lemma store_holds_one_document_per_id_witness :
  documents freshWorld = []
  /\ exists w,
       runOps offline threeNotes freshWorld = (Normal tt, w)
       /\ List.NoDup (map id (documents w))
       /\ forall (i c1 c2 : string) (m1 m2 : Metadata),
            exists d w',
              (let! _ := addDocument offline i c1 m1 in
               addDocument offline i c2 m2) w
              = (Normal d, w')
              /\ withId i (documents w') = [d]
              /\ content d = c2
              /\ List.NoDup (map id (documents w')).
Proof.
  split; [reflexivity|].
  apply (store_holds_one_document_per_id offline threeNotes freshWorld).
  reflexivity.
Defined.

(** The first line of [search]. *)
Lemma search_without_documents (net : Network) (q : string) (k : Z)
    (w : World) :
  documents w = [] -> search net q k w = (Normal [], w).
Proof.
  intros Hempty. unfold search, bind, getDocuments.
  rewrite Hempty. reflexivity.
Qed.

(** C6.  On a store without documents [search] returns the empty array at
    once: the world is left as it was, so no request went to the embedding
    provider (and none anywhere else), whatever the query and [topK]. *)
Theorem search_on_empty_store (net : Network) (q : string) (k : Z)
    (w : World) :
  documents w = [] ->
  search net q k w = (Normal [], w)
  /\ sent (snd (search net q k w)) = sent w.
Proof.
  intros Hempty. rewrite (search_without_documents net q k w Hempty).
  split; reflexivity.
Qed.

Lemma search_on_empty_store_witness :
  search offline "anything" 5 freshWorld = (Normal [], freshWorld)
  /\ sent (snd (search offline "anything" 5 freshWorld)) = sent freshWorld.
Proof.
  apply (search_on_empty_store offline "anything" 5 freshWorld). reflexivity.
Defined.

(** [search] on a store with documents, step by step. *)
Lemma search_on_documents (net : Network) (q : string) (k : Z) (w : World) :
  documents w <> [] ->
  exists qv w1,
    generateEmbedding net q w = (Normal qv, w1)
    /\ documents w1 = documents w
    /\ sent w1 = sent w ++ [PostEmbeddings q]
    /\ search net q k w
       = (match scoreAll qv (documents w) with
          | Normal results =>
              Normal (List.filter
                        (fun r => PrimFloat.ltb lowSimilarity (similarity r))
                        (JS.slice0 (JS.sort bySimilarity results) k))
          | Throw e => Throw e
          end, w1).
Proof.
  intros Hne.
  assert (Hgen : exists qv w1, generateEmbedding net q w = (Normal qv, w1)
                   /\ documents w1 = documents w
                   /\ sent w1 = sent w ++ [PostEmbeddings q]).
  { unfold generateEmbedding, bind, postEmbeddings.
    destruct (embeddingsApi net w q); simpl; eauto. }
  destruct Hgen as (qv & w1 & Hgen & Hdocs & Hsent).
  exists qv, w1. repeat split; try assumption.
  unfold search, bind, getDocuments.
  destruct (documents w) as [|d ds] eqn:Hd; [contradiction|].
  cbn [length Nat.eqb]. rewrite Hgen. unfold liftCompletion.
  destruct (scoreAll qv (d :: ds)); reflexivity.
Qed.

(** The dot product with an all-zero vector on either side is [+0] or [NaN]. *)
Lemma dotFrom_zero_l (a b : list float) :
  allZero a ->
  forall start sum, isPlusZeroOrNaN sum ->
  isPlusZeroOrNaN (dotFrom start a b sum).
Proof.
  induction 1 as [|val rest Hval Hrest IH]; intros start sum Hsum; simpl.
  - exact Hsum.
  - apply IH. apply NumberFacts.add_plusZeroOrNaN; [exact Hsum|].
    apply NumberFacts.mul_zero_l. now apply NumberFacts.eqb_zero_isZero.
Qed.

Lemma dotFrom_zero_r (a b : list float) :
  allZero b ->
  forall start sum, isPlusZeroOrNaN sum ->
  isPlusZeroOrNaN (dotFrom start a b sum).
Proof.
  intros Hb. induction a as [|val rest IH]; intros start sum Hsum; simpl.
  - exact Hsum.
  - apply IH. apply NumberFacts.add_plusZeroOrNaN; [exact Hsum|].
    destruct (nth_error b start) as [bi|] eqn:Hbi.
    + apply NumberFacts.mul_zero_r. apply NumberFacts.eqb_zero_isZero.
      apply nth_error_In in Hbi.
      unfold allZero in Hb. rewrite List.Forall_forall in Hb. now apply Hb.
    + apply NumberFacts.mul_nan_r.
Qed.

(** The magnitude of an all-zero vector is [+0]. *)
Lemma sumOfSquares_zero (v : list float) :
  allZero v -> Prim2SF (sumOfSquares v) = S754_zero false.
Proof.
  unfold sumOfSquares.
  assert (H : forall sum, Prim2SF sum = S754_zero false -> allZero v ->
              Prim2SF (fold_left (fun sum val => (sum + val * val)%float) v sum)
              = S754_zero false).
  { induction v as [|val rest IH]; intros sum Hsum Hz; simpl; [exact Hsum|].
    inversion Hz as [|? ? Hval Hrest]; subst.
    apply IH; [|exact Hrest].
    apply NumberFacts.add_plusZero; [exact Hsum|].
    apply NumberFacts.mul_zero_zero; now apply NumberFacts.eqb_zero_isZero. }
  intros Hz. now apply H.
Qed.

(** C2, where the code departs from it.  For two vectors of equal length, one
    of them all zeros, [cosineSimilarity] returns [NaN] and not 0: the
    quotient is [0 / 0], or has a [NaN] in it, and nothing guards it. *)
Theorem cosine_of_zero_vector_is_NaN (a b : list float) :
  length a = length b ->
  allZero a \/ allZero b ->
  cosineSimilarity (EmbeddingArray a) (EmbeddingArray b)
  = Normal PrimFloat.nan.
Proof.
  intros _ Hzero. unfold cosineSimilarity, cosine. f_equal.
  apply NumberFacts.div_by_zeroOrNaN.
  - destruct Hzero as [Ha|Hb].
    + apply dotFrom_zero_l; [exact Ha | now left].
    + apply dotFrom_zero_r; [exact Hb | now left].
  - destruct Hzero as [Ha|Hb].
    + apply NumberFacts.mul_zero_l. exists false.
      apply NumberFacts.sqrt_plusZero. now apply sumOfSquares_zero.
    + apply NumberFacts.mul_zero_r. exists false.
      apply NumberFacts.sqrt_plusZero. now apply sumOfSquares_zero.
Qed.

Lemma cosine_of_zero_vector_is_NaN_witness :
  cosineSimilarity (EmbeddingArray [0; 0]%float) (EmbeddingArray [1; 0]%float)
  = Normal PrimFloat.nan.
Proof.
  apply (cosine_of_zero_vector_is_NaN [0; 0]%float [1; 0]%float).
  - reflexivity.
  - left. repeat constructor.
Defined.

(** X2.  Whatever is stored and whatever the provider answers, a [search]
    that returns, returns at most [topK] results, each with a similarity above
    the cut-off (and so none with [NaN]): [slice] and [filter] see to that. *)
Lemma search_at_most_topK_above_cutoff (net : Network) (q : string) (k : Z)
    (w w' : World) (results : list SearchResult) :
  0 <= k ->
  search net q k w = (Normal results, w') ->
  Z.of_nat (length results) <= k
  /\ Forall (fun r => PrimFloat.ltb lowSimilarity (similarity r) = true
                      /\ PrimFloat.is_nan (similarity r) = false)
            results.
Proof.
  intros Hk Hsearch.
  assert (Hshape : results = []
                   \/ exists scored, results =
                        List.filter
                          (fun r => PrimFloat.ltb lowSimilarity (similarity r))
                          (JS.slice0 scored k)).
  { destruct (documents w) as [|d ds] eqn:Hd.
    - left. rewrite (search_without_documents net q k w Hd) in Hsearch.
      now inversion Hsearch.
    - right.
      destruct (search_on_documents net q k w) as (qv & w1 & _ & _ & _ & E).
      { rewrite Hd. discriminate. }
      rewrite E in Hsearch. destruct (scoreAll qv (documents w)) as [scored|e];
        [|discriminate].
      inversion Hsearch. eauto. }
  destruct Hshape as [->|[scored ->]].
  - simpl. split; [lia | constructor].
  - split.
    + etransitivity.
      * apply Nat2Z.inj_le. apply List.filter_length_le.
      * unfold JS.slice0. destruct (Z.ltb_spec k 0); [lia|].
        rewrite length_firstn. lia.
    + apply List.Forall_forall. intros r Hr. apply List.filter_In in Hr.
      destruct Hr as [_ Hlt]. split; [exact Hlt|].
      rewrite FloatAxioms.ltb_spec in Hlt.
      unfold PrimFloat.is_nan. rewrite FloatAxioms.eqb_spec.
      unfold SFltb, SFeqb in *.
      destruct (Prim2SF (similarity r)); try reflexivity.
      * rewrite Bool.negb_false_iff. destruct s; reflexivity.
      * destruct (Prim2SF lowSimilarity); discriminate.
      * rewrite Bool.negb_false_iff. simpl. destruct s.
        -- now rewrite Z.compare_refl, Pos.compare_cont_refl.
        -- now rewrite Z.compare_refl, Pos.compare_cont_refl.
Qed.

Lemma search_at_most_topK_above_cutoff_witness :
  exists results w',
    search offline "data" 1 threeNotesWorld = (Normal results, w')
    /\ Z.of_nat (length results) <= 1
    /\ Forall (fun r => PrimFloat.ltb lowSimilarity (similarity r) = true
                        /\ PrimFloat.is_nan (similarity r) = false)
              results.
Proof.
  assert (Hrun : exists results w',
            search offline "data" 1 threeNotesWorld = (Normal results, w'))
    by (do 2 eexists; vm_compute; reflexivity).
  destruct Hrun as (results & w' & Hsearch).
  exists results, w'. split; [exact Hsearch|].
  assert (Hk : 0 <= 1) by (vm_compute; discriminate).
  exact (search_at_most_topK_above_cutoff offline "data" 1 threeNotesWorld w'
           results Hk Hsearch).
Defined.

Lemma filter_out_shorter {A} (g : A -> bool) (l : list A) :
  (length (List.filter (fun x => negb (g x)) l) <? length l)%nat
  = existsb g l.
Proof.
  induction l as [|x l IH]; [reflexivity|]. simpl.
  pose proof (List.filter_length_le (fun x => negb (g x)) l) as Hle.
  destruct (g x); simpl.
  - apply Nat.ltb_lt. lia.
  - exact IH.
Qed.

(** X3.  [removeDocument] returns [true] exactly when the store held a
    document with that id, and leaves the store without any. *)
Theorem removeDocument_reports_removal (i : string) (w : World) :
  exists w',
    removeDocument i w
    = (Normal (existsb (fun doc => String.eqb (id doc) i) (documents w)), w')
    /\ documents w' = withoutId i (documents w)
    /\ withId i (documents w') = [].
Proof.
  exists {| documents := withoutId i (documents w); clock := clock w;
            sent := sent w; console := console w |}.
  split; [|split; [reflexivity | apply withId_withoutId]].
  unfold removeDocument, bind, getDocuments, setDocuments, ret.
  cbn [documents]. unfold withoutId at 1.
  now rewrite filter_out_shorter.
Qed.

(** C1, where the code departs from it.  Three notes are indexed with the
    lexical fallback; the second has no vocabulary word, so its vector is all
    zeros and its similarity to any query is [NaN].  The comparator then
    returns [NaN] for every pair the second note is part of, the sort leaves
    the three results where they are, and [search] returns the first note
    (similarity 0.7071...) ahead of the third (similarity 1). *)
Theorem search_order_broken_by_NaN :
  exists (first third : SearchResult) (w : World),
    searchThreeNotes freshWorld = (Normal [first; third], w)
    /\ id (document first) = "1" /\ id (document third) = "3"
    /\ similarity first = 0x1.6a09e667f3bccp-1%float
    /\ similarity third = 1%float
    /\ PrimFloat.ltb (similarity first) (similarity third) = true.
Proof.
  do 3 eexists. split; [vm_compute; reflexivity|].
  repeat (split; [reflexivity|]). reflexivity.
Qed.

(** The scores behind it: the second note's is [NaN]. *)
Lemma threeNotes_scores :
  exists (w : World) (v1 v2 v3 : list float),
    runOps offline threeNotes freshWorld = (Normal tt, w)
    /\ map embedding (documents w)
       = [EmbeddingArray v1; EmbeddingArray v2; EmbeddingArray v3]
    /\ allZero v2
    /\ map (fun doc => cosineSimilarity (EmbeddingArray (textToVector "data"))
                                        (embedding doc))
           (documents w)
       = [Normal 0x1.6a09e667f3bccp-1%float; Normal PrimFloat.nan;
          Normal 1%float].
Proof.
  do 4 eexists. split; [vm_compute; reflexivity|].
  split; [reflexivity|]. split; [|vm_compute; reflexivity].
  repeat constructor.
Qed.

End VectorStoreFacts.

(** ** The ranking that [search] returns *)

Module RankingFacts.
Import Effects VectorStore Props OrderFacts.

Section SortByKey.
Context {A : Type} (compareFn : A -> A -> float) (key : A -> Z)
        (good : A -> Prop).
Hypothesis compareFn_order :
  forall a b, good a -> good b ->
  JS.sortOrder (compareFn a b)
  = match key b ?= key a with
    | Gt => JS.After
    | Lt => JS.Before
    | Eq => JS.Same
    end.

Lemma insertSorted_In (x y : A) (l : list A) :
  In y (JS.insertSorted compareFn x l) <-> y = x \/ In y l.
Proof.
  induction l as [|z l IH]; simpl; [intuition|].
  destruct (JS.sortOrder (compareFn x z)); simpl; rewrite ?IH; intuition.
Qed.

Lemma sort_In (y : A) (l : list A) : In y (JS.sort compareFn l) <-> In y l.
Proof.
  unfold JS.sort. induction l as [|x l IH]; simpl; [tauto|].
  rewrite insertSorted_In, IH. intuition.
Qed.

Lemma sort_good (l : list A) :
  Forall good l -> Forall good (JS.sort compareFn l).
Proof.
  rewrite !List.Forall_forall. intros H x Hx. apply H. now apply sort_In.
Qed.

Lemma insertSorted_sorted (x : A) (l : list A) :
  good x -> Forall good l ->
  StronglySorted (byKey key) l ->
  StronglySorted (byKey key) (JS.insertSorted compareFn x l).
Proof.
  intros Hx Hl Hs. induction l as [|y l IH]; simpl.
  - repeat constructor.
  - inversion Hl as [|? ? Hy Hl']; subst.
    inversion Hs as [|? ? Hs' Hall]; subst.
    rewrite (compareFn_order x y Hx Hy).
    destruct (Z.compare_spec (key y) (key x)) as [E|L|G].
    + constructor; [exact Hs|]. constructor; [unfold byKey; lia|].
      eapply List.Forall_impl; [|exact Hall]. unfold byKey. intros; lia.
    + constructor; [exact Hs|]. constructor; [unfold byKey; lia|].
      eapply List.Forall_impl; [|exact Hall]. unfold byKey. intros; lia.
    + constructor; [now apply IH|].
      apply List.Forall_forall. intros z Hz. apply insertSorted_In in Hz.
      destruct Hz as [->|Hz]; [unfold byKey; lia|].
      rewrite List.Forall_forall in Hall. now apply Hall.
Qed.

Lemma sort_sorted (l : list A) :
  Forall good l -> StronglySorted (byKey key) (JS.sort compareFn l).
Proof.
  unfold JS.sort. induction 1 as [|x l Hx Hl IH]; simpl; [constructor|].
  apply insertSorted_sorted; [exact Hx | now apply sort_good | exact IH].
Qed.

(** Stability: the elements of one key are where they were, relative to each
    other. *)
Lemma insertSorted_stable (k : Z) (x : A) (l : list A) :
  good x -> Forall good l ->
  List.filter (fun a => key a =? k) (JS.insertSorted compareFn x l)
  = List.filter (fun a => key a =? k) (x :: l).
Proof.
  intros Hx Hl. induction Hl as [|y l Hy Hl IH]; [reflexivity|].
  cbn [JS.insertSorted]. rewrite (compareFn_order x y Hx Hy).
  destruct (Z.compare_spec (key y) (key x)) as [E|L|G]; try reflexivity.
  cbn [List.filter] in *. rewrite IH.
  destruct (Z.eqb_spec (key x) k), (Z.eqb_spec (key y) k); try reflexivity.
  lia.
Qed.

Lemma sort_stable (k : Z) (l : list A) :
  Forall good l ->
  List.filter (fun a => key a =? k) (JS.sort compareFn l)
  = List.filter (fun a => key a =? k) l.
Proof.
  induction 1 as [|x l Hx Hl IH]; [reflexivity|].
  change (JS.sort compareFn (x :: l))
    with (JS.insertSorted compareFn x (JS.sort compareFn l)).
  rewrite insertSorted_stable; [|exact Hx | now apply sort_good].
  cbn [List.filter]. now rewrite IH.
Qed.

End SortByKey.



Lemma sublist_filter_bool {A} (f : A -> bool) (l : list A) :
  sublist (List.filter f l) l.
Proof.
  induction l as [|x l IH]; simpl; [constructor|].
  destruct (f x); [now apply sublist_skip | now apply sublist_cons].
Qed.


Lemma StronglySorted_impl_In {A} (R R' : A -> A -> Prop) (l : list A) :
  (forall a b, In a l -> In b l -> R a b -> R' a b) ->
  StronglySorted R l -> StronglySorted R' l.
Proof.
  intros Himpl Hs. induction Hs as [|x l Hs IH Hall]; [constructor|].
  constructor.
  - apply IH. intros a b Ha Hb. apply Himpl; now right.
  - apply List.Forall_forall. intros y Hy.
    rewrite List.Forall_forall in Hall.
    apply Himpl; [now left | now right | now apply Hall].
Qed.

Lemma leb_of_ranks (a b : SearchResult) :
  isNumber a -> isNumber b -> rankOf b <= rankOf a ->
  PrimFloat.leb (similarity b) (similarity a) = true.
Proof.
  unfold isNumber, rankOf. intros Ha Hb Hle.
  rewrite FloatAxioms.leb_spec. unfold SFleb.
  rewrite compare_scaled by auto using Prim2SF_valid, is_nan_SF.
  destruct (Z.compare_spec (scaled (Prim2SF (similarity b)))
                           (scaled (Prim2SF (similarity a))));
    try reflexivity. lia.
Qed.

Lemma eqb_of_ranks (r : SearchResult) (v : float) :
  isNumber r -> PrimFloat.is_nan v = false ->
  PrimFloat.eqb (similarity r) v = (rankOf r =? scaled (Prim2SF v)).
Proof.
  unfold isNumber, rankOf. intros Hr Hv.
  rewrite FloatAxioms.eqb_spec. unfold SFeqb.
  rewrite compare_scaled by auto using Prim2SF_valid, is_nan_SF.
  destruct (Z.compare_spec (scaled (Prim2SF (similarity r)))
                           (scaled (Prim2SF v)));
    destruct (Z.eqb_spec (scaled (Prim2SF (similarity r)))
                         (scaled (Prim2SF v)));
    try reflexivity; lia.
Qed.

Lemma eqb_NaN (x v : float) :
  PrimFloat.is_nan v = true -> PrimFloat.eqb x v = false.
Proof.
  intros Hv. rewrite FloatAxioms.eqb_spec.
  assert (Hnan : Prim2SF v = S754_nan).
  { unfold PrimFloat.is_nan in Hv. rewrite FloatAxioms.eqb_spec in Hv.
    destruct (Prim2SF v) eqn:E; try reflexivity; exfalso;
      pose proof (Prim2SF_valid v) as Hval; rewrite E in Hval;
      unfold SFeqb in Hv;
      rewrite compare_scaled, Z.compare_refl in Hv by (auto; discriminate);
      discriminate. }
  rewrite Hnan. unfold SFeqb, SFcompare. now destruct (Prim2SF x).
Qed.

(** The ties at a value, in a list of results whose similarities are
    numbers, are the results of one rank. *)
Lemma tiedAt_rank (v : float) (l : list SearchResult) :
  Forall isNumber l ->
  tiedAt v l
  = if PrimFloat.is_nan v then []
    else List.filter (fun r => rankOf r =? scaled (Prim2SF v)) l.
Proof.
  intros Hl. unfold tiedAt. destruct (PrimFloat.is_nan v) eqn:Hv.
  - induction l as [|r l IH]; [reflexivity|]. simpl.
    rewrite eqb_NaN by exact Hv. apply IH. now inversion Hl.
  - apply List.filter_ext_in. intros r Hr.
    rewrite List.Forall_forall in Hl. apply eqb_of_ranks; auto.
Qed.




End RankingFacts.

(** ** Properties of the pipeline orchestrator *)

Module OrchestratorFacts.
Import Effects VectorStore RagPipeline Props.

Section Stages.
Context (searchStage : string -> Z -> M (list SearchResult))
        (buildContextStage :
           list SearchResult -> string -> M (string * list SearchResult))
        (confidenceStage : list SearchResult -> M float)
        (generateAnswerStage :
           string -> string -> list SearchResult -> M string).

Abbreviation body :=
  (pipelineBody searchStage buildContextStage confidenceStage
                generateAnswerStage).
Abbreviation run :=
  (processRAGQueryWith searchStage buildContextStage confidenceStage
                       generateAnswerStage).

(** The handler returns the fixed response, stamped with the clock at the
    point of failure, and writes one line to the console. *)
Lemma run_when_body_throws (q : string) (k : Z) (w w1 : World) (e : JSError) :
  body q k (clock w) w = (Throw e, w1) ->
  exists w', run q k w = (Normal (errorResponse q (clock w1 - clock w)), w')
             /\ clock w' = clock w1
             /\ console w' = console w1 ++ ["RAG Pipeline Error:"].
Proof.
  intros Hbody. unfold processRAGQueryWith, bind, tryCatch, Date_now.
  rewrite Hbody. unfold pipelineHandler, bind, consoleLog, Date_now, ret.
  simpl. eauto.
Qed.

Lemma run_when_body_returns (q : string) (k : Z) (w w1 : World)
    (r : RAGResponse) :
  body q k (clock w) w = (Normal r, w1) -> run q k w = (Normal r, w1).
Proof.
  intros Hbody. unfold processRAGQueryWith, bind, tryCatch, Date_now.
  now rewrite Hbody.
Qed.

(** C4.  Whatever its four stages do, [processRAGQuery] returns a response
    and never an exception.  If the retrieval throws, or the context builder
    after it, or the confidence computation after these, or the answer
    generator after these, then the answer of the response is the generic
    error text; its context carries the query, no retrieved documents, an
    empty context window and confidence 0; it has no sources; its
    processing time is the clock at the point of failure less the clock at
    the start; and one line went to the console. *)
Theorem processRAGQuery_never_throws (q : string) (k : Z) (w : World) :
  exists (response : RAGResponse) (w' : World),
    run q k w = (Normal response, w')
    /\ forall (e : JSError) (failed : World),
         (searchStage q k w = (Throw e, failed)
          \/ (exists results w1,
                searchStage q k w = (Normal results, w1)
                /\ buildContextStage results q w1 = (Throw e, failed))
          \/ (exists results w1 built w2,
                searchStage q k w = (Normal results, w1)
                /\ buildContextStage results q w1 = (Normal built, w2)
                /\ confidenceStage (snd built) w2 = (Throw e, failed))
          \/ (exists results w1 built w2 c w3,
                searchStage q k w = (Normal results, w1)
                /\ buildContextStage results q w1 = (Normal built, w2)
                /\ confidenceStage (snd built) w2 = (Normal c, w3)
                /\ generateAnswerStage q (fst built) (snd built) w3
                   = (Throw e, failed))) ->
         answer response
         = "I encountered an error while processing your query. Please try again or rephrase your question."
         /\ query (context response) = q
         /\ retrievedDocuments (context response) = []
         /\ contextWindow (context response) = ""
         /\ confidence (context response) = PrimFloat.zero
         /\ sources response = []
         /\ processingTime response = clock failed - clock w
         /\ console w' = console failed ++ ["RAG Pipeline Error:"].
Proof.
  destruct (body q k (clock w) w) as [[r|e] w1] eqn:Hbody.
  - (* the [try] block returns: no stage has thrown *)
    exists r, w1. split; [now apply run_when_body_returns|].
    unfold pipelineBody, bind in Hbody.
    destruct (searchStage q k w) as [[results|e1] u1] eqn:E1; [|discriminate].
    destruct (buildContextStage results q u1) as [[built|e2] u2] eqn:E2;
      [|discriminate].
    destruct (confidenceStage (snd built) u2) as [[c|e3] u3] eqn:E3;
      [|discriminate].
    destruct (generateAnswerStage q (fst built) (snd built) u3)
      as [[a|e4] u4] eqn:E4; [|discriminate].
    intros e0 failed
      [H1|[(rs & v1 & H1 & H2)
          |[(rs & v1 & b & v2 & H1 & H2 & H3)
           |(rs & v1 & b & v2 & c0 & v3 & H1 & H2 & H3 & H4)]]];
      congruence.
  - (* the [try] block throws: the [catch] block answers *)
    destruct (run_when_body_throws q k w w1 e Hbody)
      as (w' & Hrun & _ & Hconsole).
    exists (errorResponse q (clock w1 - clock w)), w'.
    split; [exact Hrun|].
    unfold pipelineBody, bind in Hbody.
    assert (Hfields : forall failed, failed = w1 ->
              answer (errorResponse q (clock w1 - clock w))
              = "I encountered an error while processing your query. Please try again or rephrase your question."
              /\ query (context (errorResponse q (clock w1 - clock w))) = q
              /\ retrievedDocuments
                   (context (errorResponse q (clock w1 - clock w))) = []
              /\ contextWindow
                   (context (errorResponse q (clock w1 - clock w))) = ""
              /\ confidence (context (errorResponse q (clock w1 - clock w)))
                 = PrimFloat.zero
              /\ sources (errorResponse q (clock w1 - clock w)) = []
              /\ processingTime (errorResponse q (clock w1 - clock w))
                 = clock failed - clock w
              /\ console w' = console failed ++ ["RAG Pipeline Error:"]).
    { intros failed ->. cbn. repeat split. exact Hconsole. }
    intros e0 failed
      [H1|[(rs & v1 & H1 & H2)
          |[(rs & v1 & b & v2 & H1 & H2 & H3)
           |(rs & v1 & b & v2 & c0 & v3 & H1 & H2 & H3 & H4)]]];
      apply Hfields.
    + rewrite H1 in Hbody. now inversion Hbody.
    + rewrite H1 in Hbody. cbn beta iota in Hbody.
      rewrite H2 in Hbody. now inversion Hbody.
    + rewrite H1 in Hbody. cbn beta iota in Hbody.
      rewrite H2 in Hbody. cbn beta iota in Hbody.
      rewrite H3 in Hbody. now inversion Hbody.
    + rewrite H1 in Hbody. cbn beta iota in Hbody.
      rewrite H2 in Hbody. cbn beta iota in Hbody.
      rewrite H3 in Hbody. cbn beta iota in Hbody.
      rewrite H4 in Hbody. now inversion Hbody.
Qed.

End Stages.

(** [processRAGQuery] itself is one instance. *)
Lemma processRAGQuery_returns (net : Network) (digits : float -> string)
    (q : string) (k : Z) (w : World) :
  exists (response : RAGResponse) (w' : World),
    processRAGQuery net digits q k w = (Normal response, w').
Proof.
  unfold processRAGQuery.
  set (run := processRAGQueryWith _ _ _ _).
  destruct (pipelineBody (search net)
              (fun rs q' => ret (buildContext digits rs q' 2000))
              (fun rs => ret (confidenceOf rs))
              (generateAnswer net digits) q k (clock w) w)
    as [[r|e] w1] eqn:Hbody.
  - exists r, w1. subst run. now apply run_when_body_returns.
  - destruct (run_when_body_throws _ _ _ _ q k w w1 e Hbody)
      as (w' & Hrun & _).
    subst run. eauto.
Qed.

Lemma processRAGQuery_never_throws_witness :
  exists (response : RAGResponse) (w' : World),
    processRAGQuery fieldless noDigits "data" 5 threeNotesWorld
    = (Normal response, w')
    /\ answer response
       = "I encountered an error while processing your query. Please try again or rephrase your question."
    /\ query (context response) = "data"
    /\ retrievedDocuments (context response) = []
    /\ contextWindow (context response) = ""
    /\ confidence (context response) = PrimFloat.zero
    /\ sources response = []
    /\ processingTime response = 7
    /\ console w' = console threeNotesWorld ++ ["RAG Pipeline Error:"].
Proof.
  destruct (processRAGQuery_never_throws
              (search fieldless)
              (fun rs q' => ret (buildContext noDigits rs q' 2000))
              (fun rs => ret (confidenceOf rs))
              (generateAnswer fieldless noDigits) "data" 5 threeNotesWorld)
    as (response & w' & Hrun & Hfailure).
  exists response, w'. split; [exact Hrun|].
  assert (Hthrows : exists e failed,
            search fieldless "data" 5 threeNotesWorld = (Throw e, failed)
            /\ clock failed - clock threeNotesWorld = 7
            /\ console failed = console threeNotesWorld)
    by (do 2 eexists; repeat split; vm_compute; reflexivity).
  destruct Hthrows as (e & failed & Hthrow & Helapsed & Hquiet).
  rewrite <- Helapsed, <- Hquiet.
  exact (Hfailure e failed (or_introl Hthrow)).
Defined.

(** An exception that does occur: a reply without an [embedding] field makes
    the query vector [undefined], [cosineSimilarity] throws a [TypeError] in
    [search], and the caller gets the fixed response, 7 ms after the start. *)
Lemma processRAGQuery_catches_TypeError :
  exists w w',
    runOps offline threeNotes freshWorld = (Normal tt, w)
    /\ fst (search fieldless "data" 5 w)
       = Throw (TypeError "Cannot read properties of undefined")
    /\ processRAGQuery fieldless noDigits "data" 5 w
       = (Normal (errorResponse "data" 7), w')
    /\ console w' = console w ++ ["RAG Pipeline Error:"].
Proof.
  do 2 eexists. split; [vm_compute; reflexivity|].
  split; [vm_compute; reflexivity|].
  split; vm_compute; reflexivity.
Qed.

(** C7.  With no document in the store, [processRAGQuery] answers with the
    insufficient-information message, which quotes the query, and reports
    confidence 0 and no sources; nothing is requested from either provider. *)
Theorem processRAGQuery_on_empty_store (net : Network)
    (digits : float -> string) (q : string) (k : Z) (w : World) :
  documents w = [] ->
  exists response,
    processRAGQuery net digits q k w = (Normal response, w)
    /\ confidence (context response) = PrimFloat.zero
    /\ sources response = []
    /\ answer response = insufficientInformation q
    /\ occursIn q (answer response).
Proof.
  intros Hempty.
  pose proof (VectorStoreFacts.search_without_documents net q k w Hempty)
    as Hs.
  unfold processRAGQuery, processRAGQueryWith, pipelineBody, bind, tryCatch,
    Date_now.
  rewrite Hs. unfold ret at 1. cbn [buildContext length Nat.eqb fst snd].
  unfold ret at 1. cbn [confidenceOf length Nat.ltb Nat.leb].
  unfold generateAnswer. rewrite String.eqb_refl. cbn [orb].
  unfold ret. eexists. split; [reflexivity|]. cbn.
  repeat split.
  unfold insufficientInformation, occursIn.
  eexists (_ +:+ JS.doubleQuote), _.
  rewrite StringFacts.append_assoc. reflexivity.
Qed.

Lemma processRAGQuery_on_empty_store_witness :
  documents freshWorld = []
  /\ exists response,
       processRAGQuery offline noDigits "what is data?" 5 freshWorld
       = (Normal response, freshWorld)
       /\ confidence (context response) = PrimFloat.zero
       /\ sources response = []
       /\ answer response = insufficientInformation "what is data?"
       /\ occursIn "what is data?" (answer response).
Proof.
  split; [reflexivity|].
  apply (processRAGQuery_on_empty_store offline noDigits "what is data?" 5
           freshWorld).
  reflexivity.
Defined.

End OrchestratorFacts.

(** ** Properties of the context builder *)

Module ContextFacts.
Import Effects VectorStore RagPipeline Props.

Lemma splitRuns_nonempty (cls : ascii -> bool) (s : string) :
  JS.splitRuns cls s <> [].
Proof.
  induction s as [|c s IH]; simpl; [discriminate|].
  destruct (cls c).
  - destruct (JS.startsWithClass cls s); [exact IH | discriminate].
  - destruct (JS.splitRuns cls s); discriminate.
Qed.

Lemma docTokens_positive (text : string) : 1 <= docTokens text.
Proof.
  unfold docTokens, JS.splitWhiteSpace.
  pose proof (splitRuns_nonempty JS.isWhiteSpace text) as H.
  destruct (JS.splitRuns JS.isWhiteSpace text); [contradiction|].
  simpl length. lia.
Qed.

Lemma tokensOf_nonneg (results : list SearchResult) : 0 <= tokensOf results.
Proof.
  induction results as [|r rs IH]; simpl; [lia|].
  pose proof (docTokens_positive (content (document r))). lia.
Qed.

Section WithDigits.
Context (digits : float -> string).

(** The loop appends the rendering of its plan to the context it starts
    from. *)
Lemma buildContextLoop_plan (sortedResults : list SearchResult)
    (maxTokens : Z) :
  forall context_ tokenCount,
    buildContextLoop digits sortedResults maxTokens context_ tokenCount
    = context_
      +:+ renderBlocks digits (planContext sortedResults maxTokens tokenCount).
Proof.
  induction sortedResults as [|r rs IH]; intros ctx tc; simpl.
  - now rewrite StringFacts.append_empty_r.
  - destruct (tc + docTokens (content (document r)) <=? maxTokens).
    + rewrite IH. simpl. now rewrite !StringFacts.append_assoc.
    + destruct (50 <? maxTokens - tc); simpl.
      * now rewrite !StringFacts.append_assoc, StringFacts.append_empty_r.
      * now rewrite StringFacts.append_empty_r.
Qed.

(** The plan never spends more than the budget that is left. *)
Lemma planContext_within_budget (sortedResults : list SearchResult)
    (maxTokens : Z) :
  forall tokenCount,
    tokenCount <= maxTokens ->
    tokenCount + placedTokens (planContext sortedResults maxTokens tokenCount)
    <= maxTokens.
Proof.
  induction sortedResults as [|r rs IH]; intros tc Htc; simpl; [lia|].
  destruct (Z.leb_spec (tc + docTokens (content (document r))) maxTokens)
    as [Hfit|Hover].
  - simpl. specialize (IH _ Hfit). unfold docTokens in *. lia.
  - destruct (Z.ltb_spec 50 (maxTokens - tc)) as [Hroom|Hnone]; simpl; [|lia].
    unfold JS.slice0. destruct (Z.ltb_spec (maxTokens - tc) 0); [lia|].
    rewrite length_firstn. lia.
Qed.

(** While documents fit as a whole, the loop takes them one after the other. *)
Lemma planContext_whole_prefix (pre rest : list SearchResult) (maxTokens : Z) :
  forall tokenCount,
    tokenCount + tokensOf pre <= maxTokens ->
    planContext (pre ++ rest) maxTokens tokenCount
    = map Whole pre
      ++ planContext rest maxTokens (tokenCount + tokensOf pre).
Proof.
  induction pre as [|r rs IH]; intros tc Hfit; simpl.
  - now rewrite Z.add_0_r.
  - simpl in Hfit. pose proof (tokensOf_nonneg rs).
    destruct (Z.leb_spec (tc + docTokens (content (document r))) maxTokens);
      [|lia].
    rewrite IH by lia. now rewrite Z.add_assoc.
Qed.

Lemma renderBlocks_app (xs ys : list Block) :
  renderBlocks digits (xs ++ ys)
  = renderBlocks digits xs +:+ renderBlocks digits ys.
Proof.
  induction xs as [|b xs IH]; simpl; [reflexivity|].
  now rewrite IH, StringFacts.append_assoc.
Qed.

(** C8, amended.  Let the sorted results be [pre ++ r :: post], where the
    documents of [pre] fit the budget as a whole and [r] is the first that
    does not.  The context is then made of the documents of [pre], followed,
    if and only if more than 50 tokens of budget are left, by the first
    [remaining] pieces of [r] joined by single spaces and an ellipsis; nothing
    of [post] is in it. *)
Theorem buildContext_at_overflow (results pre post : list SearchResult)
    (r : SearchResult) (q : string) (maxTokens : Z) :
  JS.sort bySimilarity results = pre ++ r :: post ->
  tokensOf pre <= maxTokens ->
  maxTokens < tokensOf pre + docTokens (content (document r)) ->
  fst (buildContext digits results q maxTokens)
  = JS.trim
      (renderBlocks digits (map Whole pre)
       +:+ (if 50 <? maxTokens - tokensOf pre
            then header digits r
                 +:+ (JS.join " "
                        (firstn (Z.to_nat (maxTokens - tokensOf pre))
                                (JS.splitWhiteSpace (content (document r))))
                      +:+ "...")
                 +:+ JS.lineFeed
            else "")).
Proof.
  intros Hsorted Hpre Hover. unfold buildContext.
  destruct results as [|r0 rs] eqn:Hres.
  { simpl in Hsorted. destruct pre; discriminate. }
  cbn [length Nat.eqb fst]. rewrite Hsorted.
  rewrite buildContextLoop_plan, StringFacts.append_nil.
  rewrite planContext_whole_prefix by lia.
  rewrite Z.add_0_l, renderBlocks_app. do 2 f_equal. cbn [planContext].
  destruct (Z.leb_spec (tokensOf pre + docTokens (content (document r)))
                       maxTokens); [lia|].
  destruct (Z.ltb_spec 50 (maxTokens - tokensOf pre)) as [Hroom|Hnone];
    [|reflexivity].
  cbn [renderBlocks renderBlock fold_right placedPieces]. unfold JS.slice0.
  destruct (Z.ltb_spec (maxTokens - tokensOf pre) 0); [lia|].
  now rewrite StringFacts.append_empty_r.
Qed.

End WithDigits.

Lemma buildContext_at_overflow_witness :
  JS.sort bySimilarity [sixtyWords; shortNote] = [shortNote] ++ sixtyWords :: []
  /\ tokensOf [shortNote] <= 58
  /\ 58 < tokensOf [shortNote] + docTokens (content (document sixtyWords))
  /\ fst (buildContext noDigits [sixtyWords; shortNote] "q" 58)
     = JS.trim
         (renderBlocks noDigits (map Whole [shortNote])
          +:+ (if 50 <? 58 - tokensOf [shortNote]
               then header noDigits sixtyWords
                    +:+ (JS.join " "
                           (firstn (Z.to_nat (58 - tokensOf [shortNote]))
                              (JS.splitWhiteSpace
                                 (content (document sixtyWords))))
                         +:+ "...")
                    +:+ JS.lineFeed
               else "")).
Proof.
  assert (Hsorted : JS.sort bySimilarity [sixtyWords; shortNote]
                    = [shortNote] ++ sixtyWords :: []) by reflexivity.
  assert (Hpre : tokensOf [shortNote] <= 58) by (vm_compute; discriminate).
  assert (Hover : 58 < tokensOf [shortNote]
                       + docTokens (content (document sixtyWords)))
    by (vm_compute; reflexivity).
  split; [exact Hsorted|]. split; [exact Hpre|]. split; [exact Hover|].
  exact (buildContext_at_overflow noDigits [sixtyWords; shortNote]
           [shortNote] [] sixtyWords "q" 58 Hsorted Hpre Hover).
Defined.

(** C8 as the specification words it, at its edge: a document of 51 tokens
    against a budget of 50 overflows with 50 tokens of budget left, "at least
    50", and yet no fragment is appended: the context stays empty. *)
Lemma no_fragment_with_50_tokens_left :
  docTokens (content (document fiftyOneWords)) = 51
  /\ 50 <= 50 - tokensOf []
  /\ buildContext noDigits [fiftyOneWords] "q" 50 = ("", [fiftyOneWords]).
Proof.
  split; [reflexivity|]. split; [vm_compute; discriminate|]. reflexivity.
Qed.

(** With one token more of budget the fragment is there. *)
Lemma fragment_with_51_tokens_left :
  whitespaceTokens
    (fst (buildContext noDigits [sixtyWords] "q" 51))
  = ["---"; "From"; JS.doubleQuote +:+ "essay" +:+ JS.doubleQuote; "(50%";
     "relevant)"; "---"] ++ repeat "w" 50 ++ ["w..."].
Proof. vm_compute. reflexivity. Qed.

(** C5, amended.  For a budget that is not negative, the context is the
    trimmed rendering of a plan of blocks, a block being a provenance header
    followed by a whole document or by the leading pieces of one, and the
    pieces of content that the plan places number at most [maxTokens].  The
    headers are not charged to the budget. *)
Theorem buildContext_content_within_budget (digits : float -> string)
    (results : list SearchResult) (q : string) (maxTokens : Z) :
  0 <= maxTokens ->
  fst (buildContext digits results q maxTokens)
  = JS.trim
      (renderBlocks digits
         (planContext (JS.sort bySimilarity results) maxTokens 0))
  /\ placedTokens (planContext (JS.sort bySimilarity results) maxTokens 0)
     <= maxTokens.
Proof.
  intros Hbudget. split.
  - unfold buildContext. destruct results as [|r rs]; [reflexivity|].
    cbn [length Nat.eqb fst].
    now rewrite buildContextLoop_plan, StringFacts.append_nil.
  - pose proof (planContext_within_budget
                  (JS.sort bySimilarity results) maxTokens 0 Hbudget).
    lia.
Qed.

Lemma buildContext_content_within_budget_witness :
  0 <= 58
  /\ fst (buildContext noDigits [sixtyWords; shortNote] "q" 58)
     = JS.trim
         (renderBlocks noDigits
            (planContext (JS.sort bySimilarity [sixtyWords; shortNote]) 58 0))
  /\ placedTokens
       (planContext (JS.sort bySimilarity [sixtyWords; shortNote]) 58 0)
     <= 58.
Proof.
  assert (H : 0 <= 58) by (vm_compute; discriminate).
  split; [exact H|].
  exact (buildContext_content_within_budget noDigits
           [sixtyWords; shortNote] "q" 58 H).
Defined.

(** C5 as the specification words it: a document of one word against a
    budget of one token.  The document fits, and the context that comes back
    has seven tokens, six of them the header's. *)
Lemma context_exceeds_budget_by_header :
  whitespaceTokens (fst (buildContext noDigits [oneWord] "q" 1))
  = ["---"; "From"; JS.doubleQuote +:+ "doc" +:+ JS.doubleQuote; "(50%";
     "relevant)"; "---"; "hello"]
  /\ whitespaceTokenCount (fst (buildContext noDigits [oneWord] "q" 1)) = 7
  /\ 1 < 7.
Proof.
  split; [vm_compute; reflexivity|]. split; reflexivity.
Qed.

End ContextFacts.

(** ** Properties of the query processor *)

Module QueryFacts.
Import Effects RagPipeline Props.

Lemma arrayIncludes_In (arr : list string) (x : string) :
  JS.arrayIncludes arr x = true <-> In x arr.
Proof.
  unfold JS.arrayIncludes. rewrite existsb_exists. split.
  - intros (y & Hy & E). apply String.eqb_eq in E. now subst.
  - intros H. exists x. split; [exact H | apply String.eqb_refl].
Qed.

Section Variants.
Context (baseQuery : string).

Lemma pushVariant_In (word synonym x : string) (expansions : list string) :
  In x (pushVariant baseQuery word expansions synonym)
  <-> In x expansions \/ x = JS.replaceFirst baseQuery word synonym.
Proof.
  unfold pushVariant.
  destruct (JS.arrayIncludes expansions _) eqn:E.
  - apply arrayIncludes_In in E. split; [auto|]. intros [H| ->]; assumption.
  - rewrite in_app_iff. simpl. intuition.
Qed.

Lemma pushVariant_NoDup (word synonym : string) (expansions : list string) :
  List.NoDup expansions ->
  List.NoDup (pushVariant baseQuery word expansions synonym).
Proof.
  intros ND. unfold pushVariant.
  destruct (JS.arrayIncludes expansions _) eqn:E; [exact ND|].
  apply List.NoDup_app; [exact ND | repeat constructor; intros [] |].
  intros x Hx [<-|[]]. apply arrayIncludes_In in Hx. congruence.
Qed.

Lemma pushVariant_head (word synonym first : string)
    (expansions : list string) :
  hd_error expansions = Some first ->
  hd_error (pushVariant baseQuery word expansions synonym) = Some first.
Proof.
  unfold pushVariant. destruct (JS.arrayIncludes expansions _); [auto|].
  destruct expansions; [discriminate | auto].
Qed.

(** The inner [forEach], for one word and its synonyms. *)
Lemma pushVariants (word first : string) (synonyms : list string) :
  forall expansions,
    List.NoDup expansions ->
    hd_error expansions = Some first ->
    List.NoDup (fold_left (pushVariant baseQuery word) synonyms expansions)
    /\ hd_error (fold_left (pushVariant baseQuery word) synonyms expansions)
       = Some first
    /\ forall x,
         In x (fold_left (pushVariant baseQuery word) synonyms expansions)
         <-> In x expansions
             \/ exists synonym,
                  In synonym synonyms
                  /\ x = JS.replaceFirst baseQuery word synonym.
Proof.
  induction synonyms as [|syn syns IH]; intros exps ND Hhd; simpl.
  - repeat split; auto. intros [H|[syn [[] _]]]. exact H.
  - destruct (IH (pushVariant baseQuery word exps syn)) as (ND' & Hhd' & Hin).
    + now apply pushVariant_NoDup.
    + now apply pushVariant_head.
    + repeat split; auto.
      * intros H. apply Hin in H. destruct H as [H|(syn' & Hs & ->)].
        -- apply pushVariant_In in H. destruct H as [H| ->]; eauto.
        -- eauto.
      * intros H. apply Hin. destruct H as [H|(syn' & [<-|Hs] & ->)].
        -- left. apply pushVariant_In. now left.
        -- left. apply pushVariant_In. now right.
        -- eauto.
Qed.

(** The outer [forEach], over words none of which is inherited. *)
Lemma expandWords_variants (first : string) (words : list string) :
  Forall (fun word => getSynonyms word <> Inherited) words ->
  forall expansions,
    List.NoDup expansions ->
    hd_error expansions = Some first ->
    exists result,
      expandWords baseQuery words expansions = Normal result
      /\ List.NoDup result
      /\ hd_error result = Some first
      /\ forall x,
           In x result
           <-> In x expansions
               \/ exists word synonyms synonym,
                    In word words
                    /\ getSynonyms word = Own synonyms
                    /\ In synonym synonyms
                    /\ x = JS.replaceFirst baseQuery word synonym.
Proof.
  induction 1 as [|word words Hword Hwords IH]; intros exps ND Hhd; simpl.
  - exists exps. repeat split; auto.
    intros [H|(w & syns & syn & [] & _)]. exact H.
  - destruct (getSynonyms word) as [syns| |] eqn:Hsyn.
    + destruct (pushVariants word first syns exps ND Hhd)
        as (ND1 & Hhd1 & Hin1).
      destruct (IH _ ND1 Hhd1) as (result & Hrun & ND2 & Hhd2 & Hin2).
      exists result. repeat split; auto.
      * intros H. apply Hin2 in H.
        destruct H as [H|(w & ss & sy & Hw & Hg & Hs & ->)].
        -- apply Hin1 in H. destruct H as [H|(sy & Hs & ->)]; [now left|].
           right. exists word, syns, sy. auto.
        -- right. exists w, ss, sy. auto.
      * intros H. apply Hin2.
        destruct H as [H|(w & ss & sy & [<-|Hw] & Hg & Hs & ->)].
        -- left. apply Hin1. now left.
        -- left. apply Hin1. right. exists sy.
           split; [congruence | reflexivity].
        -- right. exists w, ss, sy. auto.
    + contradiction.
    + destruct (IH _ ND Hhd) as (result & Hrun & ND2 & Hhd2 & Hin2).
      exists result. repeat split; auto.
      * intros H. apply Hin2 in H.
        destruct H as [H|(w & ss & sy & Hw & Hg & Hs & ->)]; [now left|].
        right. exists w, ss, sy. auto.
      * intros H. apply Hin2.
        destruct H as [H|(w & ss & sy & [<-|Hw] & Hg & Hs & ->)];
          [now left | congruence |].
        right. exists w, ss, sy. auto.
Qed.

End Variants.

(** C9, amended.  When no word of the preprocessed query names a member of
    [Object.prototype], [expandQuery] returns a list without duplicates whose
    first element is the preprocessed query, and whose elements are that query
    and, for every word of it with synonyms in the table and every such
    synonym, the result of [replace(word, synonym)] on it: the first
    occurrence of the word's letters gives way to the synonym, which is not
    always the token that was looked up.  For "data analysis" the list is the
    query and its six variants. *)
Theorem expandQuery_variants (q : string) :
  plainWords q ->
  (exists result,
     expandQuery q = Normal result
     /\ hd_error result = Some (preprocessQuery q)
     /\ List.NoDup result
     /\ forall x,
          In x result
          <-> x = preprocessQuery q
              \/ exists word synonyms synonym,
                   In word (JS.splitWhiteSpace (preprocessQuery q))
                   /\ getSynonyms word = Own synonyms
                   /\ In synonym synonyms
                   /\ x = JS.replaceFirst (preprocessQuery q) word synonym)
  /\ expandQuery "data analysis"
     = Normal ["data analysis"; "information analysis"; "content analysis";
               "facts analysis"; "data examination"; "data study";
               "data research"].
Proof.
  intros Hplain. split; [|vm_compute; reflexivity].
  unfold expandQuery.
  destruct (expandWords_variants (preprocessQuery q) (preprocessQuery q)
              (JS.splitWhiteSpace (preprocessQuery q)) Hplain
              [preprocessQuery q])
    as (result & Hrun & ND & Hhd & Hin).
  - repeat constructor. intros [].
  - reflexivity.
  - exists result. repeat split; auto.
    + intros H. apply Hin in H. destruct H as [[<-|[]]|H]; auto.
    + intros H. apply Hin. destruct H as [->|H]; [left; now left | now right].
Qed.

Lemma expandQuery_variants_witness :
  plainWords "data analysis"
  /\ (exists result,
        expandQuery "data analysis" = Normal result
        /\ hd_error result = Some (preprocessQuery "data analysis")
        /\ List.NoDup result
        /\ forall x,
             In x result
             <-> x = preprocessQuery "data analysis"
                 \/ exists word synonyms synonym,
                      In word (JS.splitWhiteSpace
                                 (preprocessQuery "data analysis"))
                      /\ getSynonyms word = Own synonyms
                      /\ In synonym synonyms
                      /\ x = JS.replaceFirst (preprocessQuery "data analysis")
                                             word synonym)
  /\ expandQuery "data analysis"
     = Normal ["data analysis"; "information analysis"; "content analysis";
               "facts analysis"; "data examination"; "data study";
               "data research"].
Proof.
  assert (H : plainWords "data analysis").
  { unfold plainWords.
    replace (JS.splitWhiteSpace (preprocessQuery "data analysis"))
      with ["data"; "analysis"] by (vm_compute; reflexivity).
    repeat constructor; vm_compute; discriminate. }
  split; [exact H|]. exact (expandQuery_variants "data analysis" H).
Defined.

(** C9 as the specification words it, on the query "data data": the second
    token is in the table, its variant for the synonym "information" would be
    "data information", and [expandQuery] does not return it: [replace] finds
    the first "data" each time, so both tokens yield the same variants. *)
Lemma second_token_never_substituted :
  preprocessQuery "data data" = "data data"
  /\ JS.splitWhiteSpace "data data" = ["data"; "data"]
  /\ getSynonyms "data" = Own ["information"; "content"; "facts"]
  /\ substituteToken ["data"; "data"] 1 "information" = "data information"
  /\ expandQuery "data data"
     = Normal ["data data"; "information data"; "content data"; "facts data"]
  /\ JS.arrayIncludes
       ["data data"; "information data"; "content data"; "facts data"]
       "data information" = false.
Proof.
  repeat (split; [vm_compute; reflexivity|]). vm_compute. reflexivity.
Qed.

(** The first occurrence need not be a token at all. *)
Lemma variant_inside_a_longer_word :
  expandQuery "metadata data"
  = Normal ["metadata data"; "metainformation data"; "metacontent data";
            "metafacts data"].
Proof. vm_compute. reflexivity. Qed.

(** A word that names a member of [Object.prototype] ends [expandQuery] with
    an exception: the lookup is truthy and has no [forEach]. *)
Lemma expandQuery_throws_on_inherited_name :
  preprocessQuery "the constructor" = "constructor"
  /\ expandQuery "the constructor"
     = Throw (TypeError "synonymMap[word].forEach is not a function").
Proof. split; vm_compute; reflexivity. Qed.

(** An example: stop words and words of at most two characters are
    dropped. *)
Lemma preprocessQuery_example :
  preprocessQuery "The quick fox in the box" = "quick fox box".
Proof. vm_compute. reflexivity. Qed.

End QueryFacts.

(** ** Properties of the lexical vectorizer *)

Module VectorizerFacts.
Import Effects VectorStore Props.

(** The counters of [wordFreq] count occurrences. *)
Lemma countWords_from (words : list string) :
  forall (wordFreq : gmap string Z) (word : string),
    default 0 (fold_left countWord words wordFreq !! word)
    = default 0 (wordFreq !! word) + occurrences word words.
Proof.
  unfold occurrences.
  induction words as [|w ws IH]; intros m word; simpl; [lia|].
  rewrite IH. unfold countWord.
  destruct (String.eqb_spec word w) as [->|Hne].
  - rewrite lookup_insert_eq. simpl. lia.
  - rewrite lookup_insert_ne by congruence. lia.
Qed.

Lemma countWords_lookup (words : list string) (word : string) :
  default 0 (countWords words !! word) = occurrences word words.
Proof.
  unfold countWords. rewrite countWords_from, lookup_empty. simpl. lia.
Qed.



(** The vector is the first 100 of the 104 quotients: nothing is padded. *)
Lemma textToVector_quotients (text : string) :
  textToVector text
  = firstn 100
      (map (fun word =>
              (JS.ofZ (occurrences word (wordsOf text))
               / JS.ofZ (Z.of_nat (length (wordsOf text))))%float)
           commonWords).
Proof.
  unfold textToVector, padTo100, JS.slice0. fold (wordsOf text).
  rewrite length_map. change (length commonWords) with 104%nat.
  cbn [Nat.sub repeat Z.ltb Z.compare]. rewrite app_nil_r.
  change (Z.to_nat 100) with 100%nat. f_equal.
  apply map_ext. intros word. now rewrite countWords_lookup.
Qed.



(** The two cases at work. *)
Lemma textToVector_examples :
  wordsOf "The data, the DATA and the system"
  = ["the"; "data"; "the"; "data"; "and"; "the"; "system"]
  /\ firstn 3 (textToVector "The data, the DATA and the system")
     = [(3 / 7)%float; (1 / 7)%float; 0%float]
  /\ wordsOf "?! ..." = []
  /\ textToVector "?! ..." = repeat PrimFloat.nan 100
  /\ textToVector "" = repeat PrimFloat.nan 100.
Proof. repeat split; vm_compute; reflexivity. Qed.

End VectorizerFacts.

(** ** Further properties of the vector store *)

Module StoreFacts.
Import Effects VectorStore RagPipeline Props Vocabulary VectorStoreFacts.

Lemma withId_app (j : string) (xs ys : list VectorDocument) :
  withId j (xs ++ ys) = withId j xs ++ withId j ys.
Proof. unfold withId. apply List.filter_app. Qed.

Lemma withId_withoutId_other (i j : string) (docs : list VectorDocument) :
  j <> i -> withId j (withoutId i docs) = withId j docs.
Proof.
  intros Hji. unfold withId, withoutId.
  induction docs as [|d docs IH]; [reflexivity|]. simpl.
  destruct (String.eqb_spec (id d) i) as [Hi|Hi]; simpl.
  - destruct (String.eqb_spec (id d) j) as [Hj|Hj]; [congruence|exact IH].
  - now rewrite IH.
Qed.

Lemma withoutId_absent (i : string) (docs : list VectorDocument) :
  ~ In i (map id docs) -> withoutId i docs = docs.
Proof.
  unfold withoutId. induction docs as [|d docs IH]; [reflexivity|].
  simpl. intros Hnot.
  destruct (String.eqb_spec (id d) i) as [Hi|Hi]; simpl.
  - exfalso. apply Hnot. now left.
  - f_equal. apply IH. intros Hin. apply Hnot. now right.
Qed.

Lemma withoutId_app (i : string) (xs ys : list VectorDocument) :
  withoutId i (xs ++ ys) = withoutId i xs ++ withoutId i ys.
Proof. unfold withoutId. apply List.filter_app. Qed.

Lemma withoutId_length (i : string) (docs : list VectorDocument) :
  (length (withoutId i docs) + length (withId i docs) = length docs)%nat.
Proof.
  unfold withoutId, withId. induction docs as [|d docs IH]; [reflexivity|].
  simpl. destruct (String.eqb (id d) i); simpl; lia.
Qed.

Lemma withId_NoDup_length (i : string) (docs : list VectorDocument) :
  List.NoDup (map id docs) -> (length (withId i docs) <= 1)%nat.
Proof.
  unfold withId. induction docs as [|d docs IH]; simpl; [lia|].
  intros Hnd. inversion Hnd as [|? ? Hnot Hnd']; subst.
  destruct (String.eqb_spec (id d) i) as [Hi|Hi]; [|auto].
  simpl. enough (List.filter (fun doc => String.eqb (id doc) i) docs = [])
    as -> by (simpl; lia).
  clear IH Hnd Hnd'. induction docs as [|e docs IH]; [reflexivity|].
  simpl. destruct (String.eqb_spec (id e) i) as [He|He].
  - exfalso. apply Hnot. left. congruence.
  - apply IH. intros Hin. apply Hnot. now right.
Qed.

(** X4.  [addDocument] returns the document it stores: the id, the content
    and the metadata are the ones given.  The store is afterwards what it
    was without the documents of that id, in the same order, followed by
    the new document; the new document is the only one of its id, the
    documents of every other id are untouched, and the store has grown by
    one document less the number of documents that had the id. *)
Theorem addDocument_appends_and_keeps_the_others (net : Network)
    (i c : string) (m : Metadata) (w : World) :
  exists d w',
    addDocument net i c m w = (Normal d, w')
    /\ id d = i /\ content d = c /\ metadata d = m
    /\ documents w' = withoutId i (documents w) ++ [d]
    /\ withId i (documents w') = [d]
    /\ (forall j, j <> i ->
          withId j (documents w') = withId j (documents w))
    /\ (length (documents w') + length (withId i (documents w))
        = length (documents w) + 1)%nat.
Proof.
  destruct (addDocument_runs net i c m w) as (e & w' & Hrun & Hdocs).
  eexists _, w'. split; [exact Hrun|]. simpl.
  repeat (split; [reflexivity|]). split; [exact Hdocs|].
  rewrite Hdocs. split; [|split].
  - now apply withId_snoc_same.
  - intros j Hji. rewrite withId_app, withId_withoutId_other by exact Hji.
    simpl. destruct (String.eqb_spec i j) as [Hij|Hij]; [congruence|].
    apply app_nil_r.
  - rewrite length_app. simpl.
    pose proof (withoutId_length i (documents w)). lia.
Qed.


Lemma removeDocument_eq (i : string) (w : World) :
  removeDocument i w
  = (Normal (length (withoutId i (documents w)) <? length (documents w))%nat,
     {| documents := withoutId i (documents w); clock := clock w;
        sent := sent w; console := console w |}).
Proof. reflexivity. Qed.

Lemma removeDocument_absent (i : string) (w : World) :
  ~ In i (map id (documents w)) -> removeDocument i w = (Normal false, w).
Proof.
  intros Hnot. unfold removeDocument, bind, getDocuments, setDocuments, ret.
  simpl. rewrite (withoutId_absent i _ Hnot). rewrite Nat.ltb_irrefl.
  now destruct w.
Qed.

(** X5.  Adding a document under an id the store does not hold and removing
    it again gives the store back as it was: [removeDocument] returns
    [true], the documents are the same in the same order, and removing the
    id once more returns [false] and changes nothing. *)
Theorem addDocument_then_removeDocument (net : Network) (i c : string)
    (m : Metadata) (w : World) :
  ~ In i (map id (documents w)) ->
  exists w',
    (let! _ := addDocument net i c m in removeDocument i) w
    = (Normal true, w')
    /\ documents w' = documents w
    /\ removeDocument i w' = (Normal false, w').
Proof.
  intros Hnot.
  destruct (addDocument_runs net i c m w) as (e & w1 & Hadd & Hdocs).
  assert (Hback : withoutId i (documents w1) = documents w).
  { rewrite Hdocs, withoutId_app, (withoutId_absent i _ Hnot).
    rewrite (withoutId_absent i (documents w) Hnot).
    unfold withoutId. simpl. rewrite String.eqb_refl. simpl.
    apply app_nil_r. }
  eexists. unfold bind at 1. rewrite Hadd, removeDocument_eq.
  split.
  - f_equal. f_equal. rewrite Hback, Hdocs, length_app. simpl.
    rewrite (withoutId_absent i _ Hnot). apply Nat.ltb_lt. lia.
  - simpl. split; [exact Hback|].
    apply removeDocument_absent. simpl. now rewrite Hback.
Qed.

Lemma addDocument_then_removeDocument_witness :
  ~ In "9" (map id (documents threeNotesWorld))
  /\ exists w',
       (let! _ := addDocument offline "9" "new data" (textNamed "ninth") in
        removeDocument "9") threeNotesWorld
       = (Normal true, w')
       /\ documents w' = documents threeNotesWorld
       /\ removeDocument "9" w' = (Normal false, w').
Proof.
  assert (H : ~ In "9" (map id (documents threeNotesWorld))).
  { vm_compute. intros [H|[H|[H|[]]]]; discriminate H. }
  split; [exact H|].
  exact (addDocument_then_removeDocument offline "9" "new data"
           (textNamed "ninth") threeNotesWorld H).
Defined.

Lemma scoreAll_documents (qv : Embedding) (docs : list VectorDocument)
    (scored : list SearchResult) :
  scoreAll qv docs = Normal scored -> map document scored = docs.
Proof.
  unfold scoreAll. revert scored.
  induction docs as [|d docs IH]; intros scored; simpl.
  - now intros [= <-].
  - destruct (cosineSimilarity qv (embedding d)); [|discriminate].
    destruct (mapCompletion _ docs); [|discriminate].
    intros [= <-]. simpl. f_equal. now apply IH.
Qed.

Lemma scoreAll_undefined (qv : Embedding) (docs : list VectorDocument) :
  Exists (fun doc => embedding doc = EmbeddingUndefined) docs ->
  scoreAll qv docs = Throw (TypeError "Cannot read properties of undefined").
Proof.
  unfold scoreAll. induction 1 as [d docs Hd|d docs _ IH]; simpl.
  - rewrite Hd. unfold cosineSimilarity. now destruct qv.
  - unfold cosineSimilarity at 1.
    destruct qv; [destruct (embedding d)|]; try reflexivity.
    now rewrite IH.
Qed.


Lemma sublist_In {A} (l1 l2 : list A) (x : A) :
  sublist l1 l2 -> In x l1 -> In x l2.
Proof.
  intros Hsub Hin. apply list_elem_of_In. apply list_elem_of_In in Hin.
  eapply elem_of_sublist; eauto.
Qed.

Lemma NoDup_map_sublist {A B} (f : A -> B) (l1 l2 : list A) :
  sublist l1 l2 -> List.NoDup (map f l2) -> List.NoDup (map f l1).
Proof.
  induction 1 as [|x l1 l2 Hsub IH|x l1 l2 Hsub IH]; simpl; intros Hnd.
  - constructor.
  - inversion Hnd as [|? ? Hnot Hnd']; subst. constructor; [|auto].
    intros Hin. apply Hnot. apply in_map_iff in Hin as (y & Hy & Hin).
    apply in_map_iff. exists y. split; [exact Hy|].
    eapply sublist_In; eauto.
  - inversion Hnd; subst. auto.
Qed.

Lemma insertSorted_Permutation {A} (f : A -> A -> float) (x : A)
    (l : list A) :
  Permutation (JS.insertSorted f x l) (x :: l).
Proof.
  induction l as [|y l IH]; simpl; [reflexivity|].
  destruct (JS.sortOrder (f x y)); try reflexivity.
  rewrite IH. apply perm_swap.
Qed.

Lemma sort_Permutation {A} (f : A -> A -> float) (l : list A) :
  Permutation (JS.sort f l) l.
Proof.
  induction l as [|x l IH]; [reflexivity|].
  change (JS.sort f (x :: l)) with (JS.insertSorted f x (JS.sort f l)).
  rewrite insertSorted_Permutation. now constructor.
Qed.

Lemma slice0_sublist {A} (l : list A) (k : Z) : sublist (JS.slice0 l k) l.
Proof. unfold JS.slice0. destruct (k <? 0); apply sublist_take. Qed.

(** What [search] returns is cut out of the sorted scores. *)
Lemma ranked_sublist (scored : list SearchResult) (k : Z) :
  sublist
    (List.filter (fun r => PrimFloat.ltb lowSimilarity (similarity r))
                 (JS.slice0 (JS.sort bySimilarity scored) k))
    (JS.sort bySimilarity scored).
Proof.
  etransitivity; [apply RankingFacts.sublist_filter_bool|].
  apply slice0_sublist.
Qed.

(** How a search that returns came by its results. *)
Lemma search_returns (net : Network) (q : string) (k : Z) (w w1 : World)
    (results : list SearchResult) :
  search net q k w = (Normal results, w1) ->
  (documents w = [] /\ results = [] /\ w1 = w)
  \/ (documents w <> []
      /\ exists qv scored,
           generateEmbedding net q w = (Normal qv, w1)
           /\ scoreAll qv (documents w) = Normal scored
           /\ results
              = List.filter
                  (fun r => PrimFloat.ltb lowSimilarity (similarity r))
                  (JS.slice0 (JS.sort bySimilarity scored) k)).
Proof.
  intros Hsearch. destruct (documents w) as [|d ds] eqn:Hd.
  - left. rewrite (search_without_documents net q k w Hd) in Hsearch.
    injection Hsearch as <- <-. auto.
  - right. split; [discriminate|].
    destruct (search_on_documents net q k w)
      as (qv & w1' & Hgen & _ & _ & E); [rewrite Hd; discriminate|].
    rewrite E, Hd in Hsearch.
    destruct (scoreAll qv (d :: ds)) as [scored|e] eqn:Hscore;
      [|discriminate].
    injection Hsearch as <- <-. exists qv, scored. auto.
Qed.

Lemma search_results_stored (net : Network) (q : string) (k : Z)
    (w w1 : World) (results : list SearchResult) :
  search net q k w = (Normal results, w1) ->
  Forall (fun r => In (document r) (documents w)) results
  /\ (List.NoDup (map id (documents w)) ->
      List.NoDup (map (fun r => id (document r)) results)).
Proof.
  intros Hsearch.
  destruct (search_returns _ _ _ _ _ _ Hsearch)
    as [(_ & -> & _)|(_ & qv & scored & _ & Hscore & ->)].
  { split; constructor. }
  pose proof (scoreAll_documents _ _ _ Hscore) as Hmap.
  pose proof (ranked_sublist scored k) as Hsub.
  split.
  - apply List.Forall_forall. intros r Hin.
    apply (sublist_In _ _ _ Hsub) in Hin.
    apply (Permutation_in _ (sort_Permutation _ _)) in Hin.
    rewrite <- Hmap. now apply in_map.
  - intros Hnd. apply (NoDup_map_sublist _ _ _ Hsub).
    apply (Permutation_NoDup
             (Permutation_map _ (Permutation_sym (sort_Permutation _ _)))).
    rewrite <- (map_map document id), Hmap. exact Hnd.
Qed.

Lemma search_results_above_cutoff (net : Network) (q : string) (k : Z)
    (w w1 : World) (results : list SearchResult) :
  search net q k w = (Normal results, w1) ->
  Forall (fun r => PrimFloat.ltb lowSimilarity (similarity r) = true) results
  /\ (0 <= k -> Z.of_nat (length results) <= k).
Proof.
  intros Hsearch.
  destruct (search_returns _ _ _ _ _ _ Hsearch)
    as [(_ & -> & _)|(_ & qv & scored & _ & Hscore & ->)].
  { split; [constructor|simpl; lia]. }
  split.
  - apply List.Forall_forall. intros r Hr. now apply List.filter_In in Hr.
  - intros Hk. etransitivity.
    + apply Nat2Z.inj_le. apply List.filter_length_le.
    + unfold JS.slice0. destruct (Z.ltb_spec k 0); [lia|].
      rewrite length_firstn. lia.
Qed.

Lemma search_effects (net : Network) (q : string) (k : Z) (w : World) :
  documents (snd (search net q k w)) = documents w
  /\ sent (snd (search net q k w))
     = (if (length (documents w) =? 0)%nat then sent w
        else sent w ++ [PostEmbeddings q]).
Proof.
  destruct (documents w) as [|d ds] eqn:Hd.
  - rewrite (search_without_documents net q k w Hd). simpl. auto.
  - assert (Hne : documents w <> []) by (rewrite Hd; discriminate).
    destruct (search_on_documents net q k w Hne)
      as (qv & w1 & Hgen & Hdocs & Hsent & Hsearch).
    rewrite Hsearch. cbn [fst snd length Nat.eqb].
    rewrite Hdocs, Hsent, Hd. auto.
Qed.

(** X6.  [search] only reads the store: whether it returns or throws, the
    documents are afterwards what they were.  It sends nothing when the
    store is empty and exactly one request, for the embedding of the query,
    otherwise.  Every result it returns carries a document of the store,
    and when the ids of the store are distinct no document is returned
    twice. *)
Theorem search_only_reads_the_store (net : Network) (q : string) (k : Z)
    (w : World) :
  documents (snd (search net q k w)) = documents w
  /\ sent (snd (search net q k w))
     = (if (length (documents w) =? 0)%nat then sent w
        else sent w ++ [PostEmbeddings q])
  /\ forall results,
       fst (search net q k w) = Normal results ->
       Forall (fun r => In (document r) (documents w)) results
       /\ (List.NoDup (map id (documents w)) ->
           List.NoDup (map (fun r => id (document r)) results)).
Proof.
  destruct (search_effects net q k w) as (Hdocs & Hsent).
  split; [exact Hdocs|]. split; [exact Hsent|].
  intros results Hres.
  apply (search_results_stored net q k w (snd (search net q k w))).
  rewrite <- Hres. now destruct (search net q k w).
Qed.

(** X7.  One document whose embedding is [undefined] (the provider answered
    with a body that has no [embedding] field) makes every [search] on the
    store throw a [TypeError], whatever the query, [topK] and the provider's
    answer for the query; [processRAGQuery] then returns the error response
    and leaves the store as it is. *)
Theorem undefined_embedding_fails_every_search (net : Network)
    (digits : float -> string) (q : string) (k : Z) (w : World) :
  Exists (fun doc => embedding doc = EmbeddingUndefined) (documents w) ->
  exists w1 w2,
    search net q k w
    = (Throw (TypeError "Cannot read properties of undefined"), w1)
    /\ processRAGQuery net digits q k w
       = (Normal (errorResponse q (clock w1 - clock w)), w2)
    /\ documents w2 = documents w.
Proof.
  intros Hex.
  assert (Hne : documents w <> []).
  { intros Hnil. rewrite Hnil in Hex. inversion Hex. }
  destruct (search_on_documents net q k w Hne)
    as (qv & w1 & Hgen & Hdocs & Hsent & Hsearch).
  rewrite (scoreAll_undefined qv _ Hex) in Hsearch.
  exists w1.
  assert (Hbody :
    pipelineBody (search net)
      (fun rs q' => ret (buildContext digits rs q' 2000))
      (fun rs => ret (confidenceOf rs))
      (generateAnswer net digits) q k (clock w) w
    = (Throw (TypeError "Cannot read properties of undefined"), w1)).
  { unfold pipelineBody, bind. now rewrite Hsearch. }
  destruct (OrchestratorFacts.run_when_body_throws _ _ _ _ q k w w1 _ Hbody)
    as (w2 & Hrun & Hclock & Hconsole).
  exists w2. split; [exact Hsearch|]. split; [exact Hrun|].
  unfold processRAGQueryWith, bind, tryCatch, Date_now in Hrun.
  rewrite Hbody in Hrun.
  unfold pipelineHandler, bind, consoleLog, Date_now, ret in Hrun.
  simpl in Hrun. injection Hrun as <-. simpl. exact Hdocs.
Qed.

Lemma undefined_embedding_fails_every_search_witness :
  Exists (fun doc => embedding doc = EmbeddingUndefined)
         (documents fieldlessWorld)
  /\ exists w1 w2,
       search offline "data" 5 fieldlessWorld
       = (Throw (TypeError "Cannot read properties of undefined"), w1)
       /\ processRAGQuery offline noDigits "data" 5 fieldlessWorld
          = (Normal (errorResponse "data" (clock w1 - clock fieldlessWorld)),
             w2)
       /\ documents w2 = documents fieldlessWorld.
Proof.
  assert (H : Exists (fun doc => embedding doc = EmbeddingUndefined)
                     (documents fieldlessWorld)).
  { apply List.Exists_cons_hd. reflexivity. }
  split; [exact H|].
  exact (undefined_embedding_fails_every_search offline noDigits "data" 5
           fieldlessWorld H).
Defined.

End StoreFacts.

(** ** Further properties of the pipeline *)

Module PipelineFacts.
Import Effects VectorStore RagPipeline Props Vocabulary.
Import OrderFacts RankingFacts StoreFacts.

Lemma above_cutoff_isNumber (r : SearchResult) :
  PrimFloat.ltb lowSimilarity (similarity r) = true -> isNumber r.
Proof.
  intros Hlt. rewrite FloatAxioms.ltb_spec in Hlt.
  unfold isNumber, PrimFloat.is_nan. rewrite FloatAxioms.eqb_spec.
  unfold SFltb, SFeqb in *.
  destruct (Prim2SF (similarity r)); try reflexivity.
  - rewrite Bool.negb_false_iff. destruct s; reflexivity.
  - destruct (Prim2SF lowSimilarity); discriminate.
  - rewrite Bool.negb_false_iff. simpl. destruct s.
    + now rewrite Z.compare_refl, Pos.compare_cont_refl.
    + now rewrite Z.compare_refl, Pos.compare_cont_refl.
Qed.

Lemma sort_highest_first (l : list SearchResult) :
  Forall isNumber l -> highestFirst (JS.sort bySimilarity l).
Proof.
  intros Hnum.
  pose proof (sort_good bySimilarity isNumber l Hnum) as Hgood.
  rewrite List.Forall_forall in Hgood.
  apply (StronglySorted_impl_In (byKey rankOf)).
  - intros a b Ha Hb Hab. apply leb_of_ranks; auto.
  - now apply (sort_sorted bySimilarity rankOf isNumber bySimilarity_order).
Qed.

Lemma nonempty_append_l (s t : string) : s <> "" -> s +:+ t <> "".
Proof. destruct s; [congruence|discriminate]. Qed.

Lemma insufficientInformation_nonempty (q : string) :
  insufficientInformation q <> "".
Proof. unfold insufficientInformation. discriminate. Qed.

Lemma extractiveAnswer_nonempty (digits : float -> string) (q ctx : string)
    (srcs : list SearchResult) :
  extractiveAnswer digits q ctx srcs <> "".
Proof.
  unfold extractiveAnswer. repeat apply nonempty_append_l.
  destruct (0 <? length _)%nat; repeat apply nonempty_append_l; discriminate.
Qed.

(** X8.  [generateAnswer] never throws and never answers with the empty
    string.  It leaves the store alone.  With an empty context or without
    sources it sends nothing; otherwise it sends exactly one request to the
    chat endpoint, with the query and the context. *)
Theorem generateAnswer_always_answers (net : Network)
    (digits : float -> string) (q ctx : string) (srcs : list SearchResult)
    (w : World) :
  exists a w',
    generateAnswer net digits q ctx srcs w = (Normal a, w')
    /\ a <> ""
    /\ documents w' = documents w
    /\ sent w'
       = (if String.eqb ctx "" || (length srcs =? 0)%nat then sent w
          else sent w ++ [PostChat q ctx])
    /\ clock w'
       = (if String.eqb ctx "" || (length srcs =? 0)%nat then clock w
          else clock w + roundTrip net w (PostChat q ctx)).
Proof.
  unfold generateAnswer.
  destruct (String.eqb ctx "" || (length srcs =? 0)%nat).
  - eexists _, w. split; [reflexivity|].
    auto using insufficientInformation_nonempty.
  - unfold bind, postChat.
    destruct (chatApi net w q ctx) as [|[text|]].
    + eexists _, _. split; [reflexivity|]. simpl.
      auto using extractiveAnswer_nonempty.
    + destruct (String.eqb_spec text "") as [->|Hne].
      * eexists _, _. split; [reflexivity|]. simpl.
        repeat split; discriminate.
      * eexists _, _. split; [reflexivity|]. simpl. auto.
    + eexists _, _. split; [reflexivity|]. simpl. repeat split; discriminate.
Qed.


(** The two ways [processRAGQuery] ends. *)
Lemma processRAGQuery_cases (net : Network) (digits : float -> string)
    (q : string) (k : Z) (w : World) :
  (exists results w1 a w2,
     search net q k w = (Normal results, w1)
     /\ generateAnswer net digits q
          (fst (buildContext digits results q 2000))
          (snd (buildContext digits results q 2000)) w1
        = (Normal a, w2)
     /\ processRAGQuery net digits q k w
        = (Normal
             {| answer := a;
                context :=
                  {| query := q;
                     retrievedDocuments :=
                       snd (buildContext digits results q 2000);
                     contextWindow :=
                       fst (buildContext digits results q 2000);
                     confidence :=
                       confidenceOf (snd (buildContext digits results q 2000))
                  |};
                sources := snd (buildContext digits results q 2000);
                processingTime := clock w2 - clock w |}, w2))
  \/ (exists e w1,
        search net q k w = (Throw e, w1)
        /\ processRAGQuery net digits q k w
           = (Normal (errorResponse q (clock w1 - clock w)),
              {| documents := documents w1; clock := clock w1;
                 sent := sent w1;
                 console := console w1 ++ ["RAG Pipeline Error:"] |})).
Proof.
  destruct (search net q k w) as [[results|e] w1] eqn:Hs.
  - left.
    destruct (generateAnswer_always_answers net digits q
                (fst (buildContext digits results q 2000))
                (snd (buildContext digits results q 2000)) w1)
      as (a & w2 & Hgen & _).
    exists results, w1, a, w2. split; [reflexivity|]. split; [exact Hgen|].
    unfold processRAGQuery, processRAGQueryWith, bind, tryCatch, Date_now.
    unfold pipelineBody, bind. rewrite Hs. unfold ret at 1 2.
    cbn beta iota. rewrite Hgen. reflexivity.
  - right. exists e, w1. split; [reflexivity|].
    unfold processRAGQuery, processRAGQueryWith, bind, tryCatch, Date_now.
    unfold pipelineBody, bind. rewrite Hs. reflexivity.
Qed.

Lemma buildContext_sorts (digits : float -> string)
    (results : list SearchResult) (q : string) (maxTokens : Z) :
  snd (buildContext digits results q maxTokens)
  = JS.sort bySimilarity results.
Proof.
  unfold buildContext. destruct results; reflexivity.
Qed.


Lemma trim_keeps_ink (c : ascii) (s : string) :
  JS.isWhiteSpace c = false -> JS.trim (String c s) <> "".
Proof.
  intros Hc. unfold JS.trim. simpl. rewrite Hc. simpl. rewrite Hc. simpl.
  discriminate.
Qed.

Lemma header_starts (digits : float -> string) (r : SearchResult) :
  exists rest, header digits r = JS.lineFeed +:+ String "-" rest.
Proof.
  unfold header. eexists. reflexivity.
Qed.

Lemma trim_after_lineFeed (s : string) :
  JS.trim (JS.lineFeed +:+ String "-" s) <> "".
Proof.
  unfold JS.trim.
  change (JS.trimStart (JS.lineFeed +:+ String "-" s)) with (String "-" s).
  simpl. discriminate.
Qed.

(** With a budget of more than 50 tokens the context of a result list that
    is not empty starts with the header of the best result. *)
Lemma buildContext_nonempty (digits : float -> string)
    (results : list SearchResult) (q : string) (maxTokens : Z) :
  50 < maxTokens -> results <> [] ->
  fst (buildContext digits results q maxTokens) <> "".
Proof.
  intros Hmax Hne. unfold buildContext.
  destruct results as [|r0 results0] eqn:Hres; [contradiction|].
  cbn [length Nat.eqb fst]. rewrite <- Hres.
  rewrite ContextFacts.buildContextLoop_plan, StringFacts.append_nil.
  destruct (JS.sort bySimilarity results) as [|r rest] eqn:Hsort.
  { pose proof (Permutation_length (sort_Permutation bySimilarity results))
      as Hlen.
    rewrite Hsort, Hres in Hlen. discriminate. }
  assert (Hblock : exists b bs,
            planContext (r :: rest) maxTokens 0 = b :: bs
            /\ exists tail, renderBlock digits b
                            = header digits r +:+ tail).
  { cbn [planContext]. rewrite Z.add_0_l, Z.sub_0_r.
    destruct (_ <=? maxTokens).
    - eexists _, _. split; [reflexivity|]. simpl. eauto.
    - destruct (Z.ltb_spec 50 maxTokens); [|lia].
      eexists _, _. split; [reflexivity|]. simpl. eauto. }
  destruct Hblock as (b & bs & -> & tail & Hb). simpl. rewrite Hb.
  destruct (header_starts digits r) as (rest' & ->).
  rewrite !StringFacts.append_assoc, StringFacts.append_cons.
  apply trim_after_lineFeed.
Qed.


(** X9.  [processRAGQuery] leaves the store as it is, and its processing
    time is the clock at its end less the clock at its start.  On an empty
    store it sends nothing.  Otherwise it asks once for the embedding of the
    query and then, exactly when the response has sources, once for the
    answer, with the query and the context window of the response. *)
Theorem processRAGQuery_requests (net : Network) (digits : float -> string)
    (q : string) (k : Z) (w : World) :
  exists response w',
    processRAGQuery net digits q k w = (Normal response, w')
    /\ documents w' = documents w
    /\ processingTime response = clock w' - clock w
    /\ sent w'
       = sent w
         ++ (if (length (documents w) =? 0)%nat then []
             else PostEmbeddings q
                  :: match sources response with
                     | [] => []
                     | _ :: _ =>
                         [PostChat q (contextWindow (context response))]
                     end).
Proof.
  destruct (search_effects net q k w) as (Hdocs & Hsent).
  destruct (processRAGQuery_cases net digits q k w)
    as [(results & w1 & a & w2 & Hs & Hgen & ->)
       |(e & w1 & Hs & ->)];
    rewrite Hs in Hdocs, Hsent; cbn [fst snd] in Hdocs, Hsent.
  - eexists _, _. split; [reflexivity|]. cbn [sources context contextWindow
      processingTime].
    destruct (generateAnswer_always_answers net digits q
                (fst (buildContext digits results q 2000))
                (snd (buildContext digits results q 2000)) w1)
      as (a' & w2' & Hgen' & _ & Hdocs2 & Hsent2 & _).
    rewrite Hgen in Hgen'. injection Hgen' as <- <-.
    split; [congruence|]. split; [reflexivity|].
    rewrite Hsent2, Hsent. rewrite buildContext_sorts.
    destruct results as [|r results].
    + simpl. destruct (length (documents w) =? 0)%nat.
      * now rewrite app_nil_r.
      * reflexivity.
    + assert (Hctx : fst (buildContext digits (r :: results) q 2000) <> "")
        by (apply buildContext_nonempty; [lia|discriminate]).
      apply String.eqb_neq in Hctx. rewrite Hctx.
      destruct (JS.sort bySimilarity (r :: results)) as [|r' rest] eqn:Hsort.
      { pose proof (Permutation_length
                      (sort_Permutation bySimilarity (r :: results))) as Hlen.
        rewrite Hsort in Hlen. discriminate. }
      cbn [length Nat.eqb orb].
      destruct (length (documents w) =? 0)%nat eqn:Hempty.
      * exfalso. apply Nat.eqb_eq in Hempty.
        destruct (search_returns _ _ _ _ _ _ Hs)
          as [(_ & Hnil & _)|(Hne & _)]; [discriminate|].
        destruct (documents w); [contradiction|discriminate].
      * now rewrite <- app_assoc.
  - eexists _, _. split; [reflexivity|]. cbn [documents sent clock sources
      errorResponse processingTime].
    split; [exact Hdocs|]. split; [reflexivity|].
    rewrite Hsent. destruct (length (documents w) =? 0)%nat; [|reflexivity].
    now rewrite app_nil_r.
Qed.

(** X10.  The sources of a response of [processRAGQuery] come highest
    first, whatever is in the store: [buildContext] sorts, in place, what
    [search] returned, and none of that is [NaN].  There are at most [topK]
    of them, each with a similarity above 0.1 and a document of the store;
    they are the retrieved documents of the context; the answer is not
    empty; and without sources the context window is empty and the
    confidence is 0. *)
Theorem processRAGQuery_sources_highest_first (net : Network)
    (digits : float -> string) (q : string) (k : Z) (w : World) :
  0 <= k ->
  exists response w',
    processRAGQuery net digits q k w = (Normal response, w')
    /\ highestFirst (sources response)
    /\ Z.of_nat (length (sources response)) <= k
    /\ Forall
         (fun r => PrimFloat.ltb lowSimilarity (similarity r) = true
                   /\ In (document r) (documents w))
         (sources response)
    /\ retrievedDocuments (context response) = sources response
    /\ query (context response) = q
    /\ answer response <> ""
    /\ (sources response = [] ->
        contextWindow (context response) = ""
        /\ confidence (context response) = PrimFloat.zero).
Proof.
  intros Hk.
  destruct (processRAGQuery_cases net digits q k w)
    as [(results & w1 & a & w2 & Hs & Hgen & ->)
       |(e & w1 & Hs & ->)].
  - eexists _, _. split; [reflexivity|].
    cbn [sources context contextWindow retrievedDocuments confidence query
         answer].
    destruct (search_results_above_cutoff _ _ _ _ _ _ Hs) as (Habove & Hlen).
    destruct (search_results_stored _ _ _ _ _ _ Hs) as (Hstored & _).
    destruct (generateAnswer_always_answers net digits q
                (fst (buildContext digits results q 2000))
                (snd (buildContext digits results q 2000)) w1)
      as (a' & w2' & Hgen' & Ha & _).
    rewrite Hgen in Hgen'. injection Hgen' as <- <-.
    rewrite buildContext_sorts.
    pose proof (sort_Permutation bySimilarity results) as Hperm.
    split; [|split; [|split; [|split; [|split; [|split]]]]];
      try reflexivity.
    + apply sort_highest_first.
      eapply List.Forall_impl; [|exact Habove].
      intros r. apply above_cutoff_isNumber.
    + rewrite (Permutation_length Hperm). auto.
    + apply List.Forall_forall. intros r Hin.
      apply (Permutation_in _ Hperm) in Hin.
      rewrite List.Forall_forall in Habove, Hstored. auto.
    + exact Ha.
    + intros Hnil. rewrite Hnil in Hperm.
      apply Permutation_nil in Hperm. subst results.
      split; reflexivity.
  - eexists _, _. split; [reflexivity|]. cbn.
    repeat split; try constructor; try lia. discriminate.
Qed.

Lemma processRAGQuery_sources_highest_first_witness :
  0 <= 5
  /\ exists response w',
       processRAGQuery offline noDigits "data" 5 threeNotesWorld
       = (Normal response, w')
       /\ highestFirst (sources response)
       /\ Z.of_nat (length (sources response)) <= 5
       /\ Forall
            (fun r => PrimFloat.ltb lowSimilarity (similarity r) = true
                      /\ In (document r) (documents threeNotesWorld))
            (sources response)
       /\ retrievedDocuments (context response) = sources response
       /\ query (context response) = "data"
       /\ answer response <> ""
       /\ (sources response = [] ->
           contextWindow (context response) = ""
           /\ confidence (context response) = PrimFloat.zero).
Proof.
  assert (H : 0 <= 5) by lia.
  split; [exact H|].
  exact (processRAGQuery_sources_highest_first offline noDigits "data" 5
           threeNotesWorld H).
Defined.


Lemma tokensOf_Permutation (xs ys : list SearchResult) :
  Permutation xs ys -> tokensOf xs = tokensOf ys.
Proof.
  induction 1; simpl; try lia.
Qed.

(** X11.  When the similarity of every result is a number and the
    documents of all results together are within the budget, [buildContext]
    takes every one of them whole: the context is made of the header and
    the content of each result, highest similarity first and results of
    equal similarity in the order they came in, and nothing is cut or left
    out.  The array it leaves behind is the results in that order. *)
Theorem buildContext_takes_all_that_fits (digits : float -> string)
    (results : list SearchResult) (q : string) (maxTokens : Z) :
  Forall isNumber results ->
  tokensOf results <= maxTokens ->
  exists sorted : list SearchResult,
    buildContext digits results q maxTokens
    = (JS.trim (renderBlocks digits (map Whole sorted)), sorted)
    /\ Permutation results sorted
    /\ highestFirst sorted
    /\ forall v, tiedAt v sorted = tiedAt v results.
Proof.
  intros Hnum Hfit.
  pose proof (sort_Permutation bySimilarity results) as Hperm.
  exists (JS.sort bySimilarity results).
  split; [|split; [now symmetry|split; [now apply sort_highest_first|]]].
  - unfold buildContext. destruct results as [|r0 results0] eqn:Hres;
      [reflexivity|].
    cbn [length Nat.eqb]. rewrite <- Hres in *. f_equal.
    rewrite ContextFacts.buildContextLoop_plan, StringFacts.append_nil.
    f_equal. f_equal.
    rewrite <- (app_nil_r (JS.sort bySimilarity results)) at 1.
    rewrite ContextFacts.planContext_whole_prefix.
    + simpl. apply app_nil_r.
    + rewrite (tokensOf_Permutation _ _ Hperm). lia.
  - intros v.
    rewrite !RankingFacts.tiedAt_rank
      by (try exact Hnum;
          now apply (RankingFacts.sort_good bySimilarity isNumber)).
    destruct (PrimFloat.is_nan v); [reflexivity|].
    now apply (RankingFacts.sort_stable bySimilarity rankOf isNumber
                 OrderFacts.bySimilarity_order).
Qed.

Lemma buildContext_takes_all_that_fits_witness :
  Forall isNumber [sixtyWords; shortNote]
  /\ tokensOf [sixtyWords; shortNote] <= 2000
  /\ exists sorted : list SearchResult,
       buildContext noDigits [sixtyWords; shortNote] "q" 2000
       = (JS.trim (renderBlocks noDigits (map Whole sorted)), sorted)
       /\ Permutation [sixtyWords; shortNote] sorted
       /\ highestFirst sorted
       /\ forall v, tiedAt v sorted = tiedAt v [sixtyWords; shortNote].
Proof.
  assert (Hnum : Forall isNumber [sixtyWords; shortNote])
    by (repeat constructor).
  assert (Hfit : tokensOf [sixtyWords; shortNote] <= 2000).
  { vm_compute. discriminate. }
  split; [exact Hnum|]. split; [exact Hfit|].
  exact (buildContext_takes_all_that_fits noDigits [sixtyWords; shortNote]
           "q" 2000 Hnum Hfit).
Defined.

End PipelineFacts.

(** ** Properties of the similarity *)

Module SimilarityFacts.
Import Effects VectorStore RagPipeline Props Vocabulary.
Import NumberFacts StoreFacts.

Lemma add_nan_l (x : float) : (PrimFloat.nan + x)%float = PrimFloat.nan.
Proof.
  apply SF_nan_is_nan. rewrite FloatAxioms.add_spec.
  change (Prim2SF PrimFloat.nan) with S754_nan. reflexivity.
Qed.

Lemma add_nan_r (x : float) : (x + PrimFloat.nan)%float = PrimFloat.nan.
Proof.
  apply SF_nan_is_nan. rewrite FloatAxioms.add_spec.
  change (Prim2SF PrimFloat.nan) with S754_nan.
  unfold SF64add, SFadd. destruct (Prim2SF x); reflexivity.
Qed.

Lemma mul_nan (x : float) : (x * PrimFloat.nan)%float = PrimFloat.nan.
Proof.
  apply SF_nan_is_nan. rewrite FloatAxioms.mul_spec.
  change (Prim2SF PrimFloat.nan) with S754_nan.
  unfold SF64mul, SFmul. destruct (Prim2SF x); reflexivity.
Qed.

Lemma div_nan_l (x : float) : (PrimFloat.nan / x)%float = PrimFloat.nan.
Proof.
  apply SF_nan_is_nan. rewrite FloatAxioms.div_spec.
  change (Prim2SF PrimFloat.nan) with S754_nan. reflexivity.
Qed.

Lemma mul_comm (x y : float) : (x * y)%float = (y * x)%float.
Proof.
  apply Prim2SF_inj. rewrite !FloatAxioms.mul_spec.
  unfold SF64mul, SFmul.
  destruct (Prim2SF x) as [sx|sx| |sx mx ex],
           (Prim2SF y) as [sy|sy| |sy my ey];
    try reflexivity; try (now rewrite xorb_comm).
  now rewrite xorb_comm, Pos.mul_comm, Z.add_comm.
Qed.

Lemma dotFrom_nan (a b : list float) :
  forall start, dotFrom start a b PrimFloat.nan = PrimFloat.nan.
Proof.
  induction a as [|val rest IH]; intros start; [reflexivity|].
  simpl. now rewrite add_nan_l.
Qed.

Lemma dotFrom_past_the_end (a b : list float) :
  forall start sum,
    (start <= length b)%nat -> (length b < start + length a)%nat ->
    dotFrom start a b sum = PrimFloat.nan.
Proof.
  induction a as [|val rest IH]; intros start sum Hle Hlt; simpl in *; [lia|].
  destruct (nth_error b start) as [x|] eqn:Hnth.
  - apply IH.
    + apply (nth_error_Some b start). congruence.
    + lia.
  - now rewrite mul_nan, add_nan_r, dotFrom_nan.
Qed.

(** X12.  When the vector of the query has more entries than the vector of
    a document (a provider embedding against a fallback embedding of 100
    entries, say), their similarity is [NaN]: the product with the missing
    entries is. *)
Theorem cosine_of_longer_query_is_NaN (a b : list float) :
  (length b < length a)%nat ->
  cosineSimilarity (EmbeddingArray a) (EmbeddingArray b)
  = Normal PrimFloat.nan.
Proof.
  intros Hlen. unfold cosineSimilarity, cosine. f_equal.
  rewrite (dotFrom_past_the_end a b 0); [apply div_nan_l|lia|simpl; lia].
Qed.

Lemma cosine_of_longer_query_is_NaN_witness :
  (length [1%float] < length [1%float; 0%float])%nat
  /\ cosineSimilarity (EmbeddingArray [1%float; 0%float])
                      (EmbeddingArray [1%float])
     = Normal PrimFloat.nan.
Proof.
  assert (H : (length [1%float] < length [1%float; 0%float])%nat)
    by (simpl; lia).
  split; [exact H|].
  exact (cosine_of_longer_query_is_NaN [1%float; 0%float] [1%float] H).
Defined.

Lemma dotFrom_combine (a b : list float) :
  forall start sum,
    (start + length a <= length b)%nat ->
    dotFrom start a b sum
    = fold_left (fun s p => (s + fst p * snd p)%float)
                (combine a (skipn start b)) sum.
Proof.
  induction a as [|val rest IH]; intros start sum Hle; [reflexivity|].
  simpl in *.
  destruct (nth_error b start) as [x|] eqn:Hnth.
  - assert (Hskip : skipn start b = x :: skipn (S start) b).
    { clear -Hnth. revert b Hnth.
      induction start as [|n IHn]; intros [|y b] Hnth; try discriminate.
      - now injection Hnth as ->.
      - simpl in *. now apply IHn. }
    rewrite Hskip. simpl. apply IH. lia.
  - apply nth_error_None in Hnth. lia.
Qed.

Lemma fold_products_comm (a b : list float) :
  forall sum,
    fold_left (fun s p => (s + fst p * snd p)%float) (combine a b) sum
    = fold_left (fun s p => (s + fst p * snd p)%float) (combine b a) sum.
Proof.
  revert b. induction a as [|x a IH]; intros [|y b] sum; try reflexivity.
  simpl. rewrite (mul_comm x y). apply IH.
Qed.

(** X13.  For vectors of the same length the similarity does not depend on
    which of the two is the query: the IEEE product is commutative, and the
    sums run over the same products in the same order. *)
Theorem cosineSimilarity_is_symmetric (a b : list float) :
  length a = length b ->
  cosineSimilarity (EmbeddingArray a) (EmbeddingArray b)
  = cosineSimilarity (EmbeddingArray b) (EmbeddingArray a).
Proof.
  intros Hlen. unfold cosineSimilarity, cosine. f_equal.
  rewrite !dotFrom_combine by (simpl; lia). simpl.
  rewrite fold_products_comm. f_equal. apply mul_comm.
Qed.

Lemma cosineSimilarity_is_symmetric_witness :
  length [1%float; 2%float] = length [3%float; 4%float]
  /\ cosineSimilarity (EmbeddingArray [1%float; 2%float])
                      (EmbeddingArray [3%float; 4%float])
     = cosineSimilarity (EmbeddingArray [3%float; 4%float])
                        (EmbeddingArray [1%float; 2%float]).
Proof.
  assert (H : length [1%float; 2%float] = length [3%float; 4%float])
    by reflexivity.
  split; [exact H|].
  exact (cosineSimilarity_is_symmetric [1%float; 2%float]
           [3%float; 4%float] H).
Defined.


Lemma nan_isZeroOrNaN : isZeroOrNaN PrimFloat.nan.
Proof. now right. Qed.

Lemma dotFrom_zeroOrNaN_r (a b : list float) :
  Forall isZeroOrNaN b ->
  forall start sum, isPlusZeroOrNaN sum ->
  isPlusZeroOrNaN (dotFrom start a b sum).
Proof.
  intros Hb. induction a as [|val rest IH]; intros start sum Hsum; [easy|].
  simpl. apply IH. apply add_plusZeroOrNaN; [exact Hsum|].
  apply mul_zeroOrNaN_r.
  destruct (nth_error b start) as [x|] eqn:Hnth; [|apply nan_isZeroOrNaN].
  rewrite List.Forall_forall in Hb. apply Hb.
  eapply nth_error_In; eauto.
Qed.

Lemma dotFrom_zeroOrNaN_l (a b : list float) :
  Forall isZeroOrNaN a ->
  forall start sum, isPlusZeroOrNaN sum ->
  isPlusZeroOrNaN (dotFrom start a b sum).
Proof.
  induction 1 as [|val rest Hval _ IH]; intros start sum Hsum; [easy|].
  simpl. apply IH. apply add_plusZeroOrNaN; [exact Hsum|].
  now apply mul_zeroOrNaN_l.
Qed.

Lemma sumOfSquares_zeroOrNaN (v : list float) :
  Forall isZeroOrNaN v -> isPlusZeroOrNaN (sumOfSquares v).
Proof.
  unfold sumOfSquares.
  assert (Hgen : forall sum, isPlusZeroOrNaN sum -> Forall isZeroOrNaN v ->
            isPlusZeroOrNaN
              (fold_left (fun s x => (s + x * x)%float) v sum)).
  { induction v as [|x v IH]; intros sum Hsum Hv; [easy|].
    inversion Hv; subst. simpl. apply IH; [|assumption].
    apply add_plusZeroOrNaN; [exact Hsum|]. now apply mul_zeroOrNaN_l. }
  apply Hgen. now left.
Qed.

Lemma sqrt_plusZeroOrNaN (x : float) :
  isPlusZeroOrNaN x -> isZeroOrNaN (PrimFloat.sqrt x).
Proof.
  intros [Hx|Hx].
  - left. exists false. now apply sqrt_plusZero.
  - right. rewrite FloatAxioms.sqrt_spec, Hx. reflexivity.
Qed.

(** A vector of zeros and [NaN]s on either side: the quotient is [NaN]. *)
Lemma cosine_zeroOrNaN (a b : list float) :
  Forall isZeroOrNaN a \/ Forall isZeroOrNaN b ->
  cosine a b = PrimFloat.nan.
Proof.
  intros Hab. unfold cosine. apply div_by_zeroOrNaN.
  - destruct Hab as [Ha|Hb].
    + apply dotFrom_zeroOrNaN_l; [exact Ha|now left].
    + apply dotFrom_zeroOrNaN_r; [exact Hb|now left].
  - destruct Hab as [Ha|Hb].
    + apply mul_zeroOrNaN_l, sqrt_plusZeroOrNaN, sumOfSquares_zeroOrNaN, Ha.
    + apply mul_zeroOrNaN_r, sqrt_plusZeroOrNaN, sumOfSquares_zeroOrNaN, Hb.
Qed.

Lemma scoreAll_similarity (qv : Embedding) (docs : list VectorDocument)
    (scored : list SearchResult) :
  scoreAll qv docs = Normal scored ->
  Forall (fun r => cosineSimilarity qv (embedding (document r))
                   = Normal (similarity r))
         scored.
Proof.
  unfold scoreAll. revert scored.
  induction docs as [|d docs IH]; intros scored; simpl.
  - intros [= <-]. constructor.
  - destruct (cosineSimilarity qv (embedding d)) eqn:Hcos; [|discriminate].
    destruct (mapCompletion _ docs); [|discriminate].
    intros [= <-]. constructor; [exact Hcos|]. now apply IH.
Qed.

Lemma ltb_nan_r (x : float) : PrimFloat.ltb x PrimFloat.nan = false.
Proof.
  rewrite FloatAxioms.ltb_spec.
  change (Prim2SF PrimFloat.nan) with S754_nan.
  unfold SFltb, SFcompare. destruct (Prim2SF x); reflexivity.
Qed.

(** A stored document whose embedding holds only zeros and [NaN]s is in no
    result of [search]. *)
Lemma zero_embedding_not_found (net : Network) (q : string) (k : Z)
    (w w' : World) (results : list SearchResult) (v : list float) :
  Forall isZeroOrNaN v ->
  search net q k w = (Normal results, w') ->
  Forall (fun r => embedding (document r) <> EmbeddingArray v) results.
Proof.
  intros Hv Hsearch.
  destruct (search_returns _ _ _ _ _ _ Hsearch)
    as [(_ & -> & _)|(_ & qv & scored & _ & Hscore & ->)]; [constructor|].
  apply List.Forall_forall. intros r Hin Hemb.
  apply List.filter_In in Hin as [Hin Hlt].
  apply (sublist_In _ _ _ (slice0_sublist _ k)) in Hin.
  apply (Permutation_in _ (sort_Permutation _ _)) in Hin.
  pose proof (scoreAll_similarity _ _ _ Hscore) as Hsim.
  rewrite List.Forall_forall in Hsim. specialize (Hsim r Hin).
  rewrite Hemb in Hsim. unfold cosineSimilarity in Hsim.
  destruct qv as [vq|]; [|discriminate].
  injection Hsim as Hsim. rewrite cosine_zeroOrNaN in Hsim by now right.
  rewrite <- Hsim, ltb_nan_r in Hlt. discriminate.
Qed.


Lemma div_zero_l (x y : float) :
  Prim2SF x = S754_zero false -> isZeroOrNaN (x / y)%float.
Proof.
  intros Hx. unfold isZeroOrNaN, isZeroSF.
  rewrite FloatAxioms.div_spec, Hx. unfold SF64div, SFdiv.
  destruct (Prim2SF y); eauto.
Qed.

Lemma occurrences_absent (word : string) (words : list string) :
  JS.arrayIncludes words word = false -> occurrences word words = 0.
Proof.
  unfold occurrences, JS.arrayIncludes.
  induction words as [|x words IH]; [reflexivity|]. simpl.
  destruct (String.eqb word x); [discriminate|]. exact IH.
Qed.

Lemma outside_no_occurrence (text word : string) :
  outsideVocabulary text -> In word vocabulary ->
  occurrences word (wordsOf text) = 0.
Proof.
  unfold outsideVocabulary. intros Hout Hin. apply occurrences_absent.
  destruct (JS.arrayIncludes (wordsOf text) word) eqn:Hinc; [|reflexivity].
  apply QueryFacts.arrayIncludes_In in Hinc.
  rewrite forallb_forall in Hout. specialize (Hout word Hinc).
  apply negb_true_iff in Hout.
  apply QueryFacts.arrayIncludes_In in Hin. congruence.
Qed.

Lemma textToVector_outside (text : string) :
  outsideVocabulary text -> Forall isZeroOrNaN (textToVector text).
Proof.
  intros Hout. rewrite VectorizerFacts.textToVector_quotients.
  rewrite firstn_map. apply List.Forall_forall. intros x Hx.
  apply in_map_iff in Hx as (word & <- & Hword).
  change (firstn 100 commonWords) with vocabulary in Hword.
  rewrite (outside_no_occurrence text word Hout Hword).
  apply div_zero_l, RoundingFacts.ofZ_zero.
Qed.

(** X14.  A text none of whose words is among the first 100 of
    [commonWords] (the four words behind them are cut off by [slice]) has a
    fallback vector of zeros, or of [NaN]s when it has no word at all.  Its
    similarity to any vector is [NaN], so no [search], whatever the query
    and the provider, returns a document that carries this vector. *)
Theorem text_outside_vocabulary_is_never_found (text : string) :
  outsideVocabulary text ->
  Forall isZeroOrNaN (textToVector text)
  /\ (forall a : list float,
        cosineSimilarity (EmbeddingArray a)
                         (EmbeddingArray (textToVector text))
        = Normal PrimFloat.nan)
  /\ forall (net : Network) (q : string) (k : Z) (w w' : World)
            (results : list SearchResult),
       search net q k w = (Normal results, w') ->
       Forall (fun r => embedding (document r)
                        <> EmbeddingArray (textToVector text))
              results.
Proof.
  intros Hout. pose proof (textToVector_outside text Hout) as Hzero.
  split; [exact Hzero|]. split.
  - intros a. unfold cosineSimilarity. f_equal. apply cosine_zeroOrNaN.
    now right.
  - intros net q k w w' results. now apply zero_embedding_not_found.
Qed.

Lemma text_outside_vocabulary_is_never_found_witness :
  outsideVocabulary "Configuration: option"
  /\ Forall isZeroOrNaN (textToVector "Configuration: option")
  /\ (forall a : list float,
        cosineSimilarity
          (EmbeddingArray a)
          (EmbeddingArray (textToVector "Configuration: option"))
        = Normal PrimFloat.nan)
  /\ forall (net : Network) (q : string) (k : Z) (w w' : World)
            (results : list SearchResult),
       search net q k w = (Normal results, w') ->
       Forall (fun r => embedding (document r)
                        <> EmbeddingArray
                             (textToVector "Configuration: option"))
              results.
Proof.
  assert (H : outsideVocabulary "Configuration: option")
    by (vm_compute; reflexivity).
  split; [exact H|].
  exact (text_outside_vocabulary_is_never_found "Configuration: option" H).
Defined.

End SimilarityFacts.

(** ** Properties of the statistics *)

Module StatsFacts.
Import Effects VectorStore RagPipeline Props Vocabulary.
Import NumberFacts RoundingFacts OrderFacts.

Lemma SFdiv_core_positive (mx my : positive) (ex ey : Z) :
  2 ^ 52 <= Z.pos mx < 2 ^ 53 -> 2 ^ 52 <= Z.pos my < 2 ^ 53 ->
  -52 <= ex <= 0 -> -52 <= ey <= 0 ->
  exists q e l,
    SFdiv_core_binary prec emax (Z.pos mx) ex (Z.pos my) ey = (q, e, l)
    /\ 1 <= q /\ -1074 <= e.
Proof.
  intros Hmx Hmy Hex Hey.
  assert (Hdx : Z.pos (digits2_pos mx) = 53) by now apply digits2_pos_unique.
  assert (Hdy : Z.pos (digits2_pos my) = 53) by now apply digits2_pos_unique.
  unfold SFdiv_core_binary. cbn [Zdigits2]. rewrite Hdx, Hdy.
  assert (He : Z.min (fexp prec emax (53 + ex - (53 + ey))) (ex - ey)
               = ex - ey - 53).
  { unfold fexp, SpecFloat.emin, prec, emax. lia. }
  rewrite He.
  replace (ex - ey - (ex - ey - 53)) with 53 by lia.
  rewrite Z.shiftl_mul_pow2 by lia.
  pose proof (Z_div_mod (Z.pos mx * 2 ^ 53) (Z.pos my) ltac:(lia)) as Hdiv.
  destruct (Z.div_eucl (Z.pos mx * 2 ^ 53) (Z.pos my)) as [q r].
  destruct Hdiv as [Hqr Hr].
  do 3 eexists. split; [reflexivity|]. split; [|lia].
  change (2 ^ 53) with 9007199254740992 in *.
  change (2 ^ 52) with 4503599627370496 in *. nia.
Qed.

(** The quotient of two positive counts is a positive number. *)
Lemma quotient_positive (a b : Z) :
  1 <= a < 2 ^ 53 -> 1 <= b < 2 ^ 53 ->
  signOf (Prim2SF (JS.ofZ a / JS.ofZ b)%float) = Gt.
Proof.
  intros Ha Hb.
  destruct (ofZ_positive a) as (mx & ex & Hx & Hex & Vx & Hmx); [lia|].
  destruct (ofZ_positive b) as (my & ey & Hy & Hey & Vy & Hmy); [lia|].
  rewrite FloatAxioms.div_spec, Hx, Hy. unfold SF64div, SFdiv.
  destruct (SFdiv_core_positive mx my ex ey Hmx Hmy Hex Hey)
    as (q & e & l & -> & Hq & He).
  cbn [xorb]. now apply (binary_round_aux_sign false).
Qed.

Lemma positive_leb (x : float) :
  signOf (Prim2SF x) = Gt -> PrimFloat.leb 0 x = true.
Proof.
  rewrite FloatAxioms.leb_spec.
  change (Prim2SF 0) with (S754_zero false). unfold SFleb, SFcompare.
  destruct (Prim2SF x) as [s|s| |s m e]; simpl; try discriminate;
    destruct s; try discriminate; reflexivity.
Qed.

Lemma zero_leb (x : float) :
  signOf (Prim2SF x) = Eq -> Prim2SF x <> S754_nan ->
  PrimFloat.leb 0 x = true.
Proof.
  rewrite FloatAxioms.leb_spec.
  change (Prim2SF 0) with (S754_zero false). unfold SFleb, SFcompare.
  destruct (Prim2SF x) as [s|s| |s m e]; simpl; try congruence;
    destruct s; try discriminate; reflexivity.
Qed.

Lemma ofZ_nonneg (n : Z) : 0 <= n -> PrimFloat.leb 0 (JS.ofZ n) = true.
Proof.
  intros Hn. unfold JS.ofZ. destruct (Z.ltb_spec n 0) as [|_]; [lia|].
  pose proof (binary_normalize_sign (to_Z (of_Z n)) 0 ltac:(lia)) as Hsign.
  rewrite <- FloatAxioms.of_uint63_spec in Hsign.
  pose proof (Uint63.to_Z_bounded (of_Z n)) as Hbound.
  destruct (Z.compare_spec (to_Z (of_Z n)) 0) as [H0|Hlt|Hgt]; [|lia|].
  - apply zero_leb; [exact Hsign|].
    rewrite FloatAxioms.of_uint63_spec, H0. discriminate.
  - now apply positive_leb.
Qed.

Lemma Math_round_nonneg (x : float) :
  signOf (Prim2SF x) = Gt -> PrimFloat.leb 0 (JS.Math_round x) = true.
Proof.
  intros Hsign. unfold JS.Math_round.
  destruct (Prim2SF x) as [s|s| |s m e] eqn:Hx; try discriminate.
  - apply positive_leb. now rewrite Hx.
  - destruct s; [discriminate|].
    destruct (Z.leb_spec 0 e) as [|He];
      [apply positive_leb; now rewrite Hx|].
    destruct (Z.eqb_spec ((2 * Z.pos m + 2 ^ (- e)) / (2 * 2 ^ (- e))) 0);
      [reflexivity|].
    assert (0 < 2 ^ (- e)) by (apply Z.pow_pos_nonneg; lia).
    apply ofZ_nonneg. apply Z.div_pos; lia.
Qed.


Lemma token_total_nonneg (docs : list VectorDocument) :
  forall sum, 0 <= sum ->
  0 <= fold_left (fun sum doc =>
                    sum + Z.of_nat (length (JS.matchWords (content doc))))
                 docs sum.
Proof.
  induction docs as [|d docs IH]; intros sum Hsum; [exact Hsum|].
  simpl. apply IH. lia.
Qed.

Lemma Math_round_zero (x : float) :
  Prim2SF x = S754_zero false -> JS.Math_round x = x.
Proof. intros Hx. unfold JS.Math_round. now rewrite Hx. Qed.

(** The average of [getStats], for a store that is not empty. *)
Lemma average_nonneg (total count : Z) :
  0 <= total < 2 ^ 53 -> 1 <= count < 2 ^ 53 ->
  PrimFloat.leb 0 (JS.Math_round (JS.ofZ total / JS.ofZ count)%float) = true.
Proof.
  intros Htotal Hcount.
  destruct (Z.eq_dec total 0) as [->|Hne].
  - destruct (ofZ_positive count) as (m & e & Hy & _); [lia|].
    assert (Hq : Prim2SF (JS.ofZ 0 / JS.ofZ count)%float = S754_zero false).
    { rewrite FloatAxioms.div_spec, Hy. reflexivity. }
    rewrite (Math_round_zero _ Hq). apply zero_leb; rewrite Hq; easy.
  - apply Math_round_nonneg, quotient_positive; lia.
Qed.

(** X15.  When [getStats] returns (the counts being safe integers, as the
    lengths of arrays are), it has changed nothing, the document count is
    the length of the store, the total of the tokens is not negative, and
    the average is a number that is not negative: never [NaN], the
    division being guarded.  On the empty store it reports 0 documents, 0
    tokens, an average of 0 and 1536 dimensions.  [getRAGStats] returns the
    same statistics, with the version 1.0.0 and six features. *)
Theorem getStats_average_is_a_number (w w' : World) (s : Stats) :
  getStats w = (Normal s, w') ->
  documentCount s < 2 ^ 53 -> totalTokens s < 2 ^ 53 ->
  w' = w
  /\ documentCount s = Z.of_nat (length (documents w))
  /\ 0 <= totalTokens s
  /\ PrimFloat.leb 0 (averageTokensPerDoc s) = true
  /\ (documents w = [] ->
      s = {| documentCount := 0; totalTokens := 0;
             averageTokensPerDoc := PrimFloat.zero;
             vectorDimensions := 1536 |})
  /\ exists r,
       getRAGStats w = (Normal r, w)
       /\ vectorStats r = s
       /\ pipelineVersion r = "1.0.0"
       /\ length (features r) = 6%nat.
Proof.
  intros Hstats.
  assert (Hrag : exists r,
            getRAGStats w = (Normal r, w')
            /\ vectorStats r = s
            /\ pipelineVersion r = "1.0.0"
            /\ length (features r) = 6%nat).
  { unfold getRAGStats, bind. rewrite Hstats. eexists. split; [reflexivity|].
    repeat split. }
  revert Hstats Hrag.
  unfold getStats, bind, getDocuments.
  pose proof (token_total_nonneg (documents w) 0 ltac:(lia)) as Htotal.
  set (total := fold_left _ (documents w) 0) in *.
  destruct (documents w) as [|first rest] eqn:Hd.
  - intros [= <- <-] Hrag _ _. cbn. repeat split; try reflexivity; try lia.
    exact Hrag.
  - destruct (embedding first) as [v|]; [|discriminate].
    intros [= <- <-] Hrag.
    cbn [documentCount totalTokens averageTokensPerDoc].
    intros Hcount Htot. split; [reflexivity|]. split; [reflexivity|].
    split; [exact Htotal|]. split; [|split; [discriminate|exact Hrag]].
    apply average_nonneg; lia.
Qed.

Lemma getStats_average_is_a_number_witness :
  getStats threeNotesWorld = (Normal threeNotesStats, threeNotesWorld)
  /\ documentCount threeNotesStats < 2 ^ 53
  /\ totalTokens threeNotesStats < 2 ^ 53
  /\ threeNotesWorld = threeNotesWorld
  /\ documentCount threeNotesStats
     = Z.of_nat (length (documents threeNotesWorld))
  /\ 0 <= totalTokens threeNotesStats
  /\ PrimFloat.leb 0 (averageTokensPerDoc threeNotesStats) = true
  /\ (documents threeNotesWorld = [] ->
      threeNotesStats
      = {| documentCount := 0; totalTokens := 0;
           averageTokensPerDoc := PrimFloat.zero;
           vectorDimensions := 1536 |})
  /\ exists r,
       getRAGStats threeNotesWorld = (Normal r, threeNotesWorld)
       /\ vectorStats r = threeNotesStats
       /\ pipelineVersion r = "1.0.0"
       /\ length (features r) = 6%nat.
Proof.
  assert (H : getStats threeNotesWorld
              = (Normal threeNotesStats, threeNotesWorld))
    by (vm_compute; reflexivity).
  assert (H1 : documentCount threeNotesStats < 2 ^ 53)
    by (vm_compute; reflexivity).
  assert (H2 : totalTokens threeNotesStats < 2 ^ 53)
    by (vm_compute; reflexivity).
  split; [exact H|]. split; [exact H1|]. split; [exact H2|].
  exact (getStats_average_is_a_number threeNotesWorld threeNotesWorld
           threeNotesStats H H1 H2).
Defined.

End StatsFacts.

(** ** Splitting, joining and trimming *)

Module SplitFacts.
Import Vocabulary.

Section Classes.
Context (cls : ascii -> bool).

Lemma splitRuns_cons_ink (c : ascii) (s : string) :
  cls c = false ->
  exists piece others,
    JS.splitRuns cls s = piece :: others
    /\ JS.splitRuns cls (String c s) = String c piece :: others.
Proof.
  intros Hc. simpl. rewrite Hc.
  destruct (JS.splitRuns cls s) as [|piece others] eqn:Hs.
  - now apply ContextFacts.splitRuns_nonempty in Hs.
  - eauto.
Qed.

(** No piece contains a separator. *)
Lemma splitRuns_pieces (keep : ascii -> bool) (s : string) :
  allChars (fun c => cls c || keep c) s = true ->
  Forall (fun piece => allChars (fun c => negb (cls c) && keep c) piece = true)
         (JS.splitRuns cls s).
Proof.
  induction s as [|c s IH]; simpl; [repeat constructor|].
  intros Hall. apply andb_prop in Hall as [Hc Hs]. specialize (IH Hs).
  destruct (cls c) eqn:Hcls.
  - destruct (JS.startsWithClass cls s); [exact IH|]. now constructor.
  - simpl in Hc. destruct (JS.splitRuns cls s) as [|piece others].
    + repeat constructor. simpl. now rewrite Hcls, Hc.
    + inversion IH; subst. constructor; [|assumption].
      simpl. now rewrite Hcls, Hc.
Qed.

(** A piece that has no separator, then a separator, then a text that does
    not start with one. *)
Lemma splitRuns_piece_then (sep : ascii) (t : string) :
  cls sep = true -> JS.startsWithClass cls t = false ->
  forall piece,
    allChars (fun c => negb (cls c)) piece = true ->
    JS.splitRuns cls (piece +:+ String sep t) = piece :: JS.splitRuns cls t.
Proof.
  intros Hsep Ht. induction piece as [|c piece IH]; intros Hall.
  - rewrite StringFacts.append_nil. simpl. now rewrite Hsep, Ht.
  - simpl in Hall. apply andb_prop in Hall as [Hc Hall].
    apply negb_true_iff in Hc.
    rewrite StringFacts.append_cons. simpl. rewrite Hc.
    now rewrite (IH Hall).
Qed.

Lemma splitRuns_one_piece (piece : string) :
  allChars (fun c => negb (cls c)) piece = true ->
  JS.splitRuns cls piece = [piece].
Proof.
  induction piece as [|c piece IH]; intros Hall; [reflexivity|].
  simpl in Hall. apply andb_prop in Hall as [Hc Hall].
  apply negb_true_iff in Hc. simpl. now rewrite Hc, (IH Hall).
Qed.

End Classes.

Lemma allChars_impl (p q : ascii -> bool) (s : string) :
  (forall c, p c = true -> q c = true) ->
  allChars p s = true -> allChars q s = true.
Proof.
  intros Hpq. induction s as [|c s IH]; simpl; [easy|].
  intros H. apply andb_prop in H as [Hc Hs].
  now rewrite (Hpq c Hc), (IH Hs).
Qed.

Lemma join_cons2 (sep x y : string) (rest : list string) :
  JS.join sep (x :: y :: rest) = x +:+ sep +:+ JS.join sep (y :: rest).
Proof. reflexivity. Qed.

Lemma startsWithClass_append (cls : ascii -> bool) (s t : string) :
  s <> "" -> JS.startsWithClass cls (s +:+ t) = JS.startsWithClass cls s.
Proof. destruct s; [congruence|reflexivity]. Qed.

Lemma startsWithClass_ink (cls : ascii -> bool) (s : string) :
  allChars (fun c => negb (cls c)) s = true ->
  JS.startsWithClass cls s = false.
Proof.
  destruct s as [|c s]; [reflexivity|]. simpl.
  intros H. apply andb_prop in H as [Hc _]. now apply negb_true_iff.
Qed.

Lemma startsWithClass_join (cls : ascii -> bool) (words : list string) :
  Forall (fun w => allChars (fun c => negb (cls c)) w = true) words ->
  JS.startsWithClass cls (JS.join " " words) = false
  \/ exists rest, words = "" :: rest /\ rest <> [].
Proof.
  intros Hwords. destruct words as [|w [|w' rest]]; [now left| |].
  - left. inversion Hwords; subst. now apply startsWithClass_ink.
  - inversion Hwords; subst. destruct w as [|c w].
    + right. eexists. split; [reflexivity|discriminate].
    + left. rewrite join_cons2, startsWithClass_append by discriminate.
      now apply startsWithClass_ink.
Qed.

(** [split] undoes [join]: words without white space, none of them empty,
    joined by single spaces, split into themselves. *)
Lemma split_join (cls : ascii -> bool) (words : list string) :
  cls " "%char = true -> words <> [] ->
  Forall (fun w => w <> ""
                   /\ allChars (fun c => negb (cls c)) w = true) words ->
  JS.splitRuns cls (JS.join " " words) = words.
Proof.
  intros Hsp Hne Hwords. induction Hwords as [|w rest [Hw Hink] Hrest IH];
    [contradiction|].
  destruct rest as [|w' rest].
  - simpl. now apply splitRuns_one_piece.
  - rewrite join_cons2.
    change (w +:+ " " +:+ JS.join " " (w' :: rest))
      with (w +:+ String " " (JS.join " " (w' :: rest))).
    rewrite splitRuns_piece_then; auto.
    + f_equal. apply IH. discriminate.
    + destruct (startsWithClass_join cls (w' :: rest)) as [H|(r & Heq & _)].
      * eapply List.Forall_impl; [|exact Hrest]. now intros ? [_ ?].
      * exact H.
      * injection Heq as -> _. inversion Hrest as [|? ? [Hw' _]]; subst.
        congruence.
Qed.


Lemma trimEnd_append (s t : string) :
  JS.trimEnd t <> "" -> JS.trimEnd (s +:+ t) = s +:+ JS.trimEnd t.
Proof.
  intros Ht. induction s as [|c s IH]; [reflexivity|].
  rewrite !StringFacts.append_cons. simpl. rewrite IH.
  destruct (String.eqb_spec (s +:+ JS.trimEnd t) "") as [Heq|_].
  - destruct s; [|discriminate]. now rewrite StringFacts.append_nil in Heq.
  - now rewrite andb_false_r.
Qed.

Lemma trimEnd_ink (w : string) :
  allChars (fun c => negb (JS.isWhiteSpace c)) w = true -> JS.trimEnd w = w.
Proof.
  induction w as [|c w IH]; [reflexivity|]. simpl.
  intros H. apply andb_prop in H as [Hc Hw]. apply negb_true_iff in Hc.
  now rewrite Hc, (IH Hw).
Qed.

Lemma trimEnd_join (words : list string) :
  Forall (fun w => w <> ""
                   /\ allChars (fun c => negb (JS.isWhiteSpace c)) w = true)
         words ->
  JS.trimEnd (JS.join " " words) = JS.join " " words.
Proof.
  induction 1 as [|w rest [Hw Hink] Hrest IH]; [reflexivity|].
  destruct rest as [|w' rest]; [now apply trimEnd_ink|].
  rewrite join_cons2.
  assert (Hne : JS.join " " (w' :: rest) <> "").
  { inversion Hrest as [|? ? [Hw' _]]; subst.
    destruct w'; [congruence|]. destruct rest; discriminate. }
  rewrite trimEnd_append; rewrite trimEnd_append; rewrite IH; auto.
Qed.

Lemma trimStart_join (words : list string) :
  Forall (fun w => w <> ""
                   /\ allChars (fun c => negb (JS.isWhiteSpace c)) w = true)
         words ->
  JS.trimStart (JS.join " " words) = JS.join " " words.
Proof.
  intros Hwords. destruct words as [|w rest]; [reflexivity|].
  inversion Hwords as [|? ? [Hw Hink]]; subst.
  destruct w as [|c w]; [congruence|].
  simpl in Hink. apply andb_prop in Hink as [Hc _].
  apply negb_true_iff in Hc.
  destruct rest; simpl; now rewrite Hc.
Qed.

Lemma trim_join (words : list string) :
  Forall (fun w => w <> ""
                   /\ allChars (fun c => negb (JS.isWhiteSpace c)) w = true)
         words ->
  JS.trim (JS.join " " words) = JS.join " " words.
Proof.
  intros Hwords. unfold JS.trim.
  now rewrite trimStart_join, trimEnd_join.
Qed.

Lemma allChars_mapChars (p : ascii -> bool) (f : ascii -> ascii)
    (s : string) :
  allChars p (JS.mapChars f s) = allChars (fun c => p (f c)) s.
Proof.
  induction s as [|c s IH]; [reflexivity|]. simpl. now rewrite IH.
Qed.

Lemma allChars_all (p : ascii -> bool) (s : string) :
  (forall c, p c = true) -> allChars p s = true.
Proof.
  intros Hp. induction s as [|c s IH]; [reflexivity|]. simpl.
  now rewrite Hp, IH.
Qed.

Lemma mapChars_fixed (f : ascii -> ascii) (s : string) :
  allChars (fun c => Ascii.eqb (f c) c) s = true -> JS.mapChars f s = s.
Proof.
  induction s as [|c s IH]; [reflexivity|]. simpl.
  intros H. apply andb_prop in H as [Hc Hs].
  apply Ascii.eqb_eq in Hc. now rewrite Hc, (IH Hs).
Qed.

Lemma allChars_append (p : ascii -> bool) (s t : string) :
  allChars p (s +:+ t) = allChars p s && allChars p t.
Proof.
  induction s as [|c s IH]; [reflexivity|].
  rewrite StringFacts.append_cons. simpl. now rewrite IH, andb_assoc.
Qed.

Lemma allChars_join (p : ascii -> bool) (words : list string) :
  p " "%char = true ->
  Forall (fun w => allChars p w = true) words ->
  allChars p (JS.join " " words) = true.
Proof.
  intros Hsp. induction 1 as [|w rest Hw Hrest IH]; [reflexivity|].
  destruct rest as [|w' rest]; [exact Hw|].
  rewrite join_cons2, !allChars_append, Hw, IH. simpl. now rewrite Hsp.
Qed.

End SplitFacts.

(** ** Further properties of the query processor *)

Module PreprocessFacts.
Import Effects VectorStore RagPipeline Props Vocabulary SplitFacts.

Ltac every_character c :=
  destruct c as [[] [] [] [] [] [] [] []]; vm_compute; try reflexivity;
  try discriminate.

(** What a character is once the query is in lower case and its
    punctuation is gone. *)
Lemma stripped_character (c : ascii) :
  (fun c' => JS.isWhiteSpace c' || isLowerWordChar c')
    (if JS.isWordChar (JS.lowerChar c) || JS.isWhiteSpace (JS.lowerChar c)
     then JS.lowerChar c else " "%char) = true.
Proof. every_character c. Qed.

Lemma kept_character_fixed (c : ascii) :
  Ascii.eqb c " " || isLowerWordChar c = true ->
  JS.lowerChar c = c
  /\ (if JS.isWordChar c || JS.isWhiteSpace c then c else " "%char) = c.
Proof. every_character c; intros _; split; reflexivity. Qed.

Lemma lowerWordChar_ink (c : ascii) :
  negb (JS.isWhiteSpace c) && isLowerWordChar c = true ->
  negb (JS.isWhiteSpace c) = true.
Proof. intros H. now apply andb_prop in H. Qed.

(** The words [preprocessQuery] keeps. *)
Lemma kept_words (q : string) :
  Forall (fun w => isKept w = true
                   /\ allChars (fun c => negb (JS.isWhiteSpace c)
                                         && isLowerWordChar c) w = true)
         (List.filter isKept
            (JS.splitWhiteSpace (stripPunctuation (JS.toLowerCase q)))).
Proof.
  apply List.Forall_forall. intros w Hw.
  apply List.filter_In in Hw as [Hin Hkept]. split; [exact Hkept|].
  assert (Hall : allChars
                   (fun c => JS.isWhiteSpace c || isLowerWordChar c)
                   (stripPunctuation (JS.toLowerCase q)) = true).
  { unfold stripPunctuation, JS.toLowerCase. rewrite !allChars_mapChars.
    apply allChars_all. exact stripped_character. }
  pose proof (splitRuns_pieces JS.isWhiteSpace isLowerWordChar _ Hall)
    as Hpieces.
  rewrite List.Forall_forall in Hpieces. now apply Hpieces.
Qed.

Lemma isKept_nonempty (w : string) : isKept w = true -> w <> "".
Proof. intros H ->. discriminate. Qed.

Lemma kept_are_ink (words : list string) :
  Forall (fun w => isKept w = true
                   /\ allChars (fun c => negb (JS.isWhiteSpace c)
                                         && isLowerWordChar c) w = true)
         words ->
  Forall (fun w => w <> ""
                   /\ allChars (fun c => negb (JS.isWhiteSpace c)) w = true)
         words.
Proof.
  apply List.Forall_impl. intros w [Hkept Hall].
  split; [now apply isKept_nonempty|].
  eapply allChars_impl; [|exact Hall]. exact lowerWordChar_ink.
Qed.

Lemma preprocessQuery_join (q : string) :
  preprocessQuery q
  = JS.join " "
      (List.filter isKept
         (JS.splitWhiteSpace (stripPunctuation (JS.toLowerCase q)))).
Proof.
  unfold preprocessQuery. apply trim_join, kept_are_ink, kept_words.
Qed.


(** X16.  What [preprocessQuery] returns is its kept words with one space
    between any two, and nothing else: no space at either end.  Every kept
    word has more than two characters, is not a stop word, and consists of
    small letters, digits and underscores.  Splitting the result at white
    space gives the kept words back (and the one empty piece when no word
    was kept): these are the words [expandQuery] goes through. *)
Theorem preprocessQuery_normal_form (q : string) :
  preprocessQuery q = JS.join " " (keptWords q)
  /\ Forall (fun w => (2 < String.length w)%nat
                      /\ (w ∉ stopWords)
                      /\ allChars isLowerWordChar w = true)
            (keptWords q)
  /\ JS.splitWhiteSpace (preprocessQuery q)
     = match keptWords q with
       | [] => [""]
       | _ :: _ => keptWords q
       end.
Proof.
  pose proof (kept_words q) as Hkept. fold (keptWords q) in Hkept.
  rewrite preprocessQuery_join. fold (keptWords q).
  split; [reflexivity|]. split.
  - eapply List.Forall_impl; [|exact Hkept]. intros w [Hk Hall].
    unfold isKept in Hk. apply andb_prop in Hk as [Hlen Hstop].
    split; [now apply Nat.ltb_lt|]. split.
    + apply negb_true_iff, bool_decide_eq_false in Hstop. exact Hstop.
    + eapply allChars_impl; [|exact Hall].
      intros c Hc. now apply andb_prop in Hc.
  - destruct (keptWords q) as [|w rest] eqn:Hq; [reflexivity|].
    apply split_join; [reflexivity|discriminate|].
    now apply kept_are_ink.
Qed.

Lemma filter_filter {A} (f : A -> bool) (l : list A) :
  List.filter f (List.filter f l) = List.filter f l.
Proof.
  induction l as [|x l IH]; [reflexivity|]. simpl.
  destruct (f x) eqn:Hx; [|exact IH]. simpl. now rewrite Hx, IH.
Qed.

(** X17.  [preprocessQuery] is idempotent: a preprocessed query is left as
    it is. *)
Theorem preprocessQuery_is_idempotent (q : string) :
  preprocessQuery (preprocessQuery q) = preprocessQuery q.
Proof.
  pose proof (kept_words q) as Hkept. fold (keptWords q) in Hkept.
  rewrite (preprocessQuery_join (preprocessQuery q)).
  rewrite (preprocessQuery_join q). fold (keptWords q).
  assert (Hchars : allChars (fun c => Ascii.eqb c " " || isLowerWordChar c)
                            (JS.join " " (keptWords q)) = true).
  { apply allChars_join; [reflexivity|].
    eapply List.Forall_impl; [|exact Hkept]. intros w [_ Hall].
    eapply allChars_impl; [|exact Hall].
    intros c Hc. apply andb_prop in Hc as [_ ->]. apply orb_true_r. }
  assert (Hlower : JS.toLowerCase (JS.join " " (keptWords q))
                   = JS.join " " (keptWords q)).
  { apply mapChars_fixed. eapply allChars_impl; [|exact Hchars].
    intros c Hc. apply Ascii.eqb_eq. now apply kept_character_fixed. }
  assert (Hstrip : stripPunctuation (JS.join " " (keptWords q))
                   = JS.join " " (keptWords q)).
  { apply mapChars_fixed. eapply allChars_impl; [|exact Hchars].
    intros c Hc. apply Ascii.eqb_eq. now apply kept_character_fixed. }
  rewrite Hlower, Hstrip.
  destruct (keptWords q) as [|w rest] eqn:Hq; [reflexivity|].
  unfold JS.splitWhiteSpace.
  rewrite split_join;
    [|reflexivity|discriminate|now apply kept_are_ink].
  f_equal. rewrite <- Hq. unfold keptWords. apply filter_filter.
Qed.

End PreprocessFacts.

Module ExpansionFacts.
Import Effects VectorStore RagPipeline Props Vocabulary.
Import SplitFacts PreprocessFacts.

Lemma expandWords_throws (baseQuery : string) (words : list string) :
  Exists (fun w => getSynonyms w = Inherited) words ->
  forall expansions,
    expandWords baseQuery words expansions
    = Throw (TypeError "synonymMap[word].forEach is not a function").
Proof.
  induction words as [|w words IH]; intros Hex expansions;
    [inversion Hex|].
  simpl. destruct (getSynonyms w) eqn:Hw; [|reflexivity|];
    inversion Hex; subst; try congruence; now apply IH.
Qed.

Lemma expandWords_returns (baseQuery : string) (words : list string) :
  Forall (fun w => getSynonyms w <> Inherited) words ->
  forall expansions,
    exists result, expandWords baseQuery words expansions = Normal result.
Proof.
  induction 1 as [|w words Hw _ IH]; intros expansions; simpl; [eauto|].
  destruct (getSynonyms w); [apply IH|congruence|apply IH].
Qed.

Lemma inherited_names (w : string) :
  allChars isLowerWordChar w = true ->
  getSynonyms w = Inherited -> w = "constructor" \/ w = "__proto__".
Proof.
  intros Hlower. unfold getSynonyms.
  destruct (synonymMap !! w); [discriminate|].
  destruct (JS.arrayIncludes objectPrototypeKeys w) eqn:Hinc; [|discriminate].
  intros _. apply QueryFacts.arrayIncludes_In in Hinc.
  simpl in Hinc.
  repeat (destruct Hinc as [<-|Hinc]; [auto; discriminate|]).
  contradiction.
Qed.

Lemma inherited_or_not (words : list string) :
  Forall (fun w => getSynonyms w <> Inherited) words
  \/ Exists (fun w => getSynonyms w = Inherited) words.
Proof.
  induction words as [|w words [IH|IH]]; [left; constructor| |].
  - destruct (getSynonyms w) eqn:Hw.
    + left. constructor; [congruence|exact IH].
    + right. now left.
    + left. constructor; [congruence|exact IH].
  - right. now right.
Qed.

Lemma getSynonyms_of_nothing : getSynonyms "" = Undefined.
Proof. vm_compute. reflexivity. Qed.

(** X18.  [expandQuery] throws exactly when one of the kept words of the
    query is [constructor] or [__proto__]: for these, and for no other word
    that survives the preprocessing, [synonymMap[word]] is a member of
    [Object.prototype], truthy and without a [forEach].  The exception is
    the [TypeError] of that call. *)
Theorem expandQuery_throws_exactly_on_inherited_names (q : string) :
  (In "constructor" (keptWords q) \/ In "__proto__" (keptWords q) ->
   expandQuery q
   = Throw (TypeError "synonymMap[word].forEach is not a function"))
  /\ ((exists e, expandQuery q = Throw e) ->
      In "constructor" (keptWords q) \/ In "__proto__" (keptWords q)).
Proof.
  destruct (preprocessQuery_normal_form q) as (_ & Hkept & Hsplit).
  unfold expandQuery. rewrite Hsplit. split.
  - intros Hin. apply expandWords_throws.
    destruct (keptWords q) as [|w rest]; [destruct Hin as [[]|[]]|].
    apply List.Exists_exists.
    destruct Hin as [Hin|Hin]; eexists;
      (split; [exact Hin|vm_compute; reflexivity]).
  - intros [e He].
    destruct (keptWords q) as [|w rest] eqn:Hq.
    { cbn [expandWords] in He. rewrite getSynonyms_of_nothing in He.
      discriminate. }
    destruct (inherited_or_not (w :: rest)) as [Hall|Hex].
    + destruct (expandWords_returns (preprocessQuery q) _ Hall
                  [preprocessQuery q]) as (result & Hres).
      congruence.
    + apply List.Exists_exists in Hex as (x & Hin & Hx).
      rewrite List.Forall_forall in Hkept.
      destruct (Hkept x Hin) as (_ & _ & Hlower).
      destruct (inherited_names x Hlower Hx) as [->| ->]; auto.
Qed.

End ExpansionFacts.

(** ** Properties of the embeddings *)

Module EmbeddingFacts.
Import Effects VectorStore RagPipeline Props Vocabulary.
Import StoreFacts.

Lemma occurrences_Permutation (word : string) (xs ys : list string) :
  Permutation xs ys -> occurrences word xs = occurrences word ys.
Proof.
  unfold occurrences. intros H. f_equal.
  induction H as [|x xs ys _ IH|x y xs|xs ys zs _ IH1 _ IH2]; simpl.
  - reflexivity.
  - destruct (String.eqb word x); simpl; lia.
  - destruct (String.eqb word x), (String.eqb word y); reflexivity.
  - lia.
Qed.

(** X19.  The fallback vector of a text depends on its words only as a bag:
    two texts with the same words, in whatever order and with whatever
    punctuation and case, have the same vector. *)
Theorem textToVector_is_a_bag_of_words (a b : string) :
  Permutation (wordsOf a) (wordsOf b) -> textToVector a = textToVector b.
Proof.
  intros Hperm. rewrite !VectorizerFacts.textToVector_quotients.
  rewrite (Permutation_length Hperm). f_equal. apply map_ext.
  intros word. now rewrite (occurrences_Permutation word _ _ Hperm).
Qed.

Lemma textToVector_is_a_bag_of_words_witness :
  Permutation (wordsOf "Data, system!") (wordsOf "system data")
  /\ textToVector "Data, system!" = textToVector "system data".
Proof.
  assert (H : Permutation (wordsOf "Data, system!") (wordsOf "system data")).
  { vm_compute. apply perm_swap. }
  split; [exact H|].
  exact (textToVector_is_a_bag_of_words "Data, system!" "system data" H).
Defined.

Lemma textToVector_length (text : string) :
  length (textToVector text) = 100%nat.
Proof.
  rewrite VectorizerFacts.textToVector_quotients.
  rewrite length_firstn, length_map. reflexivity.
Qed.

Lemma getStats_of_one (w : World) (d : VectorDocument) (v : list float) :
  documents w = [d] -> embedding d = EmbeddingArray v ->
  exists s,
    getStats w = (Normal s, w)
    /\ documentCount s = 1
    /\ vectorDimensions s = Z.of_nat (length v).
Proof.
  intros Hdocs Hemb. unfold getStats, bind, getDocuments.
  rewrite Hdocs, Hemb. eexists. split; [reflexivity|]. split; reflexivity.
Qed.

(** X20.  [addDocument] never throws and sends exactly one request, for the
    embedding of the content.  When the provider answers, the document
    carries the provider's embedding and nothing is written to the console.
    When the request fails, the document carries the fallback vector of its
    content, one warning is written, and if the store was empty [getStats]
    afterwards reports one document and 100 dimensions (not the 1536 it
    reports for the empty store). *)
Theorem addDocument_embeds (net : Network) (i c : string) (m : Metadata)
    (w : World) :
  exists d w',
    addDocument net i c m w = (Normal d, w')
    /\ sent w' = sent w ++ [PostEmbeddings c]
    /\ match embeddingsApi net w c with
       | EmbeddingsData e => embedding d = e /\ console w' = console w
       | EmbeddingsFailed =>
           embedding d = EmbeddingArray (textToVector c)
           /\ console w'
              = console w
                ++ ["[RAG] OpenAI embedding failed, using TF-IDF fallback:"]
           /\ (documents w = [] ->
               exists s,
                 getStats w' = (Normal s, w')
                 /\ documentCount s = 1
                 /\ vectorDimensions s = 100)
       end.
Proof.
  unfold addDocument, generateEmbedding, bind, postEmbeddings.
  destruct (embeddingsApi net w c) as [|e]; simpl.
  - eexists _, _. split; [reflexivity|]. simpl.
    split; [reflexivity|]. split; [reflexivity|]. split; [reflexivity|].
    intros Hnil. rewrite Hnil.
    edestruct getStats_of_one as (s & Hs & Hcount & Hdim);
      [| |exists s; split; [exact Hs|split; [exact Hcount|]]].
    + reflexivity.
    + reflexivity.
    + rewrite Hdim. cbn [embedding]. now rewrite textToVector_length.
  - eexists _, _. split; [reflexivity|]. simpl. auto.
Qed.

End EmbeddingFacts.

(** ** Properties of the scrape route *)

Module ScrapeFacts.
Import Props Vocabulary SplitFacts ScrapeRoute.

Lemma dropChars_run (s : string) :
  JS.dropChars (whiteSpaceRun s) s = JS.trimStart s.
Proof.
  induction s as [|c s IH]; [reflexivity|]. simpl.
  destruct (JS.isWhiteSpace c); [exact IH|reflexivity].
Qed.

Lemma dropChars_length (n : nat) (s : string) :
  (String.length (JS.dropChars n s) <= String.length s)%nat.
Proof.
  revert s. induction n as [|n IH]; intros [|c s]; simpl; try lia.
  specialize (IH s). lia.
Qed.

(** The fuel of [replaceAll] is enough: any fuel that covers the text gives
    the same result, and [replaceAll] satisfies the equation of a
    replacement from left to right. *)
Lemma replaceFrom_enough (matchAt : string -> option nat)
    (replacement : string) :
  forall fuel1 fuel2 s,
    (String.length s <= fuel1)%nat -> (String.length s <= fuel2)%nat ->
    replaceFrom fuel1 matchAt replacement s
    = replaceFrom fuel2 matchAt replacement s.
Proof.
  induction fuel1 as [|fuel1 IH]; intros [|fuel2] [|c s] H1 H2;
    simpl in H1, H2; try lia; try reflexivity.
  cbn [replaceFrom].
  destruct (matchAt (String c s)) as [[|n]|].
  - f_equal. apply IH; lia.
  - f_equal. pose proof (dropChars_length n s). apply IH; lia.
  - f_equal. apply IH; lia.
Qed.

Lemma replaceAll_cons (matchAt : string -> option nat)
    (replacement : string) (c : ascii) (s : string) :
  replaceAll matchAt replacement (String c s)
  = match matchAt (String c s) with
    | Some (S n) =>
        replacement +:+ replaceAll matchAt replacement (JS.dropChars n s)
    | _ => String c (replaceAll matchAt replacement s)
    end.
Proof.
  unfold replaceAll. cbn [String.length replaceFrom].
  destruct (matchAt (String c s)) as [[|n]|]; try reflexivity.
  f_equal. pose proof (dropChars_length n s).
  apply replaceFrom_enough; lia.
Qed.

Lemma collapse_cons (c : ascii) (s : string) :
  collapse (String c s)
  = if JS.isWhiteSpace c then
      if JS.startsWithClass JS.isWhiteSpace s then collapse s
      else String " " (collapse s)
    else String c (collapse s).
Proof. reflexivity. Qed.

Lemma collapse_white (c : ascii) (s : string) :
  JS.isWhiteSpace c = true ->
  collapse (String c s) = String " " (collapse (JS.trimStart s)).
Proof.
  revert c. induction s as [|d s IH]; intros c Hc.
  - simpl. now rewrite Hc.
  - rewrite collapse_cons, Hc. cbn [JS.startsWithClass JS.trimStart].
    destruct (JS.isWhiteSpace d) eqn:Hd; [now apply IH|reflexivity].
Qed.

Lemma replace_white (fuel : nat) :
  forall s,
    (String.length s <= fuel)%nat ->
    replaceFrom fuel whiteSpaceAt " " s = collapse s.
Proof.
  induction fuel as [|fuel IH]; intros [|c s] Hlen; try reflexivity.
  - simpl in Hlen. lia.
  - simpl in Hlen. cbn [replaceFrom]. unfold whiteSpaceAt.
    cbn [whiteSpaceRun]. destruct (JS.isWhiteSpace c) eqn:Hc.
    + rewrite IH, dropChars_run, collapse_white by
        (try exact Hc; pose proof (dropChars_length (whiteSpaceRun s) s);
         lia).
      reflexivity.
    + rewrite IH by lia. simpl. now rewrite Hc.
Qed.

Lemma replaceAll_white (s : string) :
  replaceAll whiteSpaceAt " " s = collapse s.
Proof. apply replace_white. lia. Qed.

Lemma trimStart_collapse (s : string) :
  JS.trimStart (collapse s) = collapse (JS.trimStart s).
Proof.
  induction s as [|c s IH]; [reflexivity|].
  cbn [collapse JS.trimStart].
  destruct (JS.isWhiteSpace c) eqn:Hc.
  - destruct (JS.startsWithClass JS.isWhiteSpace s); [exact IH|].
    simpl. exact IH.
  - simpl. now rewrite Hc.
Qed.

Lemma tokens_white (c : ascii) (s : string) :
  JS.isWhiteSpace c = true ->
  whitespaceTokens (String c s) = whitespaceTokens s.
Proof.
  intros Hc. unfold whitespaceTokens, JS.splitWhiteSpace. simpl.
  rewrite Hc. now destruct (JS.startsWithClass JS.isWhiteSpace s).
Qed.

Lemma tokens_trimStart (s : string) :
  whitespaceTokens (JS.trimStart s) = whitespaceTokens s.
Proof.
  induction s as [|c s IH]; [reflexivity|]. simpl.
  destruct (JS.isWhiteSpace c) eqn:Hc; [|reflexivity].
  now rewrite IH, tokens_white.
Qed.

(** The first piece of a text is empty exactly when the text is empty or
    starts with a separator. *)
Lemma first_piece (s : string) :
  exists piece others,
    JS.splitRuns JS.isWhiteSpace s = piece :: others
    /\ (piece = ""
        <-> s = "" \/ JS.startsWithClass JS.isWhiteSpace s = true).
Proof.
  induction s as [|c s (piece & others & Hs & Hpiece)].
  { exists "", []. split; [reflexivity|tauto]. }
  simpl. rewrite Hs. destruct (JS.isWhiteSpace c) eqn:Hc.
  - destruct (JS.startsWithClass JS.isWhiteSpace s) eqn:Hstart.
    + exists piece, others. split; [reflexivity|]. tauto.
    + exists "", (piece :: others). split; [reflexivity|]. tauto.
  - exists (String c piece), others. split; [reflexivity|].
    split; [discriminate|]. intros [H|H]; discriminate.
Qed.


Lemma trimEnd_cons (c : ascii) (s : string) :
  JS.trimEnd (String c s)
  = if JS.isWhiteSpace c && String.eqb (JS.trimEnd s) "" then ""
    else String c (JS.trimEnd s).
Proof. reflexivity. Qed.

Lemma join_cons_char (c : ascii) (w : string) (rest : list string) :
  JS.join " " (String c w :: rest) = String c (JS.join " " (w :: rest)).
Proof. destruct rest; reflexivity. Qed.

Lemma join_nonempty (w : string) (rest : list string) :
  w <> "" -> JS.join " " (w :: rest) <> "".
Proof. destruct w; [congruence|]. now rewrite join_cons_char. Qed.

Lemma tokens_nonempty (s : string) :
  Forall (fun w => w <> "") (whitespaceTokens s).
Proof.
  apply List.Forall_forall. intros w Hw.
  apply List.filter_In in Hw as [_ Hw]. intros ->. discriminate.
Qed.

Lemma trimEnd_collapse (s : string) :
  JS.trimEnd (collapse s)
  = leadingSpace s +:+ JS.join " " (whitespaceTokens s).
Proof.
  induction s as [|c s IH]; [reflexivity|].
  rewrite collapse_cons. unfold leadingSpace at 1.
  cbn [JS.startsWithClass].
  destruct (JS.isWhiteSpace c) eqn:Hc.
  - rewrite (tokens_white c s Hc). cbn [andb].
    destruct (JS.startsWithClass JS.isWhiteSpace s) eqn:Hstart.
    + rewrite IH. unfold leadingSpace. now rewrite Hstart.
    + rewrite trimEnd_cons, IH. unfold leadingSpace. rewrite Hstart.
      cbn [andb]. rewrite StringFacts.append_nil.
      pose proof (tokens_nonempty s) as Hne.
      destruct (whitespaceTokens s) as [|w ws]; [reflexivity|].
      inversion Hne; subst.
      pose proof (join_nonempty w ws ltac:(assumption)) as Hjoin.
      apply String.eqb_neq in Hjoin. rewrite Hjoin. reflexivity.
  - cbn [andb]. rewrite StringFacts.append_nil, trimEnd_cons, Hc, IH.
    cbn [andb].
    destruct (first_piece s) as (piece & others & Hs & Hpiece).
    unfold leadingSpace, whitespaceTokens, JS.splitWhiteSpace.
    cbn [JS.splitRuns]. rewrite Hc, Hs. cbn [List.filter String.eqb negb].
    set (fo := List.filter (fun t => negb (String.eqb t "")) others).
    destruct (String.eqb_spec piece "") as [->|Hne].
    + cbn [negb]. fold fo.
      destruct fo as [|f fs] eqn:Hfo.
      * rewrite andb_false_r. reflexivity.
      * destruct (JS.startsWithClass JS.isWhiteSpace s) eqn:Hstart.
        -- reflexivity.
        -- exfalso. destruct Hpiece as [Hpiece _].
           destruct (Hpiece eq_refl) as [->|H]; [|discriminate].
           simpl in Hs. injection Hs as <-. discriminate.
    + cbn [negb]. fold fo.
      assert (Hstart : JS.startsWithClass JS.isWhiteSpace s = false).
      { destruct (JS.startsWithClass JS.isWhiteSpace s) eqn:H; [|reflexivity].
        exfalso. apply Hne. apply Hpiece. now right. }
      rewrite Hstart. cbn [andb]. rewrite StringFacts.append_nil.
      now rewrite join_cons_char.
Qed.

(** What is left of a text once its runs of white space are single spaces
    and its ends are trimmed: its words, a space between any two. *)
Lemma trim_collapse (s : string) :
  JS.trim (collapse s) = JS.join " " (whitespaceTokens s).
Proof.
  unfold JS.trim. rewrite trimStart_collapse, trimEnd_collapse.
  rewrite tokens_trimStart. unfold leadingSpace.
  assert (Hstart :
    JS.startsWithClass JS.isWhiteSpace (JS.trimStart s) = false).
  { clear. induction s as [|c s IH]; [reflexivity|]. simpl.
    destruct (JS.isWhiteSpace c) eqn:Hc; [exact IH|]. simpl. exact Hc. }
  now rewrite Hstart.
Qed.


(** *** Tags *)

Lemma containsChar_cons (c d : ascii) (s : string) :
  containsChar c (String d s) = Ascii.eqb d c || containsChar c s.
Proof.
  unfold containsChar. simpl. destruct (Ascii.eqb d c); [reflexivity|].
  now destruct (indexOfChar c s).
Qed.

Lemma containsChar_append (c : ascii) (s t : string) :
  containsChar c (s +:+ t) = containsChar c s || containsChar c t.
Proof.
  induction s as [|d s IH]; [reflexivity|].
  rewrite StringFacts.append_cons, !containsChar_cons, IH.
  now rewrite orb_assoc.
Qed.

Lemma containsChar_dropChars (c : ascii) (n : nat) (s : string) :
  containsChar c (JS.dropChars n s) = true -> containsChar c s = true.
Proof.
  revert s. induction n as [|n IH]; intros [|d s]; simpl; auto.
  intros H. rewrite containsChar_cons, (IH s H). apply orb_true_r.
Qed.

Lemma hasTag_dropChars (n : nat) (s : string) :
  hasTag (JS.dropChars n s) = true -> hasTag s = true.
Proof.
  revert s. induction n as [|n IH]; intros [|d s]; simpl; auto.
  intros H. rewrite (IH s H). apply orb_true_r.
Qed.

(** Replacing adds no character that is not in the replacement. *)
Lemma replaceFrom_contains (c : ascii) (matchAt : string -> option nat)
    (replacement : string) (fuel : nat) :
  containsChar c replacement = false ->
  forall s,
    containsChar c (replaceFrom fuel matchAt replacement s) = true ->
    containsChar c s = true.
Proof.
  intros Hrep. induction fuel as [|fuel IH]; intros [|d s]; simpl;
    try discriminate.
  destruct (matchAt (String d s)) as [[|n]|].
  - rewrite !containsChar_cons. intros H.
    apply orb_true_iff in H as [->|H]; [reflexivity|].
    rewrite (IH s H). apply orb_true_r.
  - rewrite containsChar_append, Hrep. cbn [orb]. intros H.
    apply IH, containsChar_dropChars in H.
    rewrite containsChar_cons, H. apply orb_true_r.
  - rewrite !containsChar_cons. intros H.
    apply orb_true_iff in H as [->|H]; [reflexivity|].
    rewrite (IH s H). apply orb_true_r.
Qed.

Lemma hasTag_space (s : string) : hasTag (" " +:+ s) = hasTag s.
Proof. reflexivity. Qed.

Lemma tagAt_cons (d : ascii) (s : string) :
  tagAt (String d s)
  = if Ascii.eqb d "<" then
      match indexOfChar ">" s with
      | Some j => Some (S (S j))
      | None => None
      end
    else None.
Proof. reflexivity. Qed.

(** Once [/<[^>]*>/g] is replaced no tag is left. *)
Lemma replaceFrom_tagAt (fuel : nat) :
  forall s, hasTag (replaceFrom fuel tagAt " " s) = false.
Proof.
  induction fuel as [|fuel IH]; intros [|d s]; try reflexivity.
  cbn [replaceFrom]. rewrite tagAt_cons.
  destruct (Ascii.eqb d "<") eqn:Hd.
  - destruct (indexOfChar ">" s) as [j|] eqn:Hj.
    + rewrite hasTag_space. apply IH.
    + cbn [hasTag]. rewrite IH, orb_false_r, Hd. cbn [andb].
      destruct (containsChar ">" (replaceFrom fuel tagAt " " s)) eqn:Hc;
        [|reflexivity].
      apply replaceFrom_contains in Hc; [|reflexivity].
      unfold containsChar in Hc. now rewrite Hj in Hc.
  - cbn [hasTag]. now rewrite IH, Hd.
Qed.

Lemma white_is_no_bracket (c : ascii) :
  JS.isWhiteSpace c = true ->
  Ascii.eqb c "<" = false /\ Ascii.eqb c ">" = false.
Proof. PreprocessFacts.every_character c; intros _; split; reflexivity. Qed.

Lemma containsChar_trimStart (s : string) :
  containsChar ">" (JS.trimStart s) = containsChar ">" s.
Proof.
  induction s as [|c s IH]; [reflexivity|]. simpl.
  destruct (JS.isWhiteSpace c) eqn:Hc; [|reflexivity].
  destruct (white_is_no_bracket c Hc) as [_ Hgt].
  now rewrite containsChar_cons, Hgt, IH.
Qed.

Lemma hasTag_trimStart (s : string) : hasTag (JS.trimStart s) = hasTag s.
Proof.
  induction s as [|c s IH]; [reflexivity|]. simpl.
  destruct (JS.isWhiteSpace c) eqn:Hc; [|reflexivity].
  destruct (white_is_no_bracket c Hc) as [Hlt _].
  now rewrite Hlt, IH.
Qed.

Lemma containsChar_trimEnd (s : string) :
  containsChar ">" (JS.trimEnd s) = containsChar ">" s.
Proof.
  induction s as [|c s IH]; [reflexivity|].
  rewrite trimEnd_cons, containsChar_cons, <- IH.
  destruct (JS.isWhiteSpace c) eqn:Hc; cbn [andb].
  - destruct (white_is_no_bracket c Hc) as [_ Hgt]. rewrite Hgt.
    destruct (String.eqb_spec (JS.trimEnd s) "") as [->|_]; [reflexivity|].
    now rewrite containsChar_cons, Hgt.
  - now rewrite containsChar_cons.
Qed.

Lemma hasTag_trimEnd (s : string) : hasTag (JS.trimEnd s) = hasTag s.
Proof.
  induction s as [|c s IH]; [reflexivity|].
  rewrite trimEnd_cons. cbn [hasTag]. rewrite <- IH, <- containsChar_trimEnd.
  destruct (JS.isWhiteSpace c) eqn:Hc; cbn [andb]; [|reflexivity].
  destruct (white_is_no_bracket c Hc) as [Hlt _]. rewrite Hlt.
  destruct (String.eqb_spec (JS.trimEnd s) "") as [->|_]; [reflexivity|].
  cbn [hasTag]. now rewrite Hlt.
Qed.

Lemma containsChar_collapse (s : string) :
  containsChar ">" (collapse s) = containsChar ">" s.
Proof.
  induction s as [|c s IH]; [reflexivity|].
  rewrite collapse_cons, containsChar_cons, <- IH.
  destruct (JS.isWhiteSpace c) eqn:Hc; [|now rewrite containsChar_cons].
  destruct (white_is_no_bracket c Hc) as [_ Hgt]. rewrite Hgt.
  destruct (JS.startsWithClass JS.isWhiteSpace s); [reflexivity|].
  now rewrite containsChar_cons.
Qed.

Lemma hasTag_collapse (s : string) : hasTag (collapse s) = hasTag s.
Proof.
  induction s as [|c s IH]; [reflexivity|].
  rewrite collapse_cons. cbn [hasTag].
  rewrite <- IH, <- containsChar_collapse.
  destruct (JS.isWhiteSpace c) eqn:Hc; [|reflexivity].
  destruct (white_is_no_bracket c Hc) as [Hlt _]. rewrite Hlt.
  destruct (JS.startsWithClass JS.isWhiteSpace s); reflexivity.
Qed.

Lemma textContent_tokens (html : string) :
  textContent html = JS.join " " (whitespaceTokens (withoutMarkup html)).
Proof.
  unfold textContent. now rewrite replaceAll_white, trim_collapse.
Qed.

Lemma textContent_no_tag (html : string) : hasTag (textContent html) = false.
Proof.
  unfold textContent, JS.trim.
  rewrite hasTag_trimEnd, hasTag_trimStart, replaceAll_white, hasTag_collapse.
  apply replaceFrom_tagAt.
Qed.

Lemma tokens_are_words (s : string) :
  Forall (fun w => w <> ""
                   /\ allChars (fun c => negb (JS.isWhiteSpace c)) w = true)
         (whitespaceTokens s).
Proof.
  apply List.Forall_forall. intros w Hw.
  apply List.filter_In in Hw as [Hin Hne].
  split; [intros ->; discriminate|].
  pose proof (splitRuns_pieces JS.isWhiteSpace (fun _ => true) s) as Hp.
  rewrite List.Forall_forall in Hp.
  eapply allChars_impl; [|apply Hp; [|exact Hin]].
  - intros c Hc. now apply andb_prop in Hc.
  - apply allChars_all. intros c. apply orb_true_r.
Qed.


Lemma foldCase_bracket (c : ascii) :
  Ascii.eqb "<" (foldCase c) = true -> c = "<"%char.
Proof. PreprocessFacts.every_character c. Qed.

Lemma tagAt_hasTag (t : string) (n : nat) :
  tagAt t = Some n -> hasTag t = true.
Proof.
  destruct t as [|c t]; [discriminate|]. rewrite tagAt_cons.
  destruct (Ascii.eqb c "<") eqn:Hc; [|discriminate].
  destruct (indexOfChar ">" t) eqn:Hj; [|discriminate]. intros _.
  cbn [hasTag]. unfold containsChar. now rewrite Hc, Hj.
Qed.

Lemma elementAt_hasTag (name t : string) (n : nat) :
  elementAt name t = Some n -> hasTag t = true.
Proof.
  unfold elementAt. change ("<" +:+ name) with (String "<" name).
  destruct t as [|c t]; [discriminate|]. cbn [prefixNoCase].
  destruct (Ascii.eqb "<" (foldCase c)) eqn:Hc; [|discriminate].
  apply foldCase_bracket in Hc. subst c. cbn [andb].
  destruct (prefixNoCase name t); [|discriminate].
  cbn [String.length JS.dropChars].
  destruct (indexOfChar ">" (JS.dropChars (String.length name) t)) eqn:Hj;
    [|discriminate].
  intros _. cbn [hasTag].
  assert (Hgt : containsChar ">" t = true).
  { apply (containsChar_dropChars _ (String.length name)).
    unfold containsChar. now rewrite Hj. }
  now rewrite Hgt.
Qed.

(** A pattern that needs a tag finds nothing to replace in a text that has
    none. *)
Lemma replaceFrom_without_tags (matchAt : string -> option nat)
    (replacement : string) :
  (forall t n, matchAt t = Some n -> hasTag t = true) ->
  forall fuel s,
    hasTag s = false -> (String.length s <= fuel)%nat ->
    replaceFrom fuel matchAt replacement s = s.
Proof.
  intros Hmatch. induction fuel as [|fuel IH]; intros [|c s] Hs Hlen;
    try reflexivity; simpl in Hlen; [lia|].
  cbn [replaceFrom].
  assert (Hs' : hasTag s = false).
  { cbn [hasTag] in Hs. now apply orb_false_iff in Hs. }
  destruct (matchAt (String c s)) as [[|n]|] eqn:Hm.
  - now rewrite IH by (auto; lia).
  - apply Hmatch in Hm. congruence.
  - now rewrite IH by (auto; lia).
Qed.

Lemma replaceAll_without_tags (matchAt : string -> option nat)
    (replacement s : string) :
  (forall t n, matchAt t = Some n -> hasTag t = true) ->
  hasTag s = false -> replaceAll matchAt replacement s = s.
Proof.
  intros Hmatch Hs. unfold replaceAll.
  apply replaceFrom_without_tags; auto.
Qed.

Lemma withoutMarkup_without_tags (s : string) :
  hasTag s = false -> withoutMarkup s = s.
Proof.
  intros Hs. unfold withoutMarkup.
  rewrite (replaceAll_without_tags (elementAt "script") "" s
             (elementAt_hasTag "script") Hs).
  rewrite (replaceAll_without_tags (elementAt "style") "" s
             (elementAt_hasTag "style") Hs).
  exact (replaceAll_without_tags tagAt " " s tagAt_hasTag Hs).
Qed.

Lemma filter_nonempty_words (words : list string) :
  Forall (fun w => w <> ""
                   /\ allChars (fun c => negb (JS.isWhiteSpace c)) w = true)
         words ->
  List.filter (fun t => negb (String.eqb t "")) words = words.
Proof.
  induction 1 as [|w words [Hw _] _ IH]; [reflexivity|]. simpl.
  apply String.eqb_neq in Hw. rewrite Hw. simpl. now rewrite IH.
Qed.

(** The words of words joined by spaces are these words. *)
Lemma tokens_join (words : list string) :
  Forall (fun w => w <> ""
                   /\ allChars (fun c => negb (JS.isWhiteSpace c)) w = true)
         words ->
  whitespaceTokens (JS.join " " words) = words.
Proof.
  intros Hwords. destruct words as [|w words]; [reflexivity|].
  unfold whitespaceTokens, JS.splitWhiteSpace.
  rewrite split_join; [|reflexivity|discriminate|exact Hwords].
  now apply filter_nonempty_words.
Qed.

(** X21.  The text the scrape route returns for a page is plain and
    normalised: it is the words of the page without its markup, one space
    between any two, no white space at either end and no white space other
    than these spaces; splitting it at white space gives these words back;
    and it holds no tag, that is no [<] with a [>] anywhere behind it. *)
Theorem textContent_is_plain_text (html : string) :
  textContent html = JS.join " " (whitespaceTokens (withoutMarkup html))
  /\ Forall (fun w => w <> ""
                      /\ allChars (fun c => negb (JS.isWhiteSpace c)) w
                         = true)
            (whitespaceTokens (withoutMarkup html))
  /\ whitespaceTokens (textContent html)
     = whitespaceTokens (withoutMarkup html)
  /\ hasTag (textContent html) = false.
Proof.
  split; [apply textContent_tokens|]. split; [apply tokens_are_words|].
  split; [|apply textContent_no_tag].
  rewrite textContent_tokens. apply tokens_join, tokens_are_words.
Qed.

(** X22.  Extracting the text is idempotent: the text of a page, taken as a
    page, is its own text. *)
Theorem textContent_is_idempotent (html : string) :
  textContent (textContent html) = textContent html.
Proof.
  rewrite (textContent_tokens (textContent html)).
  rewrite (withoutMarkup_without_tags _ (textContent_no_tag html)).
  rewrite (textContent_tokens html) at 1.
  rewrite tokens_join by apply tokens_are_words.
  symmetry. apply textContent_tokens.
Qed.


(** *** The title *)

Lemma upTo_stops (c : ascii) (s : string) : containsChar c (upTo c s) = false.
Proof.
  induction s as [|d s IH]; [reflexivity|]. simpl.
  destruct (Ascii.eqb d c) eqn:Hd; [reflexivity|].
  now rewrite containsChar_cons, Hd, IH.
Qed.

Lemma titleAt_group (s group : string) :
  titleAt s = Some group -> group <> "" /\ containsChar "<" group = false.
Proof.
  unfold titleAt. destruct (prefixNoCase "<title" s); [|discriminate].
  destruct (indexOfChar ">" (JS.dropChars 6 s)) as [j|]; [|discriminate].
  set (body := JS.dropChars (S j) (JS.dropChars 6 s)).
  destruct (String.eqb_spec (upTo "<" body) "") as [Heq|Hne];
    [discriminate|].
  cbn [negb andb]. destruct (prefixNoCase _ _); [|discriminate].
  intros [= <-]. split; [exact Hne|apply upTo_stops].
Qed.

Lemma matchTitle_group (html group : string) :
  matchTitle html = Some group ->
  group <> "" /\ containsChar "<" group = false.
Proof.
  induction html as [|c html IH]; cbn [matchTitle].
  - destruct (titleAt "") eqn:Ht; [|discriminate].
    intros [= <-]. now apply titleAt_group in Ht.
  - destruct (titleAt (String c html)) eqn:Ht; [|exact IH].
    intros [= <-]. now apply titleAt_group in Ht.
Qed.

Lemma upTo_all (c : ascii) (s t : string) :
  containsChar c s = false -> upTo c (s +:+ String c t) = s.
Proof.
  induction s as [|d s IH]; intros Hs.
  - rewrite StringFacts.append_nil. simpl. now rewrite Ascii.eqb_refl.
  - rewrite containsChar_cons in Hs. apply orb_false_iff in Hs as [Hd Hs].
    rewrite StringFacts.append_cons. simpl. now rewrite Hd, (IH Hs).
Qed.

Lemma dropChars_append (s t : string) :
  JS.dropChars (String.length s) (s +:+ t) = t.
Proof. induction s as [|c s IH]; [reflexivity|exact IH]. Qed.

Lemma titleAt_element (t post : string) :
  t <> "" -> containsChar "<" t = false ->
  titleAt ("<title>" +:+ t +:+ "</title>" +:+ post) = Some t.
Proof.
  intros Hne Hlt. unfold titleAt.
  change ("<title>" +:+ t +:+ "</title>" +:+ post)
    with ("<title" +:+ String ">" (t +:+ String "<" ("/title>" +:+ post))).
  change (prefixNoCase "<title" ("<title" +:+ ?x)) with true.
  cbn iota. change 6%nat with (String.length "<title").
  rewrite dropChars_append.
  cbn [indexOfChar JS.dropChars]. rewrite Ascii.eqb_refl.
  cbn [JS.dropChars]. rewrite (upTo_all "<" t _ Hlt), dropChars_append.
  apply String.eqb_neq in Hne. rewrite Hne. reflexivity.
Qed.

Lemma titleAt_needs_bracket (c : ascii) (s : string) :
  Ascii.eqb c "<" = false -> titleAt (String c s) = None.
Proof.
  intros Hc. unfold titleAt. cbn [prefixNoCase].
  destruct (Ascii.eqb "<" (foldCase c)) eqn:Hfold; [|reflexivity].
  apply foldCase_bracket in Hfold. subst c. discriminate.
Qed.

Lemma matchTitle_element (pre t post : string) :
  containsChar "<" pre = false -> t <> "" -> containsChar "<" t = false ->
  matchTitle (pre +:+ "<title>" +:+ t +:+ "</title>" +:+ post) = Some t.
Proof.
  intros Hpre Hne Hlt. induction pre as [|c pre IH].
  - rewrite StringFacts.append_nil.
    destruct ("<title>" +:+ t +:+ "</title>" +:+ post) eqn:Heq;
      cbn [matchTitle]; rewrite <- Heq, titleAt_element; auto.
  - rewrite containsChar_cons in Hpre.
    apply orb_false_iff in Hpre as [Hc Hpre].
    rewrite StringFacts.append_cons. cbn [matchTitle].
    rewrite (titleAt_needs_bracket c _ Hc). now apply IH.
Qed.

(** X23.  The title the scrape route returns is the group of the first
    match of the title pattern: a text that is never empty and holds no
    [<].  When nothing matches the title is the url.  And a title element
    is read back: for a page that has no [<] before its
    [<title>t</title>], with [t] not empty and without a [<], the title is
    [t]. *)
Theorem title_is_the_group_or_the_url (html url : string) :
  match matchTitle html with
  | Some group =>
      title html url = group
      /\ group <> "" /\ containsChar "<" group = false
  | None => title html url = url
  end
  /\ forall pre t post,
       containsChar "<" pre = false ->
       t <> "" -> containsChar "<" t = false ->
       title (pre +:+ "<title>" +:+ t +:+ "</title>" +:+ post) url = t.
Proof.
  split.
  - unfold title. destruct (matchTitle html) as [group|] eqn:Hm;
      [|reflexivity].
    split; [reflexivity|]. now apply (matchTitle_group html).
  - intros pre t post Hpre Hne Hlt. unfold title.
    now rewrite matchTitle_element.
Qed.

(** The text and the title of a small page. *)
Example page_text : textContent page = "Notes Hello, world &amp; all".
Proof. vm_compute. reflexivity. Qed.

Example page_title : title page "http://x" = "Notes".
Proof. vm_compute. reflexivity. Qed.

End ScrapeFacts.

(** ** Properties of the token counts *)

Module TokenFacts.
Import RagPipeline Props Vocabulary SplitFacts ScrapeFacts Components.

Abbreviation pieces := (JS.splitRuns JS.isWhiteSpace).

Lemma pieces_cons (c : ascii) (s : string) :
  pieces (String c s)
  = if JS.isWhiteSpace c then
      if JS.startsWithClass JS.isWhiteSpace s then pieces s
      else "" :: pieces s
    else match pieces s with
         | piece :: others => String c piece :: others
         | [] => [String c ""]
         end.
Proof. reflexivity. Qed.

Lemma trimEnd_blank_start (s : string) :
  JS.trimEnd s = "" -> s = "" \/ JS.startsWithClass JS.isWhiteSpace s = true.
Proof.
  destruct s as [|c s]; [now left|]. rewrite trimEnd_cons. simpl.
  destruct (JS.isWhiteSpace c); [now right|discriminate].
Qed.

Lemma startsWith_trimEnd (s : string) :
  JS.trimEnd s <> "" ->
  JS.startsWithClass JS.isWhiteSpace (JS.trimEnd s)
  = JS.startsWithClass JS.isWhiteSpace s.
Proof.
  destruct s as [|c s]; [reflexivity|]. rewrite trimEnd_cons.
  destruct (JS.isWhiteSpace c && String.eqb (JS.trimEnd s) "");
    [congruence|reflexivity].
Qed.

(** The pieces of a text that is all white space. *)
Lemma pieces_blank (s : string) :
  JS.trimEnd s = "" -> pieces s = if String.eqb s "" then [""] else [""; ""].
Proof.
  induction s as [|c s IH]; [reflexivity|].
  rewrite trimEnd_cons, pieces_cons.
  destruct (JS.isWhiteSpace c); [|discriminate]. cbn [andb].
  destruct (String.eqb_spec (JS.trimEnd s) "") as [Hs|]; [|discriminate].
  intros _. rewrite (IH Hs).
  destruct (trimEnd_blank_start s Hs) as [->|Hstart]; [reflexivity|].
  rewrite Hstart. destruct s; [discriminate|reflexivity].
Qed.

(** White space at the end of a text gives one more piece, an empty one. *)
Lemma pieces_trimEnd (s : string) :
  JS.trimEnd s <> "" ->
  pieces s
  = pieces (JS.trimEnd s) ++ (if endsWithWhiteSpace s then [""] else []).
Proof.
  unfold endsWithWhiteSpace.
  induction s as [|c s IH]; [intros H; now contradiction H|].
  rewrite trimEnd_cons.
  destruct (String.eqb_spec (JS.trimEnd s) "") as [Hblank|Hink].
  - rewrite andb_true_r. destruct (JS.isWhiteSpace c) eqn:Hc;
      [intros H; now contradiction H|].
    intros _. rewrite !pieces_cons, Hc, (pieces_blank s Hblank).
    rewrite Hblank. simpl.
    destruct (String.eqb_spec s "") as [->|Hs].
    + rewrite Ascii.eqb_refl. reflexivity.
    + rewrite Ascii.eqb_refl. destruct s; [congruence|reflexivity].
  - rewrite andb_false_r. intros _. specialize (IH Hink).
    assert (Htail : negb (String.eqb (String c (JS.trimEnd s)) (String c s))
                    = negb (String.eqb (JS.trimEnd s) s)).
    { simpl. now rewrite Ascii.eqb_refl. }
    rewrite Htail, !pieces_cons, (startsWith_trimEnd s Hink).
    destruct (JS.isWhiteSpace c).
    + destruct (JS.startsWithClass JS.isWhiteSpace s); [exact IH|].
      now rewrite IH.
    + rewrite IH.
      destruct (pieces (JS.trimEnd s)) as [|piece others] eqn:Hp;
        [now apply ContextFacts.splitRuns_nonempty in Hp|reflexivity].
Qed.

(** In a text that does not end with white space only the first piece can
    be empty. *)
Lemma pieces_inner (s : string) :
  JS.trimEnd s = s -> s <> "" ->
  exists piece others,
    pieces s = piece :: others /\ Forall (fun w => w <> "") others.
Proof.
  induction s as [|c s IH]; [congruence|].
  rewrite trimEnd_cons. intros Htrim _.
  destruct (JS.isWhiteSpace c && String.eqb (JS.trimEnd s) "") eqn:Hcut;
    [discriminate|].
  injection Htrim as Htrim. rewrite pieces_cons.
  destruct s as [|d s].
  - simpl in Hcut. rewrite andb_true_r in Hcut. rewrite Hcut.
    eexists _, _. split; [reflexivity|constructor].
  - destruct (IH Htrim ltac:(discriminate)) as (piece & others & Hp & Ho).
    rewrite Hp. destruct (JS.isWhiteSpace c).
    + destruct (JS.startsWithClass JS.isWhiteSpace (String d s)) eqn:Hstart.
      * eauto.
      * eexists _, _. split; [reflexivity|]. constructor; [|exact Ho].
        destruct (first_piece (String d s)) as (p & o & Hp' & Hiff).
        rewrite Hp in Hp'. injection Hp' as <- <-.
        intros Hempty. apply Hiff in Hempty as [H|H]; congruence.
    + eauto.
Qed.

Lemma pieces_of_trimmed (s : string) :
  JS.trimEnd s = s -> s <> "" ->
  pieces s = (if JS.startsWithClass JS.isWhiteSpace s then [""] else [])
             ++ whitespaceTokens s.
Proof.
  intros Htrim Hne.
  destruct (pieces_inner s Htrim Hne) as (piece & others & Hp & Ho).
  destruct (first_piece s) as (p & o & Hp' & Hiff).
  rewrite Hp in Hp'. injection Hp' as <- <-.
  unfold whitespaceTokens, JS.splitWhiteSpace. rewrite Hp.
  assert (Hfo : List.filter (fun t => negb (String.eqb t "")) others
                = others).
  { clear -Ho. induction Ho as [|w ws Hw _ IH]; [reflexivity|]. simpl.
    apply String.eqb_neq in Hw. rewrite Hw. simpl. now rewrite IH. }
  cbn [List.filter]. rewrite Hfo.
  destruct (JS.startsWithClass JS.isWhiteSpace s) eqn:Hstart.
  - assert (piece = "") as -> by (apply Hiff; now right). reflexivity.
  - destruct (String.eqb_spec piece "") as [Hempty|_]; [|reflexivity].
    apply Hiff in Hempty as [H|H]; congruence.
Qed.

Lemma trimEnd_idempotent (s : string) :
  JS.trimEnd (JS.trimEnd s) = JS.trimEnd s.
Proof.
  induction s as [|c s IH]; [reflexivity|]. rewrite trimEnd_cons.
  destruct (JS.isWhiteSpace c && String.eqb (JS.trimEnd s) "") eqn:Hcut;
    [reflexivity|].
  rewrite trimEnd_cons, IH, Hcut. reflexivity.
Qed.

Lemma tokens_trimEnd (s : string) :
  whitespaceTokens (JS.trimEnd s) = whitespaceTokens s.
Proof.
  destruct (String.eqb_spec (JS.trimEnd s) "") as [Hblank|Hink].
  - rewrite Hblank. unfold whitespaceTokens, JS.splitWhiteSpace.
    rewrite (pieces_blank s Hblank). now destruct (String.eqb s "").
  - unfold whitespaceTokens, JS.splitWhiteSpace.
    rewrite (pieces_trimEnd s Hink), List.filter_app.
    destruct (endsWithWhiteSpace s); simpl; now rewrite app_nil_r.
Qed.


Lemma startsWith_trimStart (s : string) :
  JS.startsWithClass JS.isWhiteSpace (JS.trimStart s) = false.
Proof.
  induction s as [|c s IH]; [reflexivity|]. simpl.
  destruct (JS.isWhiteSpace c) eqn:Hc; [exact IH|]. simpl. exact Hc.
Qed.

(** X24.  What [buildContext] charges for a document: the number of its
    words, and one more when the content starts with white space, and one
    more when it ends with white space; an empty content is charged 1. *)
Theorem docTokens_counts (content : string) :
  docTokens content
  = if String.eqb content "" then 1
    else whitespaceTokenCount content
         + (if JS.startsWithClass JS.isWhiteSpace content then 1 else 0)
         + (if endsWithWhiteSpace content then 1 else 0).
Proof.
  unfold docTokens, whitespaceTokenCount, JS.splitWhiteSpace.
  destruct (String.eqb_spec content "") as [->|Hne]; [reflexivity|].
  destruct (String.eqb_spec (JS.trimEnd content) "") as [Hblank|Hink].
  - rewrite (pieces_blank content Hblank).
    rewrite <- tokens_trimEnd. unfold endsWithWhiteSpace. rewrite Hblank.
    destruct (trimEnd_blank_start content Hblank) as [Hempty|Hstart];
      [contradiction|].
    rewrite Hstart. destruct content; [contradiction|reflexivity].
  - rewrite (pieces_trimEnd content Hink).
    rewrite (pieces_of_trimmed (JS.trimEnd content))
      by (auto using trimEnd_idempotent).
    rewrite (startsWith_trimEnd content Hink), tokens_trimEnd.
    rewrite !length_app.
    destruct (JS.startsWithClass JS.isWhiteSpace content),
             (endsWithWhiteSpace content); simpl length; lia.
Qed.

(** X25.  [getWordCount] is the number of words of the content, except that
    a content without any word (empty, or white space only) counts as 1. *)
Theorem getWordCount_counts (content : string) :
  getWordCount content = Z.max 1 (whitespaceTokenCount content).
Proof.
  unfold getWordCount, whitespaceTokenCount, JS.splitWhiteSpace, JS.trim.
  rewrite <- (tokens_trimStart content), <- tokens_trimEnd.
  set (t := JS.trimEnd (JS.trimStart content)).
  destruct (String.eqb_spec t "") as [->|Hink]; [reflexivity|].
  assert (Hstart : JS.startsWithClass JS.isWhiteSpace t = false).
  { subst t. rewrite startsWith_trimEnd by exact Hink.
    apply startsWith_trimStart. }
  rewrite (pieces_of_trimmed t); [|apply trimEnd_idempotent|exact Hink].
  rewrite Hstart. cbn [app].
  assert (Hpos : whitespaceTokens t <> []).
  { intros Hnil.
    pose proof (pieces_of_trimmed t (trimEnd_idempotent _) Hink) as Hp.
    rewrite Hstart, Hnil in Hp.
    now apply ContextFacts.splitRuns_nonempty in Hp. }
  destruct (whitespaceTokens t); [contradiction|]. simpl length. lia.
Qed.

End TokenFacts.

(** ** Properties of the document list *)

Module ComponentFacts.
Import Vocabulary SplitFacts Components.

Lemma includes_empty (s : string) : JS.includes s "" = true.
Proof. destruct s; reflexivity. Qed.

Lemma lowerChar_idempotent (c : ascii) :
  JS.lowerChar (JS.lowerChar c) = JS.lowerChar c.
Proof. PreprocessFacts.every_character c. Qed.

Lemma toLowerCase_idempotent (s : string) :
  JS.toLowerCase (JS.toLowerCase s) = JS.toLowerCase s.
Proof.
  unfold JS.toLowerCase. induction s as [|c s IH]; [reflexivity|].
  simpl. now rewrite lowerChar_idempotent, IH.
Qed.

(** X26.  The search box of the document list: with an empty query every
    document is listed; whatever the query, the documents listed are
    documents of the list in their order; and the case of the query does
    not matter. *)
Theorem filteredDocuments_lists (documents : list Document) :
  filteredDocuments documents "" = documents
  /\ forall q,
       sublist (filteredDocuments documents q) documents
       /\ filteredDocuments documents (JS.toLowerCase q)
          = filteredDocuments documents q.
Proof.
  split.
  - unfold filteredDocuments. induction documents as [|d ds IH];
      [reflexivity|].
    simpl. change (JS.toLowerCase "") with "".
    rewrite includes_empty. cbn [orb]. f_equal. exact IH.
  - intros q. split.
    + apply RankingFacts.sublist_filter_bool.
    + unfold filteredDocuments. now rewrite toLowerCase_idempotent.
Qed.

Example filteredDocuments_example :
  map id (filteredDocuments twoEntries "data") = ["1"]
  /\ map id (filteredDocuments twoEntries "CAT") = ["2"]
  /\ getWordCount "   " = 1
  /\ getWordCount " two  words " = 2.
Proof. vm_compute. repeat split. Qed.

End ComponentFacts.

(** ** Properties of the fallback answer *)

Module AnswerFacts.
Import Effects VectorStore RagPipeline Props Vocabulary.
Import SplitFacts ScrapeFacts.

Lemma lowerChar_white (c : ascii) :
  JS.isWhiteSpace (JS.lowerChar c) = JS.isWhiteSpace c.
Proof. PreprocessFacts.every_character c. Qed.

Lemma startsWith_toLowerCase (s : string) :
  JS.startsWithClass JS.isWhiteSpace (JS.toLowerCase s)
  = JS.startsWithClass JS.isWhiteSpace s.
Proof. destruct s as [|c s]; [reflexivity|]. apply lowerChar_white. Qed.

Lemma toLowerCase_empty (s : string) : JS.toLowerCase s = "" -> s = "".
Proof. destruct s; [reflexivity|discriminate]. Qed.

(** The words of a text that is empty or starts with white space begin
    with the empty word. *)
Lemma words_of_indented (s : string) :
  s = "" \/ JS.startsWithClass JS.isWhiteSpace s = true ->
  exists others,
    JS.splitWhiteSpace (JS.toLowerCase s) = "" :: others.
Proof.
  intros Hs.
  destruct (first_piece (JS.toLowerCase s)) as (piece & others & Hp & Hiff).
  exists others. unfold JS.splitWhiteSpace. rewrite Hp. f_equal.
  apply Hiff. destruct Hs as [->|Hs]; [now left|right].
  now rewrite startsWith_toLowerCase.
Qed.

Lemma includes_nothing (s : string) : JS.includes s "" = true.
Proof. destruct s; reflexivity. Qed.

(** X27.  The relevance test of the fallback answer is vacuous where an
    empty word comes up: every word includes the empty word.  So a sentence
    that starts with white space (as the sentences behind a full stop and a
    space do) passes the test whatever the query is, and an empty query, or
    one that starts with white space, lets every sentence pass. *)
Theorem sharesWord_accepts_indented_sentences (query_ sentence : string) :
  (sentence = "" \/ JS.startsWithClass JS.isWhiteSpace sentence = true)
  \/ (query_ = "" \/ JS.startsWithClass JS.isWhiteSpace query_ = true) ->
  sharesWord query_ sentence = true.
Proof.
  unfold sharesWord. intros [Hs|Hq].
  - destruct (words_of_indented sentence Hs) as (others & ->).
    destruct (JS.splitWhiteSpace (JS.toLowerCase query_)) as [|w ws] eqn:Hw.
    + now apply ContextFacts.splitRuns_nonempty in Hw.
    + cbn [existsb]. now rewrite includes_nothing, orb_true_r.
  - destruct (words_of_indented query_ Hq) as (others & ->).
    destruct (JS.splitWhiteSpace (JS.toLowerCase sentence))
      as [|sw sws] eqn:Hsw.
    + now apply ContextFacts.splitRuns_nonempty in Hsw.
    + cbn [existsb]. now rewrite includes_nothing.
Qed.

Lemma sharesWord_accepts_indented_sentences_witness :
  ((" Cats purr" = ""
    \/ JS.startsWithClass JS.isWhiteSpace " Cats purr" = true)
   \/ ("data" = ""
       \/ JS.startsWithClass JS.isWhiteSpace "data" = true))
  /\ sharesWord "data" " Cats purr" = true.
Proof.
  assert (H :
    ((" Cats purr" = ""
      \/ JS.startsWithClass JS.isWhiteSpace " Cats purr" = true)
     \/ ("data" = ""
         \/ JS.startsWithClass JS.isWhiteSpace "data" = true))).
  { left. right. reflexivity. }
  split; [exact H|].
  exact (sharesWord_accepts_indented_sentences "data" " Cats purr" H).
Defined.

(** Without the white space in front the same sentence does not pass. *)
Example sharesWord_example : sharesWord "data" "Cats purr" = false.
Proof. vm_compute. reflexivity. Qed.

End AnswerFacts.

(** ** The confidence of a response *)

Module ConfidenceFacts.
Import Effects VectorStore RagPipeline Props Vocabulary.
Import RoundingFacts OrderFacts StoreFacts PipelineFacts StatsFacts.

Lemma nonNeg_leb (x : float) :
  nonNegSF (Prim2SF x) -> PrimFloat.leb 0 x = true.
Proof.
  rewrite FloatAxioms.leb_spec.
  change (Prim2SF 0) with (S754_zero false). unfold SFleb, SFcompare.
  destruct (Prim2SF x) as [s|s| |s m e]; simpl; try easy;
    intros ->; reflexivity.
Qed.

Lemma aboveCutoff_nonNeg (x : float) :
  PrimFloat.ltb lowSimilarity x = true -> nonNegSF (Prim2SF x).
Proof.
  rewrite FloatAxioms.ltb_spec. unfold SFltb.
  replace (Prim2SF lowSimilarity)
    with (S754_finite false 7205759403792794 (-56))
    by (symmetry; vm_compute; reflexivity).
  destruct (Prim2SF x) as [s|s| |s m e]; simpl; try discriminate;
    destruct s; try discriminate; reflexivity.
Qed.

Lemma shr_fexp_nonneg (m e : Z) (l : location) :
  0 <= m ->
  exists mrs' e',
    shr_fexp prec emax m e l = (mrs', e') /\ 0 <= shr_m mrs'.
Proof.
  intros Hm. unfold shr_fexp, shr.
  destruct (sticky_of_loc m l) as [_ Hmant].
  destruct (fexp prec emax (Zdigits2 m + e) - e) as [|n|n];
    try (do 2 eexists; split; [reflexivity|]; lia).
  do 2 eexists. split; [reflexivity|].
  apply iter_shr_1_atLeast; lia.
Qed.

Lemma binary_round_aux_nonneg (m e : Z) (l : location) :
  0 <= m -> nonNegSF (binary_round_aux prec emax false m e l).
Proof.
  intros Hm. unfold binary_round_aux.
  destruct (shr_fexp_nonneg m e l Hm) as (mrs1 & e1 & -> & Hm1).
  assert (Hround : 0 <= round_nearest_even (shr_m mrs1)
                          (loc_of_shr_record mrs1)).
  { unfold round_nearest_even.
    destruct (loc_of_shr_record mrs1) as [|[]];
      try destruct (Z.even (shr_m mrs1)); lia. }
  destruct (shr_fexp_nonneg _ e1 loc_Exact Hround) as (mrs2 & e2 & -> & Hm2).
  destruct (shr_m mrs2) as [|p|p]; try lia; [easy|].
  destruct (e2 <=? emax - prec); reflexivity.
Qed.

Lemma binary_normalize_nonneg (d e : Z) :
  0 <= d -> nonNegSF (binary_normalize prec emax d e false).
Proof.
  intros Hd. destruct d as [|p|p]; cbn [binary_normalize]; [easy| |lia].
  unfold binary_round, shl_align.
  destruct (fexp prec emax (Z.pos (digits2_pos p) + e) - e);
    apply binary_round_aux_nonneg; lia.
Qed.

Lemma SFadd_nonneg (x y : spec_float) :
  nonNegSF x -> nonNegSF y -> nonNegSF (SF64add x y).
Proof.
  unfold SF64add, SFadd.
  destruct x as [sx|sx| |sx mx ex], y as [sy|sy| |sy my ey];
    cbn [nonNegSF]; intros Hx Hy; subst; try easy;
    try (now destruct sx, sy).
  apply binary_normalize_nonneg. cbn [cond_Zopp]. lia.
Qed.

Lemma SFdiv_nonneg (x : spec_float) (my : positive) (ey : Z) :
  nonNegSF x -> nonNegSF (SF64div x (S754_finite false my ey)).
Proof.
  unfold SF64div, SFdiv.
  destruct x as [sx|sx| |sx mx ex]; simpl; try easy; intros ->; try easy.
  unfold SFdiv_core_binary.
  set (e' := Z.min _ _). set (m' := match _ with Z0 => _ | _ => _ end).
  assert (Hm' : 0 <= m').
  { subst m'. destruct (ex - ey - e'); try lia.
    rewrite Z.shiftl_mul_pow2 by lia.
    pose proof (Z.pow_nonneg 2 (Z.pos p) ltac:(lia)). lia. }
  pose proof (Z_div_mod m' (Z.pos my) ltac:(lia)) as Hdiv.
  destruct (Z.div_eucl m' (Z.pos my)) as [q r].
  apply binary_round_aux_nonneg. nia.
Qed.

Lemma SFmul_nonneg (x : spec_float) (my : positive) (ey : Z) :
  nonNegSF x -> nonNegSF (SF64mul x (S754_finite false my ey)).
Proof.
  unfold SF64mul, SFmul.
  destruct x as [sx|sx| |sx mx ex]; simpl; try easy; intros ->; try easy.
  apply binary_round_aux_nonneg. lia.
Qed.

Lemma Math_round_of_nonneg (x : float) :
  nonNegSF (Prim2SF x) -> PrimFloat.leb 0 (JS.Math_round x) = true.
Proof.
  intros Hx. unfold JS.Math_round.
  destruct (Prim2SF x) as [s|s| |s m e] eqn:Hsf; try easy;
    try (apply nonNeg_leb; now rewrite Hsf).
  simpl in Hx. subst s.
  destruct (Z.leb_spec 0 e) as [|He];
    [apply nonNeg_leb; now rewrite Hsf|].
  destruct (Z.eqb_spec ((2 * Z.pos m + 2 ^ (- e)) / (2 * 2 ^ (- e))) 0);
    [reflexivity|].
  assert (0 < 2 ^ (- e)) by (apply Z.pow_pos_nonneg; lia).
  apply ofZ_nonneg. apply Z.div_pos; lia.
Qed.

Lemma sum_nonneg (results : list SearchResult) :
  Forall (fun r => nonNegSF (Prim2SF (similarity r))) results ->
  forall sum,
    nonNegSF (Prim2SF sum) ->
    nonNegSF
      (Prim2SF (fold_left (fun s r => (s + similarity r)%float) results sum)).
Proof.
  induction 1 as [|r results Hr _ IH]; intros sum Hsum; [exact Hsum|].
  simpl. apply IH. rewrite FloatAxioms.add_spec. now apply SFadd_nonneg.
Qed.

(** The confidence of results that passed the cutoff is a number that is
    not negative. *)
Lemma confidenceOf_nonneg (results : list SearchResult) :
  Z.of_nat (length results) < 2 ^ 53 ->
  Forall (fun r => PrimFloat.ltb lowSimilarity (similarity r) = true)
         results ->
  PrimFloat.leb 0 (confidenceOf results) = true.
Proof.
  intros Hlen Habove. unfold confidenceOf.
  destruct results as [|r0 results0] eqn:Hres; [reflexivity|].
  rewrite <- Hres in *. replace (0 <? length results)%nat with true
    by (rewrite Hres; reflexivity).
  apply Math_round_of_nonneg. rewrite FloatAxioms.mul_spec.
  replace (Prim2SF 100) with (S754_finite false 7036874417766400 (-46))
    by (symmetry; vm_compute; reflexivity).
  apply SFmul_nonneg. unfold averageSimilarity.
  rewrite FloatAxioms.div_spec.
  destruct (ofZ_positive (Z.of_nat (length results)))
    as (m & e & -> & _);
    [split; [rewrite Hres; simpl length; lia|exact Hlen]|].
  apply SFdiv_nonneg, sum_nonneg; [|easy].
  eapply List.Forall_impl; [|exact Habove].
  intros r. apply aboveCutoff_nonNeg.
Qed.


Lemma nonNeg_not_NaN (x : float) :
  nonNegSF (Prim2SF x) -> PrimFloat.is_nan x = false.
Proof.
  unfold PrimFloat.is_nan. rewrite FloatAxioms.eqb_spec. unfold SFeqb.
  destruct (Prim2SF x) as [s|s| |s m e]; simpl; try easy.
  - intros _. now destruct s.
  - intros ->. now rewrite Z.compare_refl, Pos.compare_cont_refl.
Qed.

Lemma leb_nonNeg (x : float) :
  PrimFloat.leb 0 x = true -> nonNegSF (Prim2SF x).
Proof.
  rewrite FloatAxioms.leb_spec.
  change (Prim2SF 0) with (S754_zero false). unfold SFleb, SFcompare.
  destruct (Prim2SF x) as [s|s| |s m e]; simpl; try easy;
    destruct s; try discriminate; reflexivity.
Qed.

Lemma search_results_count (net : Network) (q : string) (k : Z)
    (w w1 : World) (results : list SearchResult) :
  search net q k w = (Normal results, w1) ->
  (length results <= length (documents w))%nat.
Proof.
  intros Hsearch.
  destruct (search_returns _ _ _ _ _ _ Hsearch)
    as [(_ & -> & _)|(_ & qv & scored & _ & Hscore & ->)]; [simpl; lia|].
  pose proof (scoreAll_documents _ _ _ Hscore) as Hmap.
  rewrite <- Hmap, length_map.
  rewrite <- (Permutation_length (sort_Permutation bySimilarity scored)).
  apply sublist_length, ranked_sublist.
Qed.

(** X28.  The confidence of a response of [processRAGQuery] is a number that
    is not negative, never [NaN], whatever the store holds (a store of
    fewer than 2^53 documents) and whatever the provider answers: the
    similarities that are [NaN] do not pass the cutoff of [search], and
    sums, quotients and products of what is left are not negative. *)
Theorem processRAGQuery_confidence_is_a_number (net : Network)
    (digits : float -> string) (q : string) (k : Z) (w : World) :
  Z.of_nat (length (documents w)) < 2 ^ 53 ->
  exists response w',
    processRAGQuery net digits q k w = (Normal response, w')
    /\ PrimFloat.is_nan (confidence (context response)) = false
    /\ PrimFloat.leb 0 (confidence (context response)) = true.
Proof.
  intros Hdocs.
  destruct (processRAGQuery_cases net digits q k w)
    as [(results & w1 & a & w2 & Hs & Hgen & ->)
       |(e & w1 & Hs & ->)].
  - eexists _, _. split; [reflexivity|]. cbn [context confidence].
    rewrite buildContext_sorts.
    pose proof (sort_Permutation bySimilarity results) as Hperm.
    destruct (search_results_above_cutoff _ _ _ _ _ _ Hs) as (Habove & _).
    pose proof (search_results_count _ _ _ _ _ _ Hs) as Hcount.
    assert (Hconf : PrimFloat.leb 0 (confidenceOf
                                       (JS.sort bySimilarity results))
                    = true).
    { apply confidenceOf_nonneg.
      - rewrite (Permutation_length Hperm). lia.
      - apply List.Forall_forall. intros r Hin.
        apply (Permutation_in _ Hperm) in Hin.
        rewrite List.Forall_forall in Habove. auto. }
    split; [|exact Hconf]. now apply nonNeg_not_NaN, leb_nonNeg.
  - eexists _, _. split; [reflexivity|]. split; reflexivity.
Qed.

Lemma processRAGQuery_confidence_is_a_number_witness :
  Z.of_nat (length (documents threeNotesWorld)) < 2 ^ 53
  /\ exists response w',
       processRAGQuery offline noDigits "data" 5 threeNotesWorld
       = (Normal response, w')
       /\ PrimFloat.is_nan (confidence (context response)) = false
       /\ PrimFloat.leb 0 (confidence (context response)) = true.
Proof.
  assert (H : Z.of_nat (length (documents threeNotesWorld)) < 2 ^ 53)
    by (vm_compute; reflexivity).
  split; [exact H|].
  exact (processRAGQuery_confidence_is_a_number offline noDigits "data" 5
           threeNotesWorld H).
Defined.

(** With the three notes in the store one similarity is [NaN]; the
    confidence of the response is 85 all the same. *)
Example confidence_of_threeNotes :
  exists response w',
    processRAGQuery offline noDigits "data" 5 threeNotesWorld
    = (Normal response, w')
    /\ confidence (context response) = 85%float
    /\ map (fun r => id (document r)) (sources response) = ["3"; "1"].
Proof. eexists _, _. vm_compute. repeat split. Qed.

End ConfidenceFacts.
